(** * pull_data.py: the StackOverflow question and answer collector

    A shallow embedding of [Archive/pull_data.py] and the properties of
    its pipeline: the HTML cleaner, the question fetcher, the question
    store, the question collector, the answer fetcher and the joiner.

    Python values are modelled as follows.
    - [int] is [Z]; [%] is [Z.modulo] (both take the sign of the divisor),
      with the [ZeroDivisionError] of a zero divisor written out.
    - [str] is [string]; the regular expressions work on the list of its
      characters.  Characters are the code points below 256.
    - A JSON object whose keys may be missing is a record of [option]
      fields, [None] standing for an absent key.
    - [dict] keyed by question id is [gmap Z _], [set] of ids is [gset Z].
    - Exceptions are the [Raise] results of a state and exception monad in
      which the state survives a raise, as Python's mutated objects do. *)

From Stdlib Require Import ZArith List Ascii String Lia Bool Sorted.
From stdpp Require Import base option list gmap sets strings pretty.
From Equations Require Import Equations.
From Equations.Prop Require Import Logic.

Local Open Scope Z_scope.

(* ================================================================= *)
(** ** Exceptions and results *)

(** The exceptions the program can meet.  [KeyboardInterrupt] and
    [SystemExit] derive from [BaseException] only; the others are
    subclasses of [Exception]. *)
Inductive exn : Type :=
| KeyboardInterrupt
| SystemExit
| KeyError (key : string)
| ZeroDivisionError
| ValueError
| ConnectionError
| JSONDecodeError
| OSError
| ParserError.

(** [isinstance(e, Exception)] *)
Definition is_Exception (e : exn) : bool :=
  match e with
  | KeyboardInterrupt | SystemExit => false
  | _ => true
  end.

Inductive res (A : Type) : Type :=
| Ok (a : A)
| Raise (e : exn).
Arguments Ok {A} a.
Arguments Raise {A} e.

(** [try: m  except: h]  (a bare [except] catches every exception) *)
Definition try_except_all {A} (m : res A) (h : res A) : res A :=
  match m with
  | Ok a => Ok a
  | Raise _ => h
  end.

(* ================================================================= *)
(** ** Text: whitespace and regular expressions *)

(** [str.isspace], which is also the class [\s] of a [str] pattern, on
    the code points below 256: TAB..CR, FS..US, space, NEL and NBSP. *)
Definition is_space (c : ascii) : bool :=
  let n := N_of_ascii c in
  ((9 <=? n)%N && (n <=? 13)%N) || ((28 <=? n)%N && (n <=? 32)%N)
  || (n =? 133)%N || (n =? 160)%N.

Definition lt_char : ascii := "<"%char.
Definition gt_char : ascii := ">"%char.
Definition space_char : ascii := " "%char.

Fixpoint skip_spaces (s : list ascii) : list ascii :=
  match s with
  | [] => []
  | c :: r => if is_space c then skip_spaces r else s
  end.

(** [re.sub(r"\s+", " ", s)]: every maximal run of whitespace becomes
    one space. *)
Equations? sub_spaces (s : list ascii) : list ascii by wf (length s) lt :=
  sub_spaces [] := [];
  sub_spaces (c :: r) with is_space c => {
    | true := space_char :: sub_spaces (skip_spaces r);
    | false := c :: sub_spaces r }.
Proof.
  assert (Hlen : forall t, (length (skip_spaces t) <= length t)%nat).
  { induction t as [|x t IH]; simpl; [lia|]. destruct (is_space x); simpl; lia. }
  specialize (Hlen r). simpl. lia.
Qed.

(** [s.strip()] *)
Definition strip (s : list ascii) : list ascii :=
  rev (skip_spaces (rev (skip_spaces s))).

(** The longest prefix of characters other than [>], and what follows. *)
Fixpoint span_not_gt (s : list ascii) : list ascii * list ascii :=
  match s with
  | [] => ([], [])
  | c :: r =>
      if Ascii.eqb c gt_char then ([], s)
      else let '(m, t) := span_not_gt r in (c :: m, t)
  end.

(** The pattern [<[^>]+>] tried at the start of [s]: the text after the
    match.  [[^>]+] is greedy and every character it takes differs from
    [>], so the only match from a given [<] ends at the first [>]. *)
Definition match_tag (s : list ascii) : option (list ascii) :=
  match s with
  | c :: r =>
      if Ascii.eqb c lt_char then
        match span_not_gt r with
        | (_ :: _, g :: t) => Some t
        | _ => None
        end
      else None
  | [] => None
  end.

(** [re.sub(r"<[^>]+>", "", s)]: the leftmost matches, left to right,
    are deleted. *)
Equations? sub_tags (s : list ascii) : list ascii by wf (length s) lt :=
  sub_tags [] := [];
  sub_tags (c :: r) with inspect (match_tag (c :: r)) => {
    | exist _ (Some t) H := sub_tags t;
    | exist _ None H := c :: sub_tags r }.
Proof.
  assert (Hlen : forall u, (length (snd (span_not_gt u)) <= length u)%nat).
  { induction u as [|x u IH]; simpl; [lia|].
    destruct (Ascii.eqb x gt_char); simpl; [lia|].
    destruct (span_not_gt u); simpl in *; lia. }
  simpl in H. destruct (Ascii.eqb c lt_char); [|discriminate].
  specialize (Hlen r).
  destruct (span_not_gt r) as [[|m ms] [|g t']]; try discriminate.
  injection H as <-. simpl in *. lia.
Qed.

Definition chars (s : string) : list ascii := list_ascii_of_string s.
Definition text (l : list ascii) : string := string_of_list_ascii l.

(* ================================================================= *)
(** ** Data model *)

(** An item of the questions endpoint, as decoded from JSON: any key may
    be missing. *)
Record api_question : Type := ApiQuestion {
  q_question_id : option Z;
  q_title : option string;
  q_body : option string;
  q_score : option Z;
  q_creation_date : option Z;
  q_view_count : option Z;
  q_answer_count : option Z;
  q_tags : option (list string) }.

(** The question record built by the fetcher and kept in the store. *)
Record question : Type := Question {
  question_id : Z;
  title : string;
  body : string;
  score : Z;
  creation_date : Z;
  view_count : Z;
  answer_count : Z;
  tags : string }.

Record api_owner : Type := ApiOwner { o_user_id : option Z }.

(** An item of the answers endpoint. *)
Record api_answer : Type := ApiAnswer {
  a_question_id : option Z;
  a_answer_id : option Z;
  a_score : option Z;
  a_owner : option api_owner;
  a_body : option string;
  a_is_accepted : option bool }.

(** [answer.get("owner", {}).get("user_id", "unknown")] *)
Inductive user : Type :=
| UserId (id : Z)
| UnknownUser.

Record answer_data : Type := AnswerData {
  ad_answer_id : Z;
  ad_score : Z;
  ad_user_id : user;
  ad_text : string }.

(** [{"accepted": [...], "others": [...]}] *)
Record bucket : Type := Bucket {
  accepted : list answer_data;
  others : list answer_data }.

(** A row of the output table. *)
Record row : Type := Row {
  row_question_id : Z;
  row_title : string;
  row_body : string;
  row_score : Z;
  row_view_count : Z;
  row_answer_count : Z;
  row_tags : string;
  accepted_answer : string;
  top_answer_1 : string;
  top_answer_2 : string;
  top_answer_3 : string }.

(** The decoded body of a response: [data.get("items", [])] and
    [data.get("quota_remaining", 0)] read these two keys. *)
Record payload (A : Type) : Type := Payload {
  items : option (list A);
  quota_remaining : option Z }.
Arguments Payload {A} items quota_remaining.
Arguments items {A} p.
Arguments quota_remaining {A} p.

(** [response.status_code] and [response.json()] *)
Record response (A : Type) : Type := Response {
  status_code : Z;
  json : res (payload A) }.
Arguments Response {A} status_code json.
Arguments status_code {A} r.
Arguments json {A} r.

(** What a file holds. *)
Inductive file : Type :=
| JsonQuestions (qs : list question)
| CsvTable (rows : list row)
| Unreadable.

(** What the program does to the outside, in order. *)
Inductive event : Type :=
| EvGetQuestions (page : Z) (r : res (response api_question))
| EvGetAnswers (ids : list Z) (r : res (response api_answer))
| EvSave (filename : string) (qs : list question)
| EvToCsv (filename : string) (rows : list row)
| EvSleep.

(** A failure delivered by the outside at some step: the exception, and
    whether a write under way leaves the file unreadable. *)
Record failure : Type := Failure { exc : exn; torn : bool }.

(** The outside of the program.  Every operation on it is numbered by the
    clock of the world, so that the server may answer the same request
    differently at different times, and a failure or an interruption may
    arrive at any step.  The two libraries that read text are part of
    it: [soup_get_text] is BeautifulSoup's [get_text], and [read_table]
    is what pandas reads from the rows of a table file: the frame,
    given by the rows that [to_csv] writes for it (a cell that pandas
    takes for a missing value, such as [NA] or [null], comes back
    empty), and [None] when pandas raises. *)
Record env : Type := Env {
  get_questions : nat -> Z -> Z -> bool -> res (response api_question);
  get_answers : nat -> list Z -> res (response api_answer);
  fault : nat -> option failure;
  soup_get_text : string -> res string;
  read_table : list row -> option (list row) }.

Record world : Type := World {
  clock : nat;
  files : gmap string file;
  trace : list event }.

(* ================================================================= *)
(** ** The state and exception monad *)

Definition M (S A : Type) : Type := S -> res A * S.

Definition ret {S A} (a : A) : M S A := fun s => (Ok a, s).

Definition bind {S A B} (m : M S A) (k : A -> M S B) : M S B :=
  fun s =>
    match m s with
    | (Ok a, s') => k a s'
    | (Raise e, s') => (Raise e, s')
    end.

Definition throw {S A} (e : exn) : M S A := fun s => (Raise e, s).

Definition lift_res {S A} (r : res A) : M S A := fun s => (r, s).

Notation "'let*' x ':=' m 'in' k" := (bind m (fun x => k))
  (at level 10, x pattern, m at level 100, k at level 200).

(** [try: m  except ...: h]: [handler e] is the clause that catches [e],
    if any.  The state reached when the exception was raised is kept. *)
Definition try_except {S A} (m : M S A) (handler : exn -> option (M S A)) : M S A :=
  fun s =>
    match m s with
    | (Ok a, s') => (Ok a, s')
    | (Raise e, s') =>
        match handler e with
        | Some h => h s'
        | None => (Raise e, s')
        end
    end.

(** How a loop body ends: it falls through to the next iteration or
    breaks; the reason of a [break] is kept for the statements. *)
Inductive ctl (R : Type) : Type :=
| Continue
| Break (why : R).
Arguments Continue {R}.
Arguments Break {R} why.

(** How a [for] loop ends without an exception. *)
Inductive loop_end (R : Type) : Type :=
| Exhausted
| Broke (why : R).
Arguments Exhausted {R}.
Arguments Broke {R} why.

(** [for x in l: body] *)
Fixpoint for_each {S A R} (l : list A) (body : A -> M S (ctl R)) : M S (loop_end R) :=
  match l with
  | [] => ret Exhausted
  | x :: l' =>
      let* c := body x in
      match c with
      | Break why => ret (Broke why)
      | Continue => for_each l' body
      end
  end.

(** [[f(x) for x in l]] where [f] may raise *)
Fixpoint map_res {A B} (f : A -> res B) (l : list A) : res (list B) :=
  match l with
  | [] => Ok []
  | x :: l' =>
      match f x with
      | Raise e => Raise e
      | Ok y =>
          match map_res f l' with
          | Raise e => Raise e
          | Ok ys => Ok (y :: ys)
          end
      end
  end.

(** A left fold whose step may raise. *)
Fixpoint fold_res {A B} (f : B -> A -> res B) (acc : B) (l : list A) : res B :=
  match l with
  | [] => Ok acc
  | x :: l' =>
      match f acc x with
      | Raise e => Raise e
      | Ok acc' => fold_res f acc' l'
      end
  end.

(* ================================================================= *)
(** ** Python built-ins *)

(** [range(lo, hi)] *)
Definition range (lo hi : Z) : list Z :=
  map (fun i : nat => lo + Z.of_nat i) (seq 0 (Z.to_nat (hi - lo))).

(** [range(0, n, step)] for [n >= 0] *)
Definition range_step (n step : Z) : res (list Z) :=
  if step =? 0 then Raise ValueError
  else if step <? 0 then Ok []
  else Ok (map (fun k : nat => Z.of_nat k * step)
               (seq 0 (Z.to_nat ((n + step - 1) / step)))).

(** [l[i : j]] for [0 <= i] *)
Definition slice {A} (l : list A) (i j : Z) : list A :=
  take (Z.to_nat (j - i)) (drop (Z.to_nat i) l).

(** [l[:n]]: a negative [n] counts from the end. *)
Definition slice_to {A} (l : list A) (n : Z) : list A :=
  if n <? 0 then take (Z.to_nat (Z.of_nat (length l) + n)) l
  else take (Z.to_nat n) l.

(** [str(x)] *)
Definition str_Z (z : Z) : string := pretty z.

Definition str_user (u : user) : string :=
  match u with
  | UserId id => str_Z id
  | UnknownUser => "unknown"
  end.

(** [l.sort(key=lambda x: x["score"], reverse=True)]: a stable sort by
    decreasing score.  [insert_desc] puts [x], which comes before the
    elements of [l] in the original order, before those of equal score. *)
Fixpoint insert_desc (x : answer_data) (l : list answer_data) : list answer_data :=
  match l with
  | [] => [x]
  | y :: l' =>
      if ad_score x <? ad_score y then y :: insert_desc x l'
      else x :: l
  end.

Definition sort_desc (l : list answer_data) : list answer_data :=
  foldr insert_desc [] l.

(* ================================================================= *)
(** ** The program *)

Section Program.

Context (E : env).

(** *** Operations on the outside *)

Definition advance (w : world) : world :=
  {| clock := S (clock w); files := files w; trace := trace w |}.

Definition record (ev : event) (w : world) : world :=
  {| clock := clock w; files := files w; trace := trace w ++ [ev] |}.

Definition put_file (filename : string) (f : file) (w : world) : world :=
  {| clock := clock w; files := <[filename := f]> (files w); trace := trace w |}.

(** A point at which the outside may interrupt the program. *)
Definition checkpoint : M world unit :=
  fun w =>
    match fault E (clock w) with
    | Some f => (Raise (exc f), advance w)
    | None => (Ok tt, advance w)
    end.

(** [time.sleep(1)] *)
Definition sleep : M world unit :=
  fun w =>
    match fault E (clock w) with
    | Some f => (Raise (exc f), advance w)
    | None => (Ok tt, advance (record EvSleep w))
    end.

(** [os.path.exists(filename)] *)
Definition path_exists (filename : string) (w : world) : bool :=
  bool_decide (is_Some (files w !! filename)).

(** Writing [f] to [filename]: [open(filename, "w")] and the dump.  A
    failure leaves the old file, or an unreadable one when the write is
    torn. *)
Definition write_file (filename : string) (f : file) (ev : event) : M world unit :=
  fun w =>
    match fault E (clock w) with
    | Some fl =>
        (Raise (exc fl),
         advance (if torn fl then put_file filename Unreadable w else w))
    | None => (Ok tt, advance (record ev (put_file filename f w)))
    end.

(** [requests.get(base_url, params=params)] on the questions endpoint *)
Definition requests_get_questions (page pagesize : Z) (has_accepted : bool)
  : M world (response api_question) :=
  fun w =>
    let r := get_questions E (clock w) page pagesize has_accepted in
    (r, advance (record (EvGetQuestions page r) w)).

(** [requests.get(base_url, params=params)] on the answers endpoint *)
Definition requests_get_answers (ids : list Z) : M world (response api_answer) :=
  fun w =>
    let r := get_answers E (clock w) ids in
    (r, advance (record (EvGetAnswers ids r) w)).

(** *** Step 1: the questions *)

(** The dictionary built for one item.  [q["question_id"]] raises
    [KeyError] when the key is missing; the other keys are read with
    [get] and a default. *)
Definition extract_question (q : api_question) : res question :=
  match q_question_id q with
  | None => Raise (KeyError "question_id")
  | Some qid =>
      Ok {| question_id := qid;
            title := default "" (q_title q);
            body := default "" (q_body q);
            score := default 0 (q_score q);
            creation_date := default 0 (q_creation_date q);
            view_count := default 0 (q_view_count q);
            answer_count := default 0 (q_answer_count q);
            tags := String.concat ";" (default [] (q_tags q)) |}
  end.

Definition fetch_nlp_questions (page pagesize : Z) (has_accepted : bool)
  : M world (list question * Z) :=
  let* response := requests_get_questions page pagesize has_accepted in
  if status_code response =? 200 then
    let* data := lift_res (json response) in
    let questions := default [] (items data) in
    let quota := default 0 (quota_remaining data) in
    let* processed_questions := lift_res (map_res extract_question questions) in
    ret (processed_questions, quota)
  else
    ret ([], 0).

Definition save_questions (questions : list question) (filename : string)
  : M world unit :=
  write_file filename (JsonQuestions questions) (EvSave filename questions).

Definition load_questions (filename : string) : M world (list question) :=
  fun w =>
    match files w !! filename with
    | None => (Ok [], w)
    | Some (JsonQuestions qs) => (Ok qs, w)
    | Some _ => (Raise JSONDecodeError, w)
    end.

(** The objects the collection loop mutates, and the outside. *)
Record cstate : Type := CState {
  all_questions : list question;
  existing_ids : gset Z;
  cworld : world }.

(** An operation on the outside, run from the collector. *)
Definition outside {A} (m : M world A) : M cstate A :=
  fun st =>
    let '(r, w) := m (cworld st) in
    (r, {| all_questions := all_questions st;
           existing_ids := existing_ids st;
           cworld := w |}).

Definition get_all_questions : M cstate (list question) :=
  fun st => (Ok (all_questions st), st).

(** [if q["question_id"] not in existing_ids: all_questions.append(q);
    existing_ids.add(q["question_id"]); new_count += 1] *)
Definition add_question (q : question) (new_count : Z) : M cstate Z :=
  fun st =>
    if bool_decide (question_id q ∈ existing_ids st) then (Ok new_count, st)
    else
      (Ok (new_count + 1),
       {| all_questions := all_questions st ++ [q];
          existing_ids := existing_ids st ∪ {[question_id q]};
          cworld := cworld st |}).

(** [for q in questions: ...], giving [new_count] *)
Fixpoint add_new_questions (questions : list question) (new_count : Z) : M cstate Z :=
  match questions with
  | [] => ret new_count
  | q :: questions' =>
      let* _ := outside checkpoint in
      let* new_count' := add_question q new_count in
      add_new_questions questions' new_count'
  end.

(** Why the collection loop breaks. *)
Inductive stop_reason : Type :=
| LowQuota
| EndOfResults.

(** The body of the loop over the pages. *)
Definition collect_page (has_accepted : bool) (save_interval : Z)
    (output_file : string) (page_num : Z) : M cstate (ctl stop_reason) :=
  let* (questions, quota) := outside (fetch_nlp_questions page_num 100 has_accepted) in
  let* new_count := add_new_questions questions 0 in
  let* _ :=
    (if save_interval =? 0 then throw ZeroDivisionError
     else if page_num mod save_interval =? 0 then
       let* qs := get_all_questions in
       outside (save_questions qs output_file)
     else ret tt) in
  if quota <? 5 then ret (Break LowQuota)
  else
    let* confirmed :=
      (if (length questions =? 0)%nat then
         let* (next_questions, _) :=
           outside (fetch_nlp_questions (page_num + 1) 100 has_accepted) in
         ret (length next_questions =? 0)%nat
       else ret false) in
    if confirmed then ret (Break EndOfResults)
    else
      let* _ := outside sleep in
      ret Continue.

(** The [for] loop of the collector. *)
Definition collect_loop (max_pages start_page : Z) (has_accepted : bool)
    (save_interval : Z) (output_file : string) : M cstate (loop_end stop_reason) :=
  for_each (range start_page (start_page + max_pages))
           (collect_page has_accepted save_interval output_file).

(** How the [try] statement around the loop ends. *)
Inductive exit_path : Type :=
| Completed
| Stopped (why : stop_reason)
| Interrupted
| Failed (e : exn).

Definition exit_of_loop (r : loop_end stop_reason) : exit_path :=
  match r with
  | Exhausted => Completed
  | Broke why => Stopped why
  end.

(** [try: for ...  except KeyboardInterrupt: ...  except Exception as e: ...] *)
Definition collect_try (max_pages start_page : Z) (has_accepted : bool)
    (save_interval : Z) (output_file : string) : M cstate exit_path :=
  try_except
    (let* r := collect_loop max_pages start_page has_accepted save_interval output_file in
     ret (exit_of_loop r))
    (fun e =>
       match e with
       | KeyboardInterrupt => Some (ret Interrupted)
       | _ => if is_Exception e then Some (ret (Failed e)) else None
       end).

(** The collector from the [try] statement on. *)
Definition collect_from (max_pages start_page : Z) (has_accepted : bool)
    (save_interval : Z) (output_file : string) : M cstate (list question) :=
  let* _ := collect_try max_pages start_page has_accepted save_interval output_file in
  let* qs := get_all_questions in
  let* _ := outside (save_questions qs output_file) in
  get_all_questions.

(** The state in which the loop starts. *)
Definition collect_init (loaded : list question) (w : world) : cstate :=
  {| all_questions := loaded;
     existing_ids := list_to_set (map question_id loaded);
     cworld := w |}.

Definition collect_all_questions (max_pages start_page : Z) (has_accepted : bool)
    (save_interval : Z) (output_file : string) : M world (list question) :=
  fun w =>
    match (if path_exists output_file w then load_questions output_file
           else ret []) w with
    | (Raise e, w1) => (Raise e, w1)
    | (Ok loaded, w1) =>
        let '(r, st) :=
          collect_from max_pages start_page has_accepted save_interval
            output_file (collect_init loaded w1) in
        (r, cworld st)
    end.

(** *** Step 2: the answers *)

(** [BeautifulSoup(html_text, "html.parser").get_text(separator=" ",
    strip=True)] is the library's; it is [soup_get_text E].  A bare
    [except] falls back on the regular expression. *)
Definition clean_html (html_text : option string) : res string :=
  match html_text with
  | None => Ok ""
  | Some s =>
      if String.eqb s "" then Ok ""
      else
        try_except_all
          (match soup_get_text E s with
           | Raise e => Raise e
           | Ok t => Ok (text (strip (sub_spaces (chars t))))
           end)
          (Ok (text (strip (sub_spaces (sub_tags (chars s))))))
  end.

Definition empty_bucket : bucket := {| accepted := []; others := [] |}.

(** [answer.get("owner", {}).get("user_id", "unknown")] *)
Definition owner_user_id (answer : api_answer) : user :=
  match a_owner answer with
  | None => UnknownUser
  | Some o =>
      match o_user_id o with
      | Some id => UserId id
      | None => UnknownUser
      end
  end.

(** The body of [for answer in answers]. *)
Definition add_answer (all_answers : gmap Z bucket) (answer : api_answer)
  : res (gmap Z bucket) :=
  match a_question_id answer with
  | None => Raise (KeyError "question_id")
  | Some qid =>
      let all_answers1 :=
        match all_answers !! qid with
        | None => <[qid := empty_bucket]> all_answers
        | Some _ => all_answers
        end in
      match a_answer_id answer with
      | None => Raise (KeyError "answer_id")
      | Some aid =>
          match clean_html (Some (default "" (a_body answer))) with
          | Raise e => Raise e
          | Ok cleaned =>
              let answer_data :=
                {| ad_answer_id := aid;
                   ad_score := default 0 (a_score answer);
                   ad_user_id := owner_user_id answer;
                   ad_text := cleaned |} in
              let b := default empty_bucket (all_answers1 !! qid) in
              if default false (a_is_accepted answer) then
                Ok (<[qid := {| accepted := accepted b ++ [answer_data];
                                others := others b |}]> all_answers1)
              else
                Ok (<[qid := {| accepted := accepted b;
                                others := others b ++ [answer_data] |}]> all_answers1)
          end
      end
  end.

(** [for i in range(0, len(question_ids), batch_size)] with
    [batch_size = 100]; [starts] is what is left of the range. *)
Fixpoint fetch_batches (question_ids : list Z) (starts : list Z)
    (all_answers : gmap Z bucket) : M world (gmap Z bucket) :=
  match starts with
  | [] => ret all_answers
  | i :: starts' =>
      let batch := slice question_ids i (i + 100) in
      let* response := requests_get_answers batch in
      if status_code response =? 200 then
        let* data := lift_res (json response) in
        let answers := default [] (items data) in
        let quota := default 0 (quota_remaining data) in
        let* all_answers' := lift_res (fold_res add_answer all_answers answers) in
        if quota <? 100 then ret all_answers'
        else
          let* _ := sleep in
          fetch_batches question_ids starts' all_answers'
      else fetch_batches question_ids starts' all_answers
  end.

(** The body of [for qid in all_answers]. *)
Definition sort_and_limit (top_n : Z) (b : bucket) : bucket :=
  {| accepted := accepted b;
     others := slice_to (sort_desc (others b)) top_n |}.

Definition fetch_answers_for_questions (question_ids : list Z) (top_n : Z)
  : M world (gmap Z bucket) :=
  match question_ids with
  | [] => ret ∅
  | _ :: _ =>
      let* starts := lift_res (range_step (Z.of_nat (length question_ids)) 100) in
      let* all_answers := fetch_batches question_ids starts ∅ in
      ret (sort_and_limit top_n <$> all_answers)
  end.

(** [f"[User {a['user_id']} | Score: {a['score']}]: {a['text']}"] *)
Definition format_answer (a : answer_data) : string :=
  "[User " +:+ str_user (ad_user_id a) +:+ " | Score: " +:+ str_Z (ad_score a)
  +:+ "]: " +:+ ad_text a.

Definition set_accepted_answer (v : string) (r : row) : row :=
  {| row_question_id := row_question_id r; row_title := row_title r;
     row_body := row_body r; row_score := row_score r;
     row_view_count := row_view_count r; row_answer_count := row_answer_count r;
     row_tags := row_tags r; accepted_answer := v;
     top_answer_1 := top_answer_1 r; top_answer_2 := top_answer_2 r;
     top_answer_3 := top_answer_3 r |}.

(** [row[f"top_answer_{k}"] = v].  The loop that calls it runs over at
    most three answers, so [k] is 1, 2 or 3. *)
Definition set_top_answer (k : Z) (v : string) (r : row) : row :=
  {| row_question_id := row_question_id r; row_title := row_title r;
     row_body := row_body r; row_score := row_score r;
     row_view_count := row_view_count r; row_answer_count := row_answer_count r;
     row_tags := row_tags r; accepted_answer := accepted_answer r;
     top_answer_1 := if k =? 1 then v else top_answer_1 r;
     top_answer_2 := if k =? 2 then v else top_answer_2 r;
     top_answer_3 := if k =? 3 then v else top_answer_3 r |}.

(** [enumerate(l)] *)
Definition enumerate {A} (l : list A) : list (Z * A) :=
  imap (fun i x => (Z.of_nat i, x)) l.

(** The body of [for question in batch], up to [results.append(row)]. *)
Definition build_row (answers_data : gmap Z bucket) (question : question) : res row :=
  let qid := question_id question in
  match clean_html (Some (body question)) with
  | Raise e => Raise e
  | Ok clean_body =>
      let row0 :=
        {| row_question_id := qid;
           row_title := title question;
           row_body := clean_body;
           row_score := score question;
           row_view_count := view_count question;
           row_answer_count := answer_count question;
           row_tags := tags question;
           accepted_answer := "";
           top_answer_1 := "";
           top_answer_2 := "";
           top_answer_3 := "" |} in
      match answers_data !! qid with
      | None => Ok row0
      | Some b =>
          let row1 :=
            match accepted b with
            | first :: _ => set_accepted_answer (format_answer first) row0
            | [] => row0
            end in
          Ok (foldl (fun r '(idx, answer) =>
                       set_top_answer (idx + 1) (format_answer answer) r)
                    row1 (enumerate (slice_to (others b) 3)))
      end
  end.

(** [pd.read_csv(output_file)]: the frame that pandas reads from the
    rows of the file, which need not be the rows as they were
    written. *)
Definition read_csv (filename : string) : M world (list row) :=
  fun w =>
    match files w !! filename with
    | Some (CsvTable rows) =>
        match read_table E rows with
        | Some frame => (Ok frame, w)
        | None => (Raise ParserError, w)
        end
    | _ => (Raise ParserError, w)
    end.

(** [df.to_csv(output_file, index=False, encoding="utf-8")]: the rows of
    the frame as pandas writes them.  The frames that the program writes
    are the one of [results], whose cells are its own strings and
    integers, and that one after the frame read from the file. *)
Definition to_csv (rows : list row) (filename : string) : M world unit :=
  write_file filename (CsvTable rows) (EvToCsv filename rows).

(** [existing_df] and [processed_ids] after the [if os.path.exists]
    statement; [None] is an [existing_df] that was never bound. *)
Definition load_existing (output_file : string) : M world (option (list row)) :=
  fun w =>
    if path_exists output_file w then
      try_except
        (let* existing_df := read_csv output_file in ret (Some existing_df))
        (fun e => if is_Exception e then Some (ret None) else None) w
    else (Ok None, w).

Definition ids_of_table (existing_df : option (list row)) : gset Z :=
  match existing_df with
  | Some rows => list_to_set (map row_question_id rows)
  | None => ∅
  end.

(** The "Save progress" statement. *)
Definition save_progress (output_file : string) (existing_df : option (list row))
    (processed_ids : gset Z) (results : list row) : M world unit :=
  match results with
  | [] => ret tt
  | _ :: _ =>
      fun w =>
        if path_exists output_file w
           && negb (bool_decide (processed_ids = ∅)) then
          to_csv (default [] existing_df ++ results) output_file w
        else to_csv results output_file w
  end.

(** [for i in range(0, len(to_process), batch_size)]; [starts] is what
    is left of the range and [results] the rows built so far. *)
Fixpoint process_batches (to_process : list question) (batch_size top_n : Z)
    (output_file : string) (existing_df : option (list row))
    (processed_ids : gset Z) (starts : list Z) (results : list row)
  : M world unit :=
  match starts with
  | [] => ret tt
  | i :: starts' =>
      let batch := slice to_process i (i + batch_size) in
      let question_ids := map question_id batch in
      let* answers_data := fetch_answers_for_questions question_ids top_n in
      let* rows := lift_res (map_res (build_row answers_data) batch) in
      let results' := results ++ rows in
      let* _ := save_progress output_file existing_df processed_ids results' in
      process_batches to_process batch_size top_n output_file existing_df
        processed_ids starts' results'
  end.

(** [[q for q in questions if q["question_id"] not in processed_ids]] *)
Definition unprocessed (processed_ids : gset Z) (questions : list question)
  : list question :=
  filter (fun q => question_id q ∉ processed_ids) questions.

Definition process_questions_with_answers (questions_file output_file : string)
    (batch_size top_n : Z) : M world unit :=
  let* questions := load_questions questions_file in
  match questions with
  | [] => ret tt
  | _ :: _ =>
      let* existing_df := load_existing output_file in
      let processed_ids := ids_of_table existing_df in
      let to_process := unprocessed processed_ids questions in
      let* starts :=
        lift_res (range_step (Z.of_nat (length to_process)) batch_size) in
      process_batches to_process batch_size top_n output_file existing_df
        processed_ids starts []
  end.

End Program.

(* ================================================================= *)
(** ** The entry points *)

Section EntryPoints.

Context (E : env).

(** [main()]: the collector, with the start page left to its default,
    then the joiner. *)
Definition main : M world unit :=
  let* questions :=
    collect_all_questions E 100 11 true 2 "nlp_questions.json" in
  process_questions_with_answers E "nlp_questions.json" "nlp_qa_dataset.csv" 30 3.

(** [step1_only()] *)
Definition step1_only : M world unit :=
  let* _ := collect_all_questions E 100 28 true 2 "nlp_questions.json" in
  ret tt.

(** [step2_only()] *)
Definition step2_only : M world unit :=
  process_questions_with_answers E "nlp_questions.json" "nlp_qa_dataset.csv" 30 3.

End EntryPoints.

(* ================================================================= *)
(** ** What the statements speak of *)

(** [s] has a substring that the pattern [<[^>]+>] matches. *)
Definition contains_tag (s : list ascii) : Prop :=
  exists pre mid post,
    s = pre ++ lt_char :: mid ++ gt_char :: post /\ mid <> [] /\ (gt_char ∉ mid).

(** [s] has two whitespace characters in a row. *)
Definition ws_run (s : list ascii) : Prop :=
  exists pre a b post,
    s = pre ++ a :: b :: post /\ is_space a = true /\ is_space b = true.


(* ================================================================= *)
(** ** Sample outsides, for the examples *)

(** The character references [&lt;] and [&gt;] decoded. *)
Fixpoint decode_refs (s : list ascii) : list ascii :=
  match s with
  | "&" :: "l" :: "t" :: ";" :: r => lt_char :: decode_refs r
  | "&" :: "g" :: "t" :: ";" :: r => gt_char :: decode_refs r
  | c :: r => c :: decode_refs r
  | [] => []
  end%char.

(** A text extraction in the manner of [html.parser]: the tags are
    dropped, then the character references are decoded. *)
Definition decoding_get_text (s : string) : res string :=
  Ok (text (decode_refs (sub_tags (chars s)))).

Definition no_fault : nat -> option failure := fun _ => None.

(** A successful response with its items and quota. *)
Definition ok_response {A} (l : list A) (quota : Z) : res (response A) :=
  Ok (Response 200 (Ok (Payload (Some l) (Some quota)))).

(** A response with another status than 200. *)
Definition error_response {A} (status : Z) : res (response A) :=
  Ok (Response status (Raise JSONDecodeError)).

(** The cells that pandas takes for a missing value when it reads a
    table (its default [na_values]). *)
Definition na_values : list string :=
  [""; "#N/A"; "#N/A N/A"; "#NA"; "-1.#IND"; "-1.#QNAN"; "-NaN"; "-nan";
   "1.#IND"; "1.#QNAN"; "<NA>"; "N/A"; "NA"; "NULL"; "NaN"; "None"; "n/a";
   "nan"; "null"].

Definition blank_na (s : string) : string :=
  if bool_decide (s ∈ na_values) then "" else s.

Definition blank_row (r : row) : row :=
  {| row_question_id := row_question_id r;
     row_title := blank_na (row_title r);
     row_body := blank_na (row_body r);
     row_score := row_score r;
     row_view_count := row_view_count r;
     row_answer_count := row_answer_count r;
     row_tags := blank_na (row_tags r);
     accepted_answer := blank_na (accepted_answer r);
     top_answer_1 := blank_na (top_answer_1 r);
     top_answer_2 := blank_na (top_answer_2 r);
     top_answer_3 := blank_na (top_answer_3 r) |}.

(** A reading of tables in the manner of pandas: every row is read, and
    a text cell that stands for a missing value is written back
    empty. *)
Definition blanking_read_table (rows : list row) : option (list row) :=
  Some (map blank_row rows).

(** A mock server: the answer depends on the request only, and nothing
    fails. *)
Definition mock_env (pages : Z -> res (response api_question))
    (answers : list Z -> res (response api_answer)) : env :=
  {| get_questions := fun _ page _ _ => pages page;
     get_answers := fun _ ids => answers ids;
     fault := no_fault;
     soup_get_text := decoding_get_text;
     read_table := blanking_read_table |}.

Definition no_answers : list Z -> res (response api_answer) :=
  fun _ => ok_response [] 10000.

Definition empty_world : world := {| clock := 0; files := ∅; trace := [] |}.

Definition item (qid : Z) : api_question :=
  {| q_question_id := Some qid; q_title := Some "t"; q_body := Some "<p>b</p>";
     q_score := Some 1; q_creation_date := Some 2; q_view_count := Some 3;
     q_answer_count := Some 4; q_tags := Some ["nlp"; "python"] |}.

(* ================================================================= *)
(** ** Assertions on monadic programs *)

(** From a state in [P], the program [m] ends in [Q] with its value, or
    raises [e] in a state in [X e]. *)
Definition hoare {S A} (P : S -> Prop) (m : M S A) (Q : A -> S -> Prop)
    (X : exn -> S -> Prop) : Prop :=
  forall s, P s ->
    match m s with
    | (Ok a, s') => Q a s'
    | (Raise e, s') => X e s'
    end.

(** The exceptions that the [try] statement of the collector catches. *)
Definition caught (e : exn) : Prop :=
  e = KeyboardInterrupt \/ is_Exception e = true.

(** The outside raises nothing but interruptions and [Exception]s. *)
Definition raises_caught (E : env) : Prop :=
  (forall n f, fault E n = Some f -> caught (exc f))
  /\ (forall n page pagesize ha e,
        get_questions E n page pagesize ha = Raise e -> caught e)
  /\ (forall n page pagesize ha r e,
        get_questions E n page pagesize ha = Ok r -> json r = Raise e -> caught e).

(** The outside never fails and never interrupts. *)
Definition quiet (E : env) : Prop := forall n, fault E n = None.

Definition ids (qs : list question) : list Z := map question_id qs.

Definition row_ids (rows : list row) : list Z := map row_question_id rows.

(** The question ids that a response of the questions endpoint carries. *)
Definition response_ids (r : res (response api_question)) : gset Z :=
  match r with
  | Ok resp =>
      if status_code resp =? 200 then
        match json resp with
        | Ok data => list_to_set (omap q_question_id (default [] (items data)))
        | Raise _ => ∅
        end
      else ∅
  | Raise _ => ∅
  end.

Definition event_ids (ev : event) : gset Z :=
  match ev with
  | EvGetQuestions _ r => response_ids r
  | _ => ∅
  end.

(** The distinct question ids that the server returned in a trace. *)
Definition returned_ids (tr : list event) : gset Z :=
  ⋃ (map event_ids tr).

(** The collection that [filename] stores; an absent file stores none. *)
Definition stored (w : world) (filename : string) : list question :=
  match files w !! filename with
  | Some (JsonQuestions qs) => qs
  | _ => []
  end.

(** The questions that a page request yields, and the quota: what
    [fetch_nlp_questions] makes of the response. *)
Definition page_result (r : res (response api_question)) : res (list question * Z) :=
  match r with
  | Raise e => Raise e
  | Ok resp =>
      if status_code resp =? 200 then
        match json resp with
        | Raise e => Raise e
        | Ok data =>
            match map_res extract_question (default [] (items data)) with
            | Raise e => Raise e
            | Ok qs => Ok (qs, default 0 (quota_remaining data))
            end
        end
      else Ok ([], 0)
  end.

(** [x] is an id that the server returned after the events [tr0]. *)
Definition returned_since (tr0 tr : list event) (x : Z) : Prop :=
  exists new, tr = tr0 ++ new /\ x ∈ returned_ids new.

(** What the collection loop keeps true, for a run that starts from the
    collection [l0] and the trace [tr0]: the set of seen ids is the set
    of the ids of the collection; the collection is [l0] followed by
    questions of pairwise distinct ids, none of which is an id of [l0],
    all returned by the server during the run; and what the output file
    stores is a prefix of the collection that begins with [l0]. *)
Definition collector_inv (output_file : string) (l0 : list question)
    (tr0 : list event) (st : cstate) : Prop :=
  existing_ids st = list_to_set (ids (all_questions st))
  /\ exists added,
       all_questions st = l0 ++ added
       /\ NoDup (ids added)
       /\ (forall x, x ∈ ids added -> x ∉ ids l0)
       /\ (forall x, x ∈ ids added -> returned_since tr0 (trace (cworld st)) x)
       /\ (exists new, trace (cworld st) = tr0 ++ new)
       /\ (forall qs,
             files (cworld st) !! output_file = Some (JsonQuestions qs) ->
             exists a1 a2, qs = l0 ++ a1 /\ added = a1 ++ a2).

(** How the loop left the state [st1], for each way out of the [try]
    statement. *)
Definition loop_exit (E : env) mp sp ha si output_file (st : cstate)
    (path : exit_path) (st1 : cstate) : Prop :=
  match path with
  | Completed =>
      collect_loop E mp sp ha si output_file st = (Ok Exhausted, st1)
  | Stopped why =>
      collect_loop E mp sp ha si output_file st = (Ok (Broke why), st1)
  | Interrupted =>
      collect_loop E mp sp ha si output_file st = (Raise KeyboardInterrupt, st1)
  | Failed e =>
      collect_loop E mp sp ha si output_file st = (Raise e, st1)
      /\ is_Exception e = true
  end.

(** The final save, run in the state [st1]. *)
Definition final_save (E : env) (output_file : string) (st1 : cstate)
  : res (list question) * cstate :=
  match fault E (clock (cworld st1)) with
  | None =>
      (Ok (all_questions st1),
       CState (all_questions st1) (existing_ids st1)
         (advance (record (EvSave output_file (all_questions st1))
                     (put_file output_file (JsonQuestions (all_questions st1))
                        (cworld st1)))))
  | Some f =>
      (Raise (exc f),
       CState (all_questions st1) (existing_ids st1)
         (advance (if torn f then put_file output_file Unreadable (cworld st1)
                   else cworld st1)))
  end.


Definition is_ok {A} (r : res A) : bool :=
  match r with
  | Ok _ => true
  | Raise _ => false
  end.

(** The states that the steps of a quiet iteration lead to. *)
Definition after_get (E : env) (p : Z) (ha : bool) (st : cstate) : cstate :=
  CState (all_questions st) (existing_ids st)
    (advance (record (EvGetQuestions p
                        (get_questions E (clock (cworld st)) p 100 ha))
                (cworld st))).

Definition after_save (output_file : string) (st : cstate) : cstate :=
  CState (all_questions st) (existing_ids st)
    (advance (record (EvSave output_file (all_questions st))
                (put_file output_file (JsonQuestions (all_questions st))
                   (cworld st)))).

Definition after_interval (si p : Z) (output_file : string) (st : cstate) : cstate :=
  if p mod si =? 0 then after_save output_file st else st.

Definition after_sleep (st : cstate) : cstate :=
  CState (all_questions st) (existing_ids st)
    (advance (record EvSleep (cworld st))).

(** An event in short: its kind, and the page, or the number of
    questions or rows written. *)
Definition brief (ev : event) : string * Z :=
  match ev with
  | EvGetQuestions page _ => ("get", page)
  | EvGetAnswers l _ => ("answers", Z.of_nat (length l))
  | EvSave _ qs => ("save", Z.of_nat (length qs))
  | EvToCsv _ rows => ("csv", Z.of_nat (length rows))
  | EvSleep => ("sleep", 0)
  end.

(** A server with one question on each page, whose id is the number of
    the page. *)
Definition one_per_page : Z -> res (response api_question) :=
  fun p => ok_response [item p] 100.

(** A server whose first page fails with status 500, and whose other
    pages hold one question each. *)
Definition first_page_fails : Z -> res (response api_question) :=
  fun p => if p =? 1 then error_response 500 else ok_response [item p] 100.

(** A server whose second page fails with status 500, and whose other
    pages hold one question each. *)
Definition second_page_fails : Z -> res (response api_question) :=
  fun p => if p =? 2 then error_response 500 else ok_response [item p] 100.

(** A server whose page 1 is empty, whose page 2 fails with status 500
    and whose other pages hold one question each. *)
Definition look_ahead_fails : Z -> res (response api_question) :=
  fun p =>
    if p =? 1 then ok_response [] 100
    else if p =? 2 then error_response 500
    else ok_response [item p] 100.

(** A server of answers that fails with status 500 on every request
    that asks for question 1, and returns no answer to the others. *)
Definition first_batch_fails : list Z -> res (response api_answer) :=
  fun l => if bool_decide (1 ∈ l) then error_response 500
           else ok_response [] 10000.

(** A server whose page 1 holds question 1, whose page 2 is empty and
    whose page 3 holds question 9. *)
Definition gap_on_page_2 : Z -> res (response api_question) :=
  fun p =>
    if p =? 1 then ok_response [item 1] 100
    else if p =? 2 then ok_response [] 100
    else if p =? 3 then ok_response [item 9] 100
    else ok_response [] 100.

(** The record that the fetcher builds for [item qid]. *)
Definition record_of_item (qid : Z) : question :=
  {| question_id := qid; title := "t"; body := "<p>b</p>"; score := 1;
     creation_date := 2; view_count := 3; answer_count := 4;
     tags := "nlp;python" |}.

(** A world whose file [filename] stores the questions [qs]. *)
Definition world_with (filename : string) (qs : list question) : world :=
  {| clock := 0; files := {[ filename := JsonQuestions qs ]}; trace := [] |}.

(** The answers that a response of the answers endpoint carries. *)
Definition response_answers (r : res (response api_answer)) : list api_answer :=
  match r with
  | Ok resp =>
      if status_code resp =? 200 then
        match json resp with
        | Ok data => default [] (items data)
        | Raise _ => []
        end
      else []
  | Raise _ => []
  end.

Definition event_answers (ev : event) : list api_answer :=
  match ev with
  | EvGetAnswers _ r => response_answers r
  | _ => []
  end.

(** The answers that the server returned in a trace, in order. *)
Definition returned_answers (tr : list event) : list api_answer :=
  concat (map event_answers tr).

(** The answers to question [qid] among [l]. *)
Definition answers_of (qid : Z) (l : list api_answer) : list api_answer :=
  filter (fun a => a_question_id a = Some qid) l.

(** [answer.get("is_accepted", False)] *)
Definition is_accepted (a : api_answer) : bool := default false (a_is_accepted a).

Definition marked_accepted (l : list api_answer) : list api_answer :=
  filter (fun a => is_accepted a = true) l.

Definition not_accepted (l : list api_answer) : list api_answer :=
  filter (fun a => is_accepted a = false) l.

(** The [answer_data] of an answer that has an [answer_id]. *)
Definition data_of (E : env) (a : api_answer) : answer_data :=
  {| ad_answer_id := default 0 (a_answer_id a);
     ad_score := default 0 (a_score a);
     ad_user_id := owner_user_id a;
     ad_text := match clean_html E (Some (default "" (a_body a))) with
                | Ok t => t
                | Raise _ => ""
                end |}.

(** The bucket of [qid] after the answers [l], from the bucket [ob]. *)
Definition bucket_after (E : env) (qid : Z) (ob : option bucket)
    (l : list api_answer) : option bucket :=
  match answers_of qid l with
  | [] => ob
  | A =>
      let b := default empty_bucket ob in
      Some {| accepted := accepted b ++ map (data_of E) (marked_accepted A);
              others := others b ++ map (data_of E) (not_accepted A) |}
  end.

(** Scores in decreasing order. *)
Definition sorted_desc (l : list answer_data) : Prop :=
  StronglySorted (fun a b => ad_score b <= ad_score a) l.

(** The three answer columns of a row. *)
Definition top_answers (r : row) : list string :=
  [top_answer_1 r; top_answer_2 r; top_answer_3 r].

Definition answer (qid aid sc : Z) (acc : bool) : api_answer :=
  {| a_question_id := Some qid; a_answer_id := Some aid; a_score := Some sc;
     a_owner := Some {| o_user_id := Some (100 + aid) |};
     a_body := Some "<p>text</p>"; a_is_accepted := Some acc |}.

(** A server with five answers to question 1: one accepted and four
    others, of scores 5, 9, 2 and 7. *)
Definition five_answers : list Z -> res (response api_answer) :=
  fun _ =>
    ok_response [answer 1 10 3 true; answer 1 11 5 false; answer 1 12 9 false;
                 answer 1 13 2 false; answer 1 14 7 false] 10000.

(** The formatted text of the [k]-th of the answers [l], or the empty
    string. *)
Definition column (l : list answer_data) (k : nat) : string :=
  match l !! k with
  | Some a => format_answer a
  | None => ""
  end.


(** The rows that [filename] holds as they are written; an absent or
    unreadable file holds no row. *)
Definition written (w : world) (filename : string) : list row :=
  match files w !! filename with
  | Some (CsvTable rows) => rows
  | _ => []
  end.

(** The table that the program reads from [filename]: the frame that
    pandas makes of its rows.  A file that is absent, or that pandas
    does not read, gives no row. *)
Definition table (E : env) (w : world) (filename : string) : list row :=
  match files w !! filename with
  | Some (CsvTable rows) => default [] (read_table E rows)
  | _ => []
  end.

(** Reading a table keeps the ids of its rows, in order. *)
Definition reads_ids (E : env) : Prop :=
  forall rows frame, read_table E rows = Some frame -> row_ids frame = row_ids rows.

(** The starts of the batches from the [j]-th on, [cnt] of them. *)
Definition starts_from (batch_size : Z) (j cnt : nat) : list Z :=
  map (fun k : nat => Z.of_nat k * batch_size) (seq j cnt).

(** What the loop of the joiner keeps true of the output file: it
    exists if the table read at the start had rows, and a table in it is
    the content [file0] that the file had at the start, or the table read
    at the start followed by one row for each question of a prefix of
    the questions to process. *)
Definition joiner_inv (output_file : string) (file0 : option file)
    (table0 : list row) (to_process : list question) (w : world) : Prop :=
  (table0 <> [] -> is_Some (files w !! output_file))
  /\ forall rows,
       files w !! output_file = Some (CsvTable rows) ->
       files w !! output_file = file0
       \/ exists k new,
            rows = table0 ++ new /\ row_ids new = ids (take k to_process).

(** The records of the questions 1, 2 and 3. *)
Definition three_questions : list question :=
  [record_of_item 1; record_of_item 2; record_of_item 3].

(** A row of the output table for question [qid], without answers. *)
Definition row_of_item (qid : Z) : row :=
  {| row_question_id := qid; row_title := "t"; row_body := "b"; row_score := 1;
     row_view_count := 3; row_answer_count := 4; row_tags := "nlp;python";
     accepted_answer := ""; top_answer_1 := ""; top_answer_2 := "";
     top_answer_3 := "" |}.

(** A world with the questions 1, 2 and 3 in the question file and the
    rows of 1 and 2 in the output table. *)
Definition resumed_world : world :=
  {| clock := 0;
     files := {[ "nlp_questions.json" := JsonQuestions three_questions;
                 "nlp_qa_dataset.csv" := CsvTable [row_of_item 1; row_of_item 2] ]};
     trace := [] |}.

(** The same, with [NA] for the title of the first row. *)
Definition na_world : world :=
  {| clock := 0;
     files := {[ "nlp_questions.json" := JsonQuestions three_questions;
                 "nlp_qa_dataset.csv" :=
                   CsvTable [ {| row_question_id := 1; row_title := "NA";
                                 row_body := "b"; row_score := 1;
                                 row_view_count := 3; row_answer_count := 4;
                                 row_tags := "nlp;python";
                                 accepted_answer := ""; top_answer_1 := "";
                                 top_answer_2 := ""; top_answer_3 := "" |};
                              row_of_item 2 ] ]};
     trace := [] |}.

(** A server whose pages are all empty. *)
Definition empty_pages : Z -> res (response api_question) :=
  fun _ => ok_response [] 100.

(** A server with an item that lacks its id on page 2. *)
Definition broken_item_on_page_2 : Z -> res (response api_question) :=
  fun p =>
    if p =? 2 then
      ok_response [ {| q_question_id := None; q_title := Some "t";
                       q_body := None; q_score := None;
                       q_creation_date := None; q_view_count := None;
                       q_answer_count := None; q_tags := None |} ] 100
    else ok_response [item p] 100.

(** The mock server of [pages], with the user's interruption at step
    [n0]. *)
Definition interrupted_at (n0 : nat) (pages : Z -> res (response api_question))
  : env :=
  {| get_questions := fun _ page _ _ => pages page;
     get_answers := fun _ ids => no_answers ids;
     fault := fun n => if (n =? n0)%nat
                       then Some {| exc := KeyboardInterrupt; torn := false |}
                       else None;
     soup_get_text := decoding_get_text;
     read_table := blanking_read_table |}.

(* ================================================================= *)
(** ** What the further statements speak of *)

(** The server answers a page request in the same way at all times. *)
Definition steady (E : env) : Prop :=
  forall n n' page pagesize ha,
    get_questions E n page pagesize ha = get_questions E n' page pagesize ha.

(** The pages that a trace requests, in order. *)
Definition requested_pages (tr : list event) : list Z :=
  omap (fun ev => match ev with
                  | EvGetQuestions page _ => Some page
                  | _ => None
                  end) tr.

(** The lists of ids that a trace asks the answers for, in order. *)
Definition requested_batches (tr : list event) : list (list Z) :=
  omap (fun ev => match ev with
                  | EvGetAnswers l _ => Some l
                  | _ => None
                  end) tr.

(** The files that a trace writes. *)
Definition written_files (tr : list event) : list string :=
  omap (fun ev => match ev with
                  | EvSave f _ => Some f
                  | EvToCsv f _ => Some f
                  | _ => None
                  end) tr.

(** The state of the collector after the questions [qs] of a page, when
    no interruption comes: one step of the clock for each question, and
    the question appended if its id is new. *)
Fixpoint merged (qs : list question) (st : cstate) : cstate :=
  match qs with
  | [] => st
  | q :: qs' =>
      merged qs'
        (if bool_decide (question_id q ∈ existing_ids st)
         then CState (all_questions st) (existing_ids st) (advance (cworld st))
         else CState (all_questions st ++ [q])
                (existing_ids st ∪ {[question_id q]}) (advance (cworld st)))
  end.

(** A response is a low-quota signal for the answer fetcher's loop. *)
Definition stops_batches (r : res (response api_answer)) : bool :=
  match r with
  | Ok resp =>
      (status_code resp =? 200)
      && match json resp with
         | Ok data => default 0 (quota_remaining data) <? 100
         | Raise _ => false
         end
  | Raise _ => false
  end.

(** A character of a text is a whitespace other than the space. *)
Definition odd_space (c : ascii) : bool :=
  is_space c && negb (Ascii.eqb c space_char).

(** The way out of the [try] statement for each way the loop ends with
    an exception that the statement catches. *)
Definition path_of (r : res (loop_end stop_reason)) : exit_path :=
  match r with
  | Ok l => exit_of_loop l
  | Raise KeyboardInterrupt => Interrupted
  | Raise e => Failed e
  end.

(** The responses to the requests for answers in a trace, in order. *)
Definition answer_responses (tr : list event) : list (res (response api_answer)) :=
  omap (fun ev => match ev with
                  | EvGetAnswers _ r => Some r
                  | _ => None
                  end) tr.

(** The number of items that [l[:n]] keeps of a list of [len] items. *)
Definition kept (len : nat) (n : Z) : nat :=
  if n <? 0 then Z.to_nat (Z.of_nat len + n) else min (Z.to_nat n) len.

(** The events of the iteration of the loop on page [p]: they begin with
    the request for the page; they hold no write, or one write, which is
    of the output file, and then [p] is a multiple of the interval; and
    when the iteration runs to its end ([complete]), they hold that
    write if [p] is a multiple. *)
Definition page_segment (save_interval : Z) (output_file : string) (p : Z)
    (complete : bool) (seg : list event) : Prop :=
  exists resp rest,
    seg = EvGetQuestions p resp :: rest
    /\ (written_files seg = []
        \/ (written_files seg = [output_file]
            /\ save_interval <> 0 /\ p mod save_interval = 0))
    /\ (complete = true ->
        save_interval <> 0
        /\ (p mod save_interval = 0 -> written_files seg = [output_file])).

(** The pages requested before the first save of a trace, if it holds a
    save. *)
Fixpoint pages_to_first_save (tr : list event) : option (list Z) :=
  match tr with
  | [] => None
  | EvSave _ _ :: _ => Some []
  | EvGetQuestions p _ :: tr' => cons p <$> pages_to_first_save tr'
  | _ :: tr' => pages_to_first_save tr'
  end.

(** The event of a request for answers carries the response that the
    server gives to that request. *)
Definition served (E : env) (ev : event) : Prop :=
  match ev with
  | EvGetAnswers ids r => exists n, r = get_answers E n ids
  | _ => True
  end.

(* ================================================================= *)
(** ** The HTML cleaner *)

Example sub_spaces_ex :
  text (strip (sub_spaces (chars "  a   b
  c "))) = "a b c".
Proof. reflexivity. Qed.

Example sub_tags_ex :
  text (sub_tags (chars "<p>x <b>y</b> <> 1 < 2 <<i>z>")) = "x y <> 1 z>".
Proof. reflexivity. Qed.

Lemma sub_spaces_space c r :
  is_space c = true -> sub_spaces (c :: r) = space_char :: sub_spaces (skip_spaces r).
Proof. intros H. simp sub_spaces. rewrite H. reflexivity. Qed.

Lemma sub_spaces_other c r :
  is_space c = false -> sub_spaces (c :: r) = c :: sub_spaces r.
Proof. intros H. simp sub_spaces. rewrite H. reflexivity. Qed.

Lemma skip_spaces_suffix s : exists a, s = a ++ skip_spaces s.
Proof.
  induction s as [|c r [a IH]]; simpl.
  - exists []. reflexivity.
  - destruct (is_space c).
    + exists (c :: a). simpl. congruence.
    + exists []. reflexivity.
Qed.

Lemma skip_spaces_head s c r : skip_spaces s = c :: r -> is_space c = false.
Proof.
  induction s as [|x s IH]; simpl; [discriminate|].
  destruct (is_space x) eqn:Hx; [exact IH|].
  intros [= -> _]. exact Hx.
Qed.

Lemma sub_spaces_nil : sub_spaces [] = [].
Proof. reflexivity. Qed.

Lemma skip_spaces_length s : (length (skip_spaces s) <= length s)%nat.
Proof.
  induction s as [|c r IH]; simpl; [lia|]. destruct (is_space c); simpl; lia.
Qed.

(** Induction along the recursion of [sub_spaces]. *)
Lemma sub_spaces_induction (P : list ascii -> Prop) :
  P [] ->
  (forall c r, is_space c = true -> P (skip_spaces r) -> P (c :: r)) ->
  (forall c r, is_space c = false -> P r -> P (c :: r)) ->
  forall s, P s.
Proof.
  intros Hnil Hsp Hot s.
  induction s as [s IH] using (induction_ltof1 _ (@length ascii)).
  unfold ltof in IH. destruct s as [|c r]; [exact Hnil|].
  destruct (is_space c) eqn:Hc.
  - apply Hsp; [exact Hc|]. apply IH. pose proof (skip_spaces_length r). simpl. lia.
  - apply Hot; [exact Hc|]. apply IH. simpl. lia.
Qed.

Lemma sub_spaces_elem x s : x ∈ sub_spaces s -> x = space_char \/ x ∈ s.
Proof.
  induction s as [|c r Hc IH|c r Hc IH] using sub_spaces_induction.
  - rewrite sub_spaces_nil. intros H. inversion H.
  - rewrite (sub_spaces_space _ _ Hc), elem_of_cons. intros [->|Hx]; [left; reflexivity|].
    destruct (IH Hx) as [->|Hin]; [left; reflexivity|right].
    destruct (skip_spaces_suffix r) as [a Ha].
    rewrite elem_of_cons. right. rewrite Ha, elem_of_app. right. exact Hin.
  - rewrite (sub_spaces_other _ _ Hc), !elem_of_cons.
    intros [->|Hx]; [right; left; reflexivity|].
    destruct (IH Hx) as [->|Hin]; [left; reflexivity|right; right; exact Hin].
Qed.

Lemma sub_spaces_no_run s : ~ ws_run (sub_spaces s).
Proof.
  intros (pre & a & b & post & Heq & Ha & Hb). revert pre Heq.
  induction s as [|c r Hc IH|c r Hc IH] using sub_spaces_induction; intros pre Hpre.
  - rewrite sub_spaces_nil in Hpre. destruct pre; discriminate.
  - rewrite (sub_spaces_space _ _ Hc) in Hpre.
    destruct pre as [|x pre]; simpl in Hpre.
    + injection Hpre as _ Hrest.
      destruct (skip_spaces r) as [|y t] eqn:Hskip.
      * rewrite sub_spaces_nil in Hrest. discriminate.
      * pose proof (skip_spaces_head _ _ _ Hskip) as Hy.
        rewrite (sub_spaces_other _ _ Hy) in Hrest.
        injection Hrest as -> _. congruence.
    + injection Hpre as _ Hrest. eapply IH; eassumption.
  - rewrite (sub_spaces_other _ _ Hc) in Hpre.
    destruct pre as [|x pre]; simpl in Hpre.
    + injection Hpre as -> _. congruence.
    + injection Hpre as _ Hrest. eapply IH; eassumption.
Qed.

Lemma strip_infix s : exists a b, s = a ++ strip s ++ b.
Proof.
  unfold strip.
  destruct (skip_spaces_suffix s) as [a Ha].
  destruct (skip_spaces_suffix (rev (skip_spaces s))) as [b Hb].
  exists a, (rev b).
  rewrite <- rev_app_distr, <- Hb, rev_involutive. exact Ha.
Qed.

Lemma ws_run_infix a s b : ws_run s -> ws_run (a ++ s ++ b).
Proof.
  intros (pre & x & y & post & -> & Hx & Hy).
  exists (a ++ pre), x, y, (post ++ b). split; [|auto].
  rewrite <- !app_assoc. reflexivity.
Qed.

Lemma contains_tag_infix a s b : contains_tag s -> contains_tag (a ++ s ++ b).
Proof.
  intros (pre & mid & post & -> & Hmid & Hgt).
  exists (a ++ pre), mid, (post ++ b). split; [|auto].
  rewrite <- !app_assoc. simpl. rewrite <- !app_assoc. reflexivity.
Qed.

(** A tag is a [<] whose next character is not [>], with a [>] further on. *)
Lemma contains_tag_iff s :
  contains_tag s <->
  exists pre c rest,
    s = pre ++ lt_char :: c :: rest /\ c <> gt_char /\ (gt_char ∈ rest).
Proof.
  split.
  - intros (pre & mid & post & -> & Hmid & Hgt).
    destruct mid as [|c mid]; [congruence|].
    exists pre, c, (mid ++ gt_char :: post). split; [reflexivity|]. split.
    + intros ->. apply Hgt. left.
    + rewrite elem_of_app. right. left.
  - intros (pre & c & rest & -> & Hc & Hin).
    apply list_elem_of_split_l in Hin as (l1 & l2 & -> & Hl1).
    exists pre, (c :: l1), l2. split; [reflexivity|]. split; [discriminate|].
    rewrite elem_of_cons. intros [Heq|Hin]; [congruence|contradiction].
Qed.

Lemma is_space_gt : is_space gt_char = false.
Proof. reflexivity. Qed.

Lemma is_space_lt : is_space lt_char = false.
Proof. reflexivity. Qed.

Lemma sub_spaces_tag s : contains_tag (sub_spaces s) -> contains_tag s.
Proof.
  rewrite !contains_tag_iff.
  intros (pre & c0 & rest & Heq & Hc0 & Hin). revert pre Heq.
  induction s as [|c r Hc IH|c r Hc IH] using sub_spaces_induction; intros pre Hpre.
  - rewrite sub_spaces_nil in Hpre. destruct pre; discriminate.
  - rewrite (sub_spaces_space _ _ Hc) in Hpre.
    destruct pre as [|x pre]; simpl in Hpre; [discriminate|].
    injection Hpre as _ Hrest.
    destruct (IH pre Hrest) as (pre' & c' & rest' & Hs & Hc' & Hin').
    destruct (skip_spaces_suffix r) as [a Ha].
    exists (c :: a ++ pre'), c', rest'. split; [|auto].
    simpl. rewrite <- app_assoc, <- Hs, <- Ha. reflexivity.
  - rewrite (sub_spaces_other _ _ Hc) in Hpre.
    destruct pre as [|x pre]; simpl in Hpre.
    + injection Hpre as -> Hrest.
      destruct r as [|y r']; [rewrite sub_spaces_nil in Hrest; discriminate|].
      exists [], y. destruct (is_space y) eqn:Hy.
      * rewrite (sub_spaces_space _ _ Hy) in Hrest. injection Hrest as _ Hrest.
        exists r'. split; [reflexivity|]. split.
        -- intros ->. rewrite is_space_gt in Hy. discriminate.
        -- subst rest. apply sub_spaces_elem in Hin as [Hsp|Hin]; [discriminate|].
           destruct (skip_spaces_suffix r') as [a Ha]. rewrite Ha, elem_of_app. auto.
      * rewrite (sub_spaces_other _ _ Hy) in Hrest. injection Hrest as -> Hrest.
        exists r'. split; [reflexivity|]. split; [exact Hc0|].
        subst rest. apply sub_spaces_elem in Hin as [Hsp|Hin]; [discriminate|exact Hin].
    + injection Hpre as -> Hrest.
      destruct (IH pre Hrest) as (pre' & c' & rest' & Hs & Hc' & Hin').
      exists (x :: pre'), c', rest'. split; [|auto]. simpl. congruence.
Qed.

Lemma strip_tag s : contains_tag (strip s) -> contains_tag s.
Proof.
  intros H. destruct (strip_infix s) as (a & b & Hs). rewrite Hs.
  apply contains_tag_infix. exact H.
Qed.

Lemma strip_no_run s : ~ ws_run s -> ~ ws_run (strip s).
Proof.
  intros Hs H. apply Hs. destruct (strip_infix s) as (a & b & Heq). rewrite Heq.
  apply ws_run_infix. exact H.
Qed.

Lemma span_not_gt_spec s :
  s = fst (span_not_gt s) ++ snd (span_not_gt s)
  /\ (gt_char ∉ fst (span_not_gt s))
  /\ (snd (span_not_gt s) = [] \/ exists t, snd (span_not_gt s) = gt_char :: t).
Proof.
  induction s as [|c r (IH1 & IH2 & IH3)]; simpl.
  - split; [reflexivity|]. split; [apply not_elem_of_nil|]. left. reflexivity.
  - destruct (Ascii.eqb c gt_char) eqn:Hc; simpl.
    + apply Ascii.eqb_eq in Hc as ->.
      split; [reflexivity|]. split; [apply not_elem_of_nil|]. right. eauto.
    + apply Ascii.eqb_neq in Hc.
      destruct (span_not_gt r) as [m t]; simpl in *.
      split; [congruence|]. split; [|exact IH3].
      rewrite elem_of_cons. intros [Heq|Hin]; [congruence|contradiction].
Qed.

Lemma sub_tags_nil : sub_tags [] = [].
Proof. reflexivity. Qed.

Lemma sub_tags_match c r t :
  match_tag (c :: r) = Some t -> sub_tags (c :: r) = sub_tags t.
Proof. intros H. funelim (sub_tags (c :: r)); congruence. Qed.

Lemma sub_tags_no_match c r :
  match_tag (c :: r) = None -> sub_tags (c :: r) = c :: sub_tags r.
Proof. intros H. funelim (sub_tags (c :: r)); congruence. Qed.

(** What a match of the pattern at the start of the text is. *)
Lemma match_tag_Some s t :
  match_tag s = Some t ->
  exists mid, s = lt_char :: mid ++ gt_char :: t /\ mid <> [] /\ (gt_char ∉ mid).
Proof.
  destruct s as [|c r]; simpl; [discriminate|].
  destruct (Ascii.eqb c lt_char) eqn:Hc; [|discriminate].
  apply Ascii.eqb_eq in Hc as ->.
  destruct (span_not_gt_spec r) as (H1 & H2 & H3).
  destruct (span_not_gt r) as [[|m ms] [|g t']]; try discriminate.
  intros [= <-]. simpl in *. destruct H3 as [?|[t'' [= -> ->]]]; [discriminate|].
  exists (m :: ms). split; [rewrite H1; reflexivity|]. split; [discriminate|exact H2].
Qed.

Lemma match_tag_shorter s t : match_tag s = Some t -> (length t < length s)%nat.
Proof.
  intros (mid & -> & _ & _)%match_tag_Some. simpl. rewrite length_app. simpl. lia.
Qed.

(** Where the pattern does not match at a [<]: the next character is
    [>], or there is no [>] at all in what follows. *)
Lemma match_tag_None r :
  match_tag (lt_char :: r) = None ->
  r = [] \/ (exists r', r = gt_char :: r') \/ gt_char ∉ r.
Proof.
  simpl. destruct (span_not_gt_spec r) as (H1 & H2 & H3).
  destruct (span_not_gt r) as [[|m ms] [|g t']]; simpl in *.
  - intros _. left. exact H1.
  - intros _. right. left. destruct H3 as [?|[t'' [= -> ->]]]; [discriminate|]. eauto.
  - intros _. right. right. rewrite H1, app_nil_r. exact H2.
  - discriminate.
Qed.

Lemma match_tag_other c r : c <> lt_char -> match_tag (c :: r) = None.
Proof. intros H. simpl. apply Ascii.eqb_neq in H. rewrite H. reflexivity. Qed.

(** Induction along the recursion of [sub_tags]. *)
Lemma sub_tags_induction (P : list ascii -> Prop) :
  P [] ->
  (forall c r t, match_tag (c :: r) = Some t -> P t -> P (c :: r)) ->
  (forall c r, match_tag (c :: r) = None -> P r -> P (c :: r)) ->
  forall s, P s.
Proof.
  intros Hnil Hm Hn s.
  induction s as [s IH] using (induction_ltof1 _ (@length ascii)).
  unfold ltof in IH. destruct s as [|c r]; [exact Hnil|].
  destruct (match_tag (c :: r)) as [t|] eqn:Ht.
  - apply (Hm _ _ _ Ht). apply IH. apply match_tag_shorter. exact Ht.
  - apply Hn; [exact Ht|]. apply IH. simpl. lia.
Qed.

Lemma sub_tags_elem x s : x ∈ sub_tags s -> x ∈ s.
Proof.
  induction s as [|c r t Ht IH|c r Ht IH] using sub_tags_induction.
  - rewrite sub_tags_nil. intros H. exact H.
  - rewrite (sub_tags_match _ _ _ Ht). intros Hx.
    apply match_tag_Some in Ht as (mid & -> & _ & _).
    rewrite elem_of_cons, elem_of_app, elem_of_cons. auto.
  - rewrite (sub_tags_no_match _ _ Ht), !elem_of_cons. intros [->|Hx]; auto.
Qed.

(** The regular expression leaves no tag behind, although it makes one
    pass only: a [<] that is kept is followed by [>] or by no [>]. *)
Lemma sub_tags_no_tag s : ~ contains_tag (sub_tags s).
Proof.
  rewrite contains_tag_iff.
  intros (pre & c0 & rest & Heq & Hc0 & Hin). revert pre Heq.
  induction s as [|c r t Ht IH|c r Ht IH] using sub_tags_induction; intros pre Hpre.
  - rewrite sub_tags_nil in Hpre. destruct pre; discriminate.
  - rewrite (sub_tags_match _ _ _ Ht) in Hpre. eapply IH; eassumption.
  - rewrite (sub_tags_no_match _ _ Ht) in Hpre.
    destruct pre as [|x pre]; simpl in Hpre.
    + injection Hpre as -> Hrest.
      assert (Hr : gt_char ∈ r).
      { apply sub_tags_elem. rewrite Hrest. right. exact Hin. }
      destruct (match_tag_None _ Ht) as [->|[[r' ->]|Hno]].
      * inversion Hr.
      * assert (Hgt : match_tag (gt_char :: r') = None)
          by (apply match_tag_other; discriminate).
        rewrite (sub_tags_no_match _ _ Hgt) in Hrest.
        injection Hrest as <- _. congruence.
      * contradiction.
    + injection Hpre as _ Hrest. eapply IH; eassumption.
Qed.

Lemma chars_text l : chars (text l) = l.
Proof. apply list_ascii_of_string_of_list_ascii. Qed.

(** What the cleaner returns. *)
Lemma clean_html_cases (E : env) (html_text : option string) :
  (clean_html E html_text = Ok ""
   /\ (html_text = None \/ html_text = Some ""))
  \/ (exists s t, html_text = Some s /\ s <> "" /\ soup_get_text E s = Ok t
      /\ clean_html E html_text = Ok (text (strip (sub_spaces (chars t)))))
  \/ (exists s e, html_text = Some s /\ s <> "" /\ soup_get_text E s = Raise e
      /\ clean_html E html_text
         = Ok (text (strip (sub_spaces (sub_tags (chars s)))))).
Proof.
  destruct html_text as [s|]; simpl; [|left; auto].
  destruct (String.eqb s "") eqn:Hs.
  - apply String.eqb_eq in Hs as ->. left. auto.
  - apply String.eqb_neq in Hs. right.
    destruct (soup_get_text E s) as [t|e] eqn:Ht; simpl.
    + left. exists s, t. auto.
    + right. exists s, e. auto.
Qed.

(** C7 as stated fails: the parser decodes character references, and the
    text it hands back is not searched for tags, so the output of the
    cleaner on [&lt;b&gt;bold&lt;/b&gt;] holds the tags [<b>] and [</b>]. *)
Lemma clean_html_keeps_decoded_tag :
  clean_html (mock_env (fun _ => Raise ConnectionError) no_answers)
    (Some "&lt;b&gt;bold&lt;/b&gt;") = Ok "<b>bold</b>"
  /\ contains_tag (chars "<b>bold</b>").
Proof.
  split; [reflexivity|].
  exists [], (chars "b"), (chars "bold</b>"). split; [reflexivity|].
  split; [discriminate|].
  intros H. apply list_elem_of_In in H. simpl in H.
  destruct H as [H|[]]. discriminate.
Qed.

(** C7, amended: on every input the cleaner returns, without raising, a
    text with no two whitespace characters in a row; the text is empty
    when the input is empty or absent; and a tag in the output can only
    come out of the parser's own text: on the fallback path, where the
    regular expression strips the tags, there is none. *)
Theorem clean_html_contract (E : env) (html_text : option string) :
  exists out,
    clean_html E html_text = Ok out
    /\ ~ ws_run (chars out)
    /\ (html_text = None \/ html_text = Some "" -> out = "")
    /\ (contains_tag (chars out) ->
        exists s t,
          html_text = Some s /\ soup_get_text E s = Ok t
          /\ contains_tag (chars t))
    /\ (forall s e,
          html_text = Some s -> soup_get_text E s = Raise e ->
          out = text (strip (sub_spaces (sub_tags (chars s))))
          /\ ~ contains_tag (chars out)).
Proof.
  destruct (clean_html_cases E html_text)
    as [[Hc Hin]|[(s & t & -> & Hs & Ht & Hc)|(s & e & -> & Hs & Ht & Hc)]].
  - exists "". split; [exact Hc|]. split.
    { intros (pre & a & b & post & Heq & _). destruct pre; discriminate. }
    split; [reflexivity|]. split.
    + intros (pre & mid & post & Heq & _). destruct pre; discriminate.
    + intros s e -> Hr. destruct Hin as [?|[= ->]]; [discriminate|].
      split; [reflexivity|].
      intros (pre & mid & post & Heq & _). destruct pre; discriminate.
  - eexists. split; [exact Hc|]. rewrite chars_text. split.
    { apply strip_no_run, sub_spaces_no_run. }
    split; [intros [?|[= Heq]]; [discriminate|contradiction]|]. split.
    + intros Htag. exists s, t. split; [reflexivity|]. split; [exact Ht|].
      apply sub_spaces_tag, strip_tag. exact Htag.
    + intros s' e [= <-] Hr. congruence.
  - eexists. split; [exact Hc|]. rewrite chars_text. split.
    { apply strip_no_run, sub_spaces_no_run. }
    split; [intros [?|[= Heq]]; [discriminate|contradiction]|].
    assert (Hno : ~ contains_tag (strip (sub_spaces (sub_tags (chars s))))).
    { intros Htag. apply strip_tag, sub_spaces_tag in Htag.
      exact (sub_tags_no_tag _ Htag). }
    split.
    + intros Htag. contradiction.
    + intros s' e' [= <-] _. split; [reflexivity|exact Hno].
Qed.

(* ================================================================= *)
(** ** Rules for the assertions *)

Section Rules.

Context {S : Type}.
Implicit Types (P : S -> Prop) (X : exn -> S -> Prop).

Lemma hoare_ret {A} P (a : A) (Q : A -> S -> Prop) X :
  (forall s, P s -> Q a s) -> hoare P (ret a) Q X.
Proof. intros H s Hs. simpl. auto. Qed.

Lemma hoare_throw {A} P e (Q : A -> S -> Prop) X :
  (forall s, P s -> X e s) -> hoare P (throw e) Q X.
Proof. intros H s Hs. simpl. auto. Qed.

Lemma hoare_lift_res {A} P (r : res A) (Q : A -> S -> Prop) X :
  (forall s, P s -> match r with Ok a => Q a s | Raise e => X e s end) ->
  hoare P (lift_res r) Q X.
Proof. intros H s Hs. specialize (H s Hs). unfold lift_res. destruct r; exact H. Qed.

Lemma hoare_bind {A B} P (m : M S A) (k : A -> M S B) (R : A -> S -> Prop)
    (Q : B -> S -> Prop) X :
  hoare P m R X -> (forall a, hoare (R a) (k a) Q X) -> hoare P (bind m k) Q X.
Proof.
  intros Hm Hk s Hs. unfold bind. specialize (Hm s Hs).
  destruct (m s) as [[a|e] s']; [apply Hk; exact Hm|exact Hm].
Qed.

Lemma hoare_conseq {A} P P' (m : M S A) (Q Q' : A -> S -> Prop) X X' :
  hoare P' m Q' X' ->
  (forall s, P s -> P' s) ->
  (forall a s, Q' a s -> Q a s) ->
  (forall e s, X' e s -> X e s) ->
  hoare P m Q X.
Proof.
  intros Hm HP HQ HX s Hs. specialize (Hm s (HP s Hs)).
  destruct (m s) as [[a|e] s']; auto.
Qed.

Lemma hoare_try_except {A} P (m : M S A) handler (Q : A -> S -> Prop) X X' :
  hoare P m Q X' ->
  (forall e, match handler e with
             | Some h => hoare (X' e) h Q X
             | None => forall s, X' e s -> X e s
             end) ->
  hoare P (try_except m handler) Q X.
Proof.
  intros Hm Hh s Hs. unfold try_except. specialize (Hm s Hs).
  destruct (m s) as [[a|e] s']; [exact Hm|].
  specialize (Hh e). destruct (handler e) as [h|]; [apply Hh; exact Hm|auto].
Qed.

(** A loop keeps what each run of its body keeps. *)
Lemma hoare_for_each {A R} (I : S -> Prop) (l : list A) (body : A -> M S (ctl R)) X :
  (forall x, x ∈ l -> hoare I (body x) (fun _ => I) X) ->
  hoare I (for_each l body) (fun _ => I) X.
Proof.
  induction l as [|x l IH]; intros Hbody; simpl.
  - apply hoare_ret. auto.
  - eapply hoare_bind; [apply Hbody; left|].
    intros [|why]; [|apply hoare_ret; auto].
    apply IH. intros y Hy. apply Hbody. right. exact Hy.
Qed.

End Rules.

(** An operation on the outside, seen from the collector. *)
Lemma hoare_outside {A} (P : cstate -> Prop) (m : M world A)
    (Q : A -> cstate -> Prop) X :
  (forall st, P st ->
     match m (cworld st) with
     | (Ok a, w) => Q a (CState (all_questions st) (existing_ids st) w)
     | (Raise e, w) => X e (CState (all_questions st) (existing_ids st) w)
     end) ->
  hoare P (outside m) Q X.
Proof.
  intros H st Hst. specialize (H st Hst). unfold outside.
  destruct (m (cworld st)) as [[a|e] w]; exact H.
Qed.

(* ================================================================= *)
(** ** The question fetcher *)

(** The fetcher makes one request, records it, and returns what
    [page_result] makes of the response. *)
Lemma fetch_nlp_questions_eq (E : env) page pagesize ha w :
  fetch_nlp_questions E page pagesize ha w
  = (page_result (get_questions E (clock w) page pagesize ha),
     advance (record (EvGetQuestions page
                        (get_questions E (clock w) page pagesize ha)) w)).
Proof.
  unfold fetch_nlp_questions, bind, requests_get_questions, page_result, lift_res, ret.
  destruct (get_questions E (clock w) page pagesize ha) as [resp|e]; [|reflexivity].
  destruct (status_code resp =? 200); [|reflexivity].
  destruct (json resp) as [data|e]; [|reflexivity].
  destruct (map_res extract_question (default [] (items data))); reflexivity.
Qed.

Lemma map_res_extract_ids l qs :
  map_res extract_question l = Ok qs -> ids qs = omap q_question_id l.
Proof.
  revert qs. induction l as [|q l IH]; intros qs; simpl.
  - intros [= <-]. reflexivity.
  - unfold extract_question at 1.
    destruct (q_question_id q) as [qid|]; [|discriminate]. simpl.
    destruct (map_res extract_question l) as [ys|e]; [|discriminate].
    intros [= <-]. simpl. f_equal. apply IH. reflexivity.
Qed.

Lemma map_res_extract_length l qs :
  map_res extract_question l = Ok qs -> length qs = length l.
Proof.
  revert qs. induction l as [|q l IH]; intros qs; simpl.
  - intros [= <-]. reflexivity.
  - destruct (extract_question q) as [y|e]; [|discriminate].
    destruct (map_res extract_question l) as [ys|e]; [|discriminate].
    intros [= <-]. simpl. f_equal. apply IH. reflexivity.
Qed.

Lemma map_res_extract_total l :
  Forall (fun q => q_question_id q <> None) l ->
  exists qs, map_res extract_question l = Ok qs.
Proof.
  induction 1 as [|q l Hq _ [qs IH]]; simpl; [eauto|].
  unfold extract_question at 1.
  destruct (q_question_id q) as [qid|]; [|congruence]. rewrite IH. eauto.
Qed.

Lemma page_result_ids r qs quota x :
  page_result r = Ok (qs, quota) -> x ∈ ids qs -> x ∈ response_ids r.
Proof.
  unfold page_result, response_ids. destruct r as [resp|e]; [|discriminate].
  destruct (status_code resp =? 200).
  - destruct (json resp) as [data|e]; [|discriminate].
    destruct (map_res extract_question (default [] (items data))) as [l|e] eqn:Hl;
      [|discriminate].
    intros [= <- _] Hx. rewrite (map_res_extract_ids _ _ Hl) in Hx.
    apply elem_of_list_to_set. exact Hx.
  - intros [= <- _] Hx. inversion Hx.
Qed.

(** A status other than 200: an empty list and a zero quota, no raise. *)
Lemma page_result_error_status resp :
  status_code resp <> 200 -> page_result (Ok resp) = Ok ([], 0).
Proof.
  intros H. unfold page_result. apply Z.eqb_neq in H. rewrite H. reflexivity.
Qed.

(* ================================================================= *)
(** ** The collector: what the loop keeps *)

Lemma returned_ids_app tr1 tr2 :
  returned_ids (tr1 ++ tr2) = returned_ids tr1 ∪ returned_ids tr2.
Proof.
  unfold returned_ids. rewrite map_app. apply leibniz_equiv, union_list_app.
Qed.

Lemma returned_since_more tr0 tr ev x :
  returned_since tr0 tr x -> returned_since tr0 (tr ++ [ev]) x.
Proof.
  intros (new & -> & Hx). exists (new ++ [ev]). split; [symmetry; apply app_assoc|].
  rewrite returned_ids_app. set_solver.
Qed.

Lemma returned_since_event tr0 tr ev x :
  (exists new, tr = tr0 ++ new) -> x ∈ event_ids ev ->
  returned_since tr0 (tr ++ [ev]) x.
Proof.
  intros [new ->] Hx. exists (new ++ [ev]). split; [symmetry; apply app_assoc|].
  rewrite returned_ids_app. unfold returned_ids at 2. simpl. set_solver.
Qed.

Section Collector.

Context (E : env) (output_file : string) (l0 : list question) (tr0 : list event).

Local Abbreviation inv := (collector_inv output_file l0 tr0).

(** The invariant does not read the clock. *)
Lemma inv_advance all ex w :
  inv (CState all ex w) -> inv (CState all ex (advance w)).
Proof. intros H. exact H. Qed.

(** An event that does not touch the files keeps the invariant. *)
Lemma inv_record all ex w ev :
  inv (CState all ex w) -> inv (CState all ex (record ev w)).
Proof.
  intros (H1 & added & H2 & H3 & H4 & H5 & [new H6] & H7).
  split; [exact H1|]. exists added. simpl in *.
  repeat split; try assumption.
  - intros x Hx. apply returned_since_more. auto.
  - exists (new ++ [ev]). rewrite H6. symmetry. apply app_assoc.
Qed.

Lemma inv_unreadable all ex w :
  inv (CState all ex w) -> inv (CState all ex (put_file output_file Unreadable w)).
Proof.
  intros (H1 & added & H2 & H3 & H4 & H5 & H6 & H7).
  split; [exact H1|]. exists added. simpl in *.
  repeat split; try assumption.
  intros qs. rewrite lookup_insert_eq. discriminate.
Qed.

Lemma inv_save all ex w :
  inv (CState all ex w) ->
  inv (CState all ex (put_file output_file (JsonQuestions all) w)).
Proof.
  intros (H1 & added & H2 & H3 & H4 & H5 & H6 & H7).
  split; [exact H1|]. exists added. simpl in *.
  repeat split; try assumption.
  intros qs. rewrite lookup_insert_eq. intros [= <-].
  exists added, []. rewrite app_nil_r. auto.
Qed.

Lemma hoare_checkpoint :
  hoare inv (outside (checkpoint E)) (fun _ => inv) (fun _ => inv).
Proof.
  apply hoare_outside. intros [all ex w] H. unfold checkpoint. simpl.
  destruct (fault E (clock w)); apply inv_advance; exact H.
Qed.

Lemma hoare_sleep :
  hoare inv (outside (sleep E)) (fun _ => inv) (fun _ => inv).
Proof.
  apply hoare_outside. intros [all ex w] H. unfold sleep. simpl.
  destruct (fault E (clock w)); apply inv_advance; [|apply inv_record]; exact H.
Qed.

Lemma hoare_save :
  hoare inv
    (let* qs := get_all_questions in outside (save_questions E qs output_file))
    (fun _ => inv) (fun _ => inv).
Proof.
  intros [all ex w] H. unfold bind, get_all_questions, outside, save_questions,
    write_file. simpl.
  destruct (fault E (clock w)) as [f|]; simpl.
  - apply inv_advance. destruct (torn f); [apply inv_unreadable|]; exact H.
  - apply inv_advance, inv_record, inv_save. exact H.
Qed.

(** The questions of a fetched page have ids that the server returned. *)
Lemma hoare_fetch page ha :
  hoare inv (outside (fetch_nlp_questions E page 100 ha))
    (fun '(qs, _) st =>
       inv st /\ forall x, x ∈ ids qs -> returned_since tr0 (trace (cworld st)) x)
    (fun _ => inv).
Proof.
  apply hoare_outside. intros [all ex w] H. simpl.
  rewrite fetch_nlp_questions_eq.
  destruct (page_result _) as [[qs quota]|e] eqn:Hr.
  - split; [apply inv_advance, inv_record; exact H|].
    intros x Hx. simpl. apply returned_since_event.
    + destruct H as (_ & added & _ & _ & _ & _ & Hnew & _). exact Hnew.
    + simpl. eapply page_result_ids; eassumption.
  - apply inv_advance, inv_record. exact H.
Qed.

Lemma hoare_add_question q n :
  hoare (fun st => inv st /\ returned_since tr0 (trace (cworld st)) (question_id q))
    (add_question q n) (fun _ => inv) (fun _ => inv).
Proof.
  intros [all ex w] [(H1 & added & H2 & H3 & H4 & H5 & H6 & H7) Hq].
  unfold add_question. simpl in *.
  case_bool_decide as Hin; simpl.
  - split; [exact H1|]. exists added. auto 10.
  - assert (Hnot : question_id q ∉ ids all).
    { intros Hx. apply Hin. rewrite H1. apply elem_of_list_to_set. exact Hx. }
    rewrite H2 in Hnot. unfold ids in Hnot. rewrite map_app, elem_of_app in Hnot.
    split.
    + simpl. unfold ids. rewrite map_app, list_to_set_app_L. simpl. rewrite H1.
      rewrite union_empty_r_L. reflexivity.
    + exists (added ++ [q]). simpl. unfold ids in *. rewrite !map_app. simpl.
      split; [rewrite H2, <- app_assoc; reflexivity|].
      split. { apply NoDup_app. split; [exact H3|]. split.
               - intros x Hx. rewrite list_elem_of_singleton. intros ->. tauto.
               - apply NoDup_singleton. }
      split. { intros x. rewrite elem_of_app, list_elem_of_singleton.
               intros [Hx| ->]; [auto|tauto]. }
      split. { intros x. rewrite elem_of_app, list_elem_of_singleton.
               intros [Hx| ->]; [auto|exact Hq]. }
      split; [exact H6|].
      intros qs Hqs. destruct (H7 qs Hqs) as (a1 & a2 & -> & ->).
      exists a1, (a2 ++ [q]). split; [reflexivity|rewrite <- app_assoc; reflexivity].
Qed.

Lemma hoare_add_new_questions qs n :
  hoare (fun st => inv st
                   /\ forall x, x ∈ ids qs -> returned_since tr0 (trace (cworld st)) x)
    (add_new_questions E qs n) (fun _ => inv) (fun _ => inv).
Proof.
  revert n. induction qs as [|q qs IH]; intros n; simpl.
  - apply hoare_ret. tauto.
  - eapply hoare_bind with
      (R := fun _ st => inv st
              /\ forall x, x ∈ ids (q :: qs) ->
                           returned_since tr0 (trace (cworld st)) x).
    { apply hoare_outside. intros [all ex w] [H Hret]. unfold checkpoint. simpl in *.
      destruct (fault E (clock w)); [apply inv_advance; exact H|].
      split; [apply inv_advance; exact H|exact Hret]. }
    intros ?.
    eapply hoare_bind with
      (R := fun _ st => inv st
              /\ forall x, x ∈ ids qs -> returned_since tr0 (trace (cworld st)) x).
    2: { intros n'. apply IH. }
    intros [all ex w] [H Hret].
    pose proof (hoare_add_question q n (CState all ex w)) as Hadd.
    assert (Hq : returned_since tr0 (trace w) (question_id q)).
    { apply Hret. simpl. left. }
    specialize (Hadd (conj H Hq)).
    unfold add_question in *. simpl in *.
    case_bool_decide; simpl in *.
    + split; [exact Hadd|]. intros x Hx. apply Hret. right. exact Hx.
    + split; [exact Hadd|]. intros x Hx. apply Hret. right. exact Hx.
Qed.

Lemma hoare_collect_page ha si page :
  hoare inv (collect_page E ha si output_file page) (fun _ => inv) (fun _ => inv).
Proof.
  unfold collect_page.
  eapply hoare_bind; [apply hoare_fetch|]. intros [qs quota].
  eapply hoare_bind; [apply hoare_add_new_questions|]. intros new_count.
  eapply hoare_bind with (R := fun _ => inv).
  { destruct (si =? 0); [apply hoare_throw; auto|].
    destruct (page mod si =? 0); [apply hoare_save|apply hoare_ret; auto]. }
  intros ?. destruct (quota <? 5); [apply hoare_ret; auto|].
  eapply hoare_bind with (R := fun _ => inv).
  { destruct (length qs =? 0)%nat; [|apply hoare_ret; auto].
    eapply hoare_bind; [apply hoare_fetch|]. intros [nq x].
    apply hoare_ret. tauto. }
  intros [|]; [apply hoare_ret; auto|].
  eapply hoare_bind; [apply hoare_sleep|]. intros ?. apply hoare_ret. auto.
Qed.

Lemma hoare_collect_from mp sp ha si :
  hoare inv (collect_from E mp sp ha si output_file) (fun _ => inv) (fun _ => inv).
Proof.
  unfold collect_from.
  eapply hoare_bind with (R := fun _ => inv).
  { unfold collect_try. eapply hoare_try_except with (X' := fun _ => inv).
    - eapply hoare_bind with (R := fun _ => inv).
      + unfold collect_loop. apply hoare_for_each. intros p _.
        apply hoare_collect_page.
      + intros r. apply hoare_ret. auto.
    - intros e. destruct e; simpl; try (apply hoare_ret; auto; fail); auto. }
  intros ? [all ex w] H.
  unfold bind, get_all_questions, outside, save_questions, write_file. simpl.
  destruct (fault E (clock w)) as [f|]; simpl.
  - apply inv_advance. destruct (torn f); [apply inv_unreadable|]; exact H.
  - apply inv_advance, inv_record, inv_save. exact H.
Qed.

End Collector.

(* ================================================================= *)
(** ** The question fetcher: the extracted fields *)

(** C8 as stated fails: an item without [question_id] makes the
    subscript [q["question_id"]] raise [KeyError], and the fetcher
    raises with it: no record is built for the page. *)
Lemma extract_question_without_id :
  let q := {| q_question_id := None; q_title := Some "t"; q_body := None;
              q_score := Some 3; q_creation_date := None; q_view_count := None;
              q_answer_count := None; q_tags := None |} in
  extract_question q = Raise (KeyError "question_id")
  /\ fst (fetch_nlp_questions
            (mock_env (fun _ => ok_response [item 1; q] 100) no_answers)
            1 100 true empty_world)
     = Raise (KeyError "question_id").
Proof. split; reflexivity. Qed.

(** C8, amended: for every item that carries a [question_id], the
    record is built without raising; each other field is the item's, or
    an empty string, a zero or the join of no tags when the item lacks
    it.  A page all of whose items carry an id gives one record per
    item. *)
Theorem extract_question_defaults (q : api_question) (qid : Z) :
  q_question_id q = Some qid ->
  exists r,
    extract_question q = Ok r
    /\ question_id r = qid
    /\ title r = match q_title q with Some t => t | None => "" end
    /\ body r = match q_body q with Some b => b | None => "" end
    /\ score r = match q_score q with Some n => n | None => 0 end
    /\ creation_date r = match q_creation_date q with Some n => n | None => 0 end
    /\ view_count r = match q_view_count q with Some n => n | None => 0 end
    /\ answer_count r = match q_answer_count q with Some n => n | None => 0 end
    /\ tags r = match q_tags q with Some l => String.concat ";" l | None => "" end
    /\ forall l quota,
         Forall (fun q' => q_question_id q' <> None) l ->
         exists qs,
           page_result (ok_response (q :: l) quota) = Ok (qs, quota)
           /\ length qs = S (length l).
Proof.
  intros Hid. unfold extract_question. rewrite Hid. eexists.
  split; [reflexivity|]. simpl.
  repeat (split; [destruct q as [? [] [] [] [] [] [] []]; reflexivity|]).
  intros l quota Hl.
  assert (Hall : Forall (fun q' => q_question_id q' <> None) (q :: l)).
  { constructor; [congruence|exact Hl]. }
  destruct (map_res_extract_total _ Hall) as [qs Hqs].
  exists qs.
  change (page_result (ok_response (q :: l) quota))
    with (match map_res extract_question (q :: l) with
          | Raise e => Raise e
          | Ok qs' => Ok (qs', quota)
          end).
  pose proof (map_res_extract_length _ _ Hqs) as Hlen.
  simpl in Hqs. rewrite Hqs. split; [reflexivity|exact Hlen].
Qed.

Lemma extract_question_defaults_witness :
  exists r,
    extract_question
      {| q_question_id := Some 7; q_title := None; q_body := None;
         q_score := None; q_creation_date := None; q_view_count := None;
         q_answer_count := None; q_tags := None |} = Ok r
    /\ r = {| question_id := 7; title := ""; body := ""; score := 0;
              creation_date := 0; view_count := 0; answer_count := 0;
              tags := "" |}.
Proof.
  destruct (extract_question_defaults
              {| q_question_id := Some 7; q_title := None; q_body := None;
                 q_score := None; q_creation_date := None; q_view_count := None;
                 q_answer_count := None; q_tags := None |} 7 eq_refl)
    as (r & Hr & _).
  exists r. split; [exact Hr|]. cbv in Hr. injection Hr as <-. reflexivity.
Defined.

(* ================================================================= *)
(** ** The collector: deduplication *)

(** What one run of the collector leaves in the output file: the
    collection that was stored, followed by questions of pairwise
    distinct unseen ids that the server returned during the run. *)
Lemma collect_all_questions_run (E : env) mp sp ha si output_file w r w' :
  collect_all_questions E mp sp ha si output_file w = (r, w') ->
  exists new,
    trace w' = trace w ++ new
    /\ (forall qs,
          files w' !! output_file = Some (JsonQuestions qs) ->
          exists added,
            qs = stored w output_file ++ added
            /\ NoDup (ids added)
            /\ (forall x, x ∈ ids added -> x ∉ ids (stored w output_file))
            /\ (forall x, x ∈ ids added -> x ∈ returned_ids new))
    /\ (forall qs, r = Ok qs -> files w' !! output_file = Some (JsonQuestions qs)).
Proof.
  unfold collect_all_questions.
  assert (Hload :
    (exists e, (if path_exists output_file w then load_questions output_file
                else ret []) w = (Raise e, w)
               /\ forall qs, files w !! output_file <> Some (JsonQuestions qs))
    \/ ((if path_exists output_file w then load_questions output_file
         else ret []) w = (Ok (stored w output_file), w)
        /\ forall qs, files w !! output_file = Some (JsonQuestions qs) ->
                      qs = stored w output_file)).
  { unfold path_exists, stored.
    destruct (files w !! output_file) as [[qs|rows|]|] eqn:Hf.
    - right. rewrite bool_decide_eq_true_2 by eauto.
      unfold load_questions. rewrite Hf. split; [reflexivity|].
      intros qs' [= <-]. reflexivity.
    - left. rewrite bool_decide_eq_true_2 by eauto.
      unfold load_questions. rewrite Hf. eexists. split; [reflexivity|].
      intros qs. discriminate.
    - left. rewrite bool_decide_eq_true_2 by eauto.
      unfold load_questions. rewrite Hf. eexists. split; [reflexivity|].
      intros qs. discriminate.
    - right. rewrite bool_decide_eq_false_2 by (intros [? ?]; discriminate).
      split; [reflexivity|]. intros qs. discriminate. }
  destruct Hload as [(e & -> & Hno)|[-> Hst]].
  - intros [= <- <-]. exists []. rewrite app_nil_r. split; [reflexivity|].
    split; [|discriminate]. intros qs Hqs. destruct (Hno _ Hqs).
  - set (l0 := stored w output_file) in *.
    pose proof (hoare_collect_from E output_file l0 (trace w) mp sp ha si
                  (collect_init l0 w)) as Hinv.
    assert (Hinit : collector_inv output_file l0 (trace w) (collect_init l0 w)).
    { split; [reflexivity|]. exists []. simpl. rewrite app_nil_r.
      split; [reflexivity|]. split; [constructor|].
      split; [intros x Hx; inversion Hx|]. split; [intros x Hx; inversion Hx|].
      split; [exists []; rewrite app_nil_r; reflexivity|].
      intros qs Hqs. exists [], []. rewrite app_nil_r. split; [|reflexivity].
      apply Hst. exact Hqs. }
    specialize (Hinv Hinit).
    assert (Hfinal :
      forall qs st, collect_from E mp sp ha si output_file (collect_init l0 w)
                    = (Ok qs, st) ->
                    files (cworld st) !! output_file = Some (JsonQuestions qs)).
    { intros qs st. unfold collect_from, bind, get_all_questions, outside,
        save_questions, write_file.
      destruct (collect_try _ _ _ _ _ _) as [[p|e] st1]; [|discriminate].
      simpl. destruct (fault E (clock (cworld st1))); [discriminate|].
      simpl. intros [= <- <-]. simpl. apply lookup_insert_eq. }
    destruct (collect_from E mp sp ha si output_file (collect_init l0 w))
      as [r0 st] eqn:Hrun.
    assert (Hst' : collector_inv output_file l0 (trace w) st).
    { destruct r0; exact Hinv. }
    intros [= <- <-].
    destruct Hst' as (_ & added & _ & Hnd & Hdis & Hret & [new Hnew] & Hfile).
    exists new. split; [exact Hnew|]. split; [|intros qs ->; eapply Hfinal; reflexivity].
    intros qs Hqs. destruct (Hfile qs Hqs) as (a1 & a2 & -> & ->).
    exists a1. split; [reflexivity|]. unfold ids in *. rewrite map_app in *.
    apply NoDup_app in Hnd as (Hnd & _ & _). split; [exact Hnd|].
    split; [intros x Hx; apply Hdis; rewrite elem_of_app; auto|].
    intros x Hx. destruct (Hret x) as (new' & Heq & Hin).
    { rewrite elem_of_app. auto. }
    rewrite Hnew in Heq. apply app_inv_head in Heq as <-. exact Hin.
Qed.

Lemma length_le_size_ids (qs : list question) (X : gset Z) :
  NoDup (ids qs) -> (forall x, x ∈ ids qs -> x ∈ X) -> (length qs <= size X)%nat.
Proof.
  intros Hnd Hsub.
  assert (Hlen : length qs = size (list_to_set (ids qs) : gset Z)).
  { rewrite size_list_to_set by exact Hnd. unfold ids. rewrite length_map. reflexivity. }
  rewrite Hlen. apply subseteq_size. intros x Hx.
  apply elem_of_list_to_set in Hx. auto.
Qed.

(** C3: a run appends only questions whose id is in neither the stored
    collection nor an earlier addition of the run; what is stored has
    pairwise distinct ids after one run and after two; and two runs
    that start without an output file store no more questions than the
    server returned distinct ids. *)
Theorem collector_deduplicates (E : env) (output_file : string)
    mp1 sp1 ha1 si1 mp2 sp2 ha2 si2 w0 r1 w1 r2 w2 :
  NoDup (ids (stored w0 output_file)) ->
  collect_all_questions E mp1 sp1 ha1 si1 output_file w0 = (r1, w1) ->
  collect_all_questions E mp2 sp2 ha2 si2 output_file w1 = (r2, w2) ->
  exists new1 new2,
    trace w1 = trace w0 ++ new1
    /\ trace w2 = trace w1 ++ new2
    /\ (forall qs1,
          files w1 !! output_file = Some (JsonQuestions qs1) ->
          NoDup (ids qs1)
          /\ exists added,
               qs1 = stored w0 output_file ++ added
               /\ forall x, x ∈ ids added -> x ∉ ids (stored w0 output_file))
    /\ (forall qs2,
          files w2 !! output_file = Some (JsonQuestions qs2) ->
          NoDup (ids qs2)
          /\ (exists added,
                qs2 = stored w1 output_file ++ added
                /\ forall x, x ∈ ids added -> x ∉ ids (stored w1 output_file))
          /\ (files w0 !! output_file = None ->
              (length qs2 <= size (returned_ids (new1 ++ new2)))%nat))
    /\ (forall qs, r2 = Ok qs ->
          files w2 !! output_file = Some (JsonQuestions qs)).
Proof.
  intros Hnd0 Hrun1 Hrun2.
  destruct (collect_all_questions_run _ _ _ _ _ _ _ _ _ Hrun1)
    as (new1 & Htr1 & Hfile1 & _).
  destruct (collect_all_questions_run _ _ _ _ _ _ _ _ _ Hrun2)
    as (new2 & Htr2 & Hfile2 & Hok2).
  exists new1, new2. split; [exact Htr1|]. split; [exact Htr2|].
  assert (H1 : forall qs1,
    files w1 !! output_file = Some (JsonQuestions qs1) ->
    NoDup (ids qs1)
    /\ (exists added,
          qs1 = stored w0 output_file ++ added
          /\ forall x, x ∈ ids added -> x ∉ ids (stored w0 output_file))
    /\ (files w0 !! output_file = None ->
        forall x, x ∈ ids qs1 -> x ∈ returned_ids new1)).
  { intros qs1 Hqs1. destruct (Hfile1 qs1 Hqs1) as (added & -> & Hnd & Hdis & Hret).
    split; [|split].
    - unfold ids in *. rewrite map_app. apply NoDup_app.
      split; [exact Hnd0|]. split; [|exact Hnd].
      intros x Hx Hx'. exact (Hdis x Hx' Hx).
    - exists added. auto.
    - intros Hnone. unfold stored. rewrite Hnone. simpl. exact Hret. }
  split; [intros qs1 Hqs1; destruct (H1 qs1 Hqs1) as (? & ? & _); auto|].
  split; [|exact Hok2].
  intros qs2 Hqs2. destruct (Hfile2 qs2 Hqs2) as (added & -> & Hnd & Hdis & Hret).
  assert (Hst1 : NoDup (ids (stored w1 output_file))
                 /\ (files w0 !! output_file = None ->
                     forall x, x ∈ ids (stored w1 output_file) ->
                               x ∈ returned_ids new1)).
  { unfold stored. destruct (files w1 !! output_file) as [[qs1|rows|]|] eqn:Hf1;
      try (split; [constructor|intros _ x Hx; inversion Hx]).
    destruct (H1 qs1 eq_refl) as (? & _ & ?). auto. }
  destruct Hst1 as [Hnd1 Hret1].
  assert (Hnd2 : NoDup (ids (stored w1 output_file ++ added))).
  { unfold ids in *. rewrite map_app. apply NoDup_app.
    split; [exact Hnd1|]. split; [|exact Hnd].
    intros x Hx Hx'. exact (Hdis x Hx' Hx). }
  split; [exact Hnd2|]. split; [exists added; auto|].
  intros Hnone. apply length_le_size_ids; [exact Hnd2|].
  intros x. unfold ids. rewrite map_app, elem_of_app, returned_ids_app.
  intros [Hx|Hx]; [apply elem_of_union_l, Hret1|apply elem_of_union_r, Hret]; auto.
Qed.

(* ================================================================= *)
(** ** The collector: every exit saves *)

Lemma map_res_extract_raise l e :
  map_res extract_question l = Raise e -> is_Exception e = true.
Proof.
  induction l as [|q l IH]; simpl; [discriminate|].
  unfold extract_question at 1. destruct (q_question_id q); simpl.
  - destruct (map_res extract_question l); [discriminate|].
    intros [= <-]. apply IH. reflexivity.
  - intros [= <-]. reflexivity.
Qed.

Lemma page_result_raise (E : env) n page pagesize ha e :
  raises_caught E ->
  page_result (get_questions E n page pagesize ha) = Raise e -> caught e.
Proof.
  intros (_ & Hget & Hjson). unfold page_result.
  destruct (get_questions E n page pagesize ha) as [resp|e'] eqn:Hr.
  - destruct (status_code resp =? 200); [|discriminate].
    destruct (json resp) as [data|e'] eqn:Hj.
    + destruct (map_res extract_question _) as [qs|e'] eqn:Hm; [discriminate|].
      intros [= <-]. right. eapply map_res_extract_raise. exact Hm.
    + intros [= <-]. eapply Hjson; eassumption.
  - intros [= <-]. eapply Hget. exact Hr.
Qed.

Section Exits.

Context (E : env) (HE : raises_caught E).

Local Abbreviation any := (fun _ : cstate => True).
Local Abbreviation only_caught := (fun (e : exn) (_ : cstate) => caught e).

Lemma caught_fetch page ha :
  hoare any (outside (fetch_nlp_questions E page 100 ha)) (fun _ => any) only_caught.
Proof.
  apply hoare_outside. intros st _. rewrite fetch_nlp_questions_eq.
  destruct (page_result _) as [a|e] eqn:Hr; [exact I|].
  eapply page_result_raise; eassumption.
Qed.

Lemma caught_checkpoint :
  hoare any (outside (checkpoint E)) (fun _ => any) only_caught.
Proof.
  apply hoare_outside. intros st _. unfold checkpoint.
  destruct (fault E _) as [f|] eqn:Hf; [|exact I].
  destruct HE as (Hfault & _). eapply Hfault. exact Hf.
Qed.

Lemma caught_sleep :
  hoare any (outside (sleep E)) (fun _ => any) only_caught.
Proof.
  apply hoare_outside. intros st _. unfold sleep.
  destruct (fault E _) as [f|] eqn:Hf; [|exact I].
  destruct HE as (Hfault & _). eapply Hfault. exact Hf.
Qed.

Lemma caught_save qs output_file :
  hoare any (outside (save_questions E qs output_file)) (fun _ => any) only_caught.
Proof.
  apply hoare_outside. intros st _. unfold save_questions, write_file.
  destruct (fault E _) as [f|] eqn:Hf; [|exact I].
  destruct HE as (Hfault & _). eapply Hfault. exact Hf.
Qed.

Lemma caught_add_new_questions qs n :
  hoare any (add_new_questions E qs n) (fun _ => any) only_caught.
Proof.
  revert n. induction qs as [|q qs IH]; intros n; simpl.
  - apply hoare_ret. auto.
  - eapply hoare_bind; [apply caught_checkpoint|]. intros ?.
    eapply hoare_bind with (R := fun _ => any); [|intros ?; apply IH].
    intros st _. unfold add_question. case_bool_decide; exact I.
Qed.

Lemma caught_collect_page ha si output_file page :
  hoare any (collect_page E ha si output_file page) (fun _ => any) only_caught.
Proof.
  unfold collect_page.
  eapply hoare_bind; [apply caught_fetch|]. intros [qs quota].
  eapply hoare_bind; [apply caught_add_new_questions|]. intros new_count.
  eapply hoare_bind with (R := fun _ => any).
  { destruct (si =? 0); [apply hoare_throw; intros; right; reflexivity|].
    destruct (page mod si =? 0); [|apply hoare_ret; auto].
    eapply hoare_bind with (R := fun _ => any); [intros st _; exact I|].
    intros ?. apply caught_save. }
  intros ?. destruct (quota <? 5); [apply hoare_ret; auto|].
  eapply hoare_bind with (R := fun _ => any).
  { destruct (length qs =? 0)%nat; [|apply hoare_ret; auto].
    eapply hoare_bind; [apply caught_fetch|]. intros [nq nquota].
    apply hoare_ret. auto. }
  intros [|]; [apply hoare_ret; auto|].
  eapply hoare_bind; [apply caught_sleep|]. intros ?. apply hoare_ret. auto.
Qed.

Lemma caught_collect_loop mp sp ha si output_file :
  hoare any (collect_loop E mp sp ha si output_file) (fun _ => any) only_caught.
Proof.
  unfold collect_loop. apply hoare_for_each. intros p _. apply caught_collect_page.
Qed.

End Exits.

(** C2: whichever way the loop ends (all pages done, low quota, end of
    results, an interruption, an [Exception] raised in the loop), the
    collector goes on to the final save, in the state in which the loop
    ended: it writes the whole collection of that state to the output
    file, records the write and returns the collection, unless the write
    itself fails. *)
Theorem final_save_on_every_exit (E : env) mp sp ha si output_file (st : cstate) :
  raises_caught E ->
  exists path st1,
    loop_exit E mp sp ha si output_file st path st1
    /\ collect_try E mp sp ha si output_file st = (Ok path, st1)
    /\ collect_from E mp sp ha si output_file st = final_save E output_file st1
    /\ (fault E (clock (cworld st1)) = None ->
        exists st2,
          collect_from E mp sp ha si output_file st = (Ok (all_questions st1), st2)
          /\ files (cworld st2) !! output_file
             = Some (JsonQuestions (all_questions st1))
          /\ trace (cworld st2)
             = trace (cworld st1) ++ [EvSave output_file (all_questions st1)]).
Proof.
  intros HE.
  pose proof (caught_collect_loop E HE mp sp ha si output_file st I) as Hc.
  assert (Htry : exists path st1,
    loop_exit E mp sp ha si output_file st path st1
    /\ collect_try E mp sp ha si output_file st = (Ok path, st1)).
  { unfold collect_try, try_except, bind, loop_exit.
    destruct (collect_loop E mp sp ha si output_file st) as [[[|why]|e] st1].
    - exists Completed, st1. auto.
    - exists (Stopped why), st1. auto.
    - destruct Hc as [->|He].
      + exists Interrupted, st1. auto.
      + exists (match e with KeyboardInterrupt => Interrupted | _ => Failed e end), st1.
        destruct e; try discriminate; simpl; auto. }
  destruct Htry as (path & st1 & Hexit & Htry).
  exists path, st1. split; [exact Hexit|]. split; [exact Htry|].
  assert (Hfrom : collect_from E mp sp ha si output_file st
                  = final_save E output_file st1).
  { unfold collect_from, bind. rewrite Htry.
    unfold get_all_questions, outside, save_questions, write_file, final_save.
    simpl. destruct (fault E (clock (cworld st1))); reflexivity. }
  split; [exact Hfrom|].
  intros Hf. rewrite Hfrom. unfold final_save. rewrite Hf.
  eexists. split; [reflexivity|]. simpl. split; [apply lookup_insert_eq|reflexivity].
Qed.

(* ================================================================= *)
(** ** The collector: one iteration, step by step *)

Lemma outside_fetch (E : env) p ha st :
  outside (fetch_nlp_questions E p 100 ha) st
  = (page_result (get_questions E (clock (cworld st)) p 100 ha),
     CState (all_questions st) (existing_ids st)
       (advance (record (EvGetQuestions p
                           (get_questions E (clock (cworld st)) p 100 ha))
                   (cworld st)))).
Proof. unfold outside. rewrite fetch_nlp_questions_eq. reflexivity. Qed.

(** Adding the questions of a page touches neither the files nor the
    trace. *)
Lemma add_new_questions_outside (E : env) qs n st r st' :
  add_new_questions E qs n st = (r, st') ->
  trace (cworld st') = trace (cworld st)
  /\ files (cworld st') = files (cworld st).
Proof.
  revert n st. induction qs as [|q qs IH]; intros n st; simpl.
  - intros [= <- <-]. auto.
  - unfold bind at 1. unfold outside, checkpoint.
    destruct (fault E (clock (cworld st))); [intros [= <- <-]; auto|].
    unfold bind. unfold add_question at 1. simpl.
    case_bool_decide; simpl; intros Hrun; apply IH in Hrun; exact Hrun.
Qed.

Lemma range_lookup lo hi (i : nat) p :
  range lo hi !! i = Some p -> p = lo + Z.of_nat i /\ p < hi.
Proof.
  unfold range. rewrite list_lookup_fmap.
  destruct (seq 0 (Z.to_nat (hi - lo)) !! i) as [k|] eqn:Hk; [|discriminate].
  apply lookup_seq in Hk as [-> Hlt]. simpl. intros [= <-]. lia.
Qed.

(** The multiples of a positive [si] from [sp] on start at
    [sp + (- sp) mod si]. *)
Lemma first_multiple_from sp si p :
  0 < si -> sp <= p -> p mod si = 0 -> sp + (- sp) mod si <= p.
Proof.
  intros Hsi Hle Hp.
  pose proof (Z.mod_pos_bound (- sp) si Hsi) as Hb.
  pose proof (Z.div_mod (- sp) si ltac:(lia)) as Hs.
  pose proof (Z.div_mod p si ltac:(lia)) as Hq. rewrite Hp in Hq.
  set (a := - sp / si) in *. set (q := p / si) in *. set (m := - sp mod si) in *.
  assert (Hqa : 0 <= q + a) by nia.
  nia.
Qed.

Lemma first_multiple_is_multiple sp si :
  0 < si -> (sp + (- sp) mod si) mod si = 0.
Proof.
  intros Hsi. rewrite Zplus_mod_idemp_r. replace (sp + - sp) with 0 by lia.
  apply Z.mod_0_l. lia.
Qed.


(** The index of the first multiple of [si] from [sp] on is below [si],
    and it is [si - 1] when [sp] is one above a multiple. *)
Lemma first_multiple_index sp si :
  0 < si ->
  0 <= (- sp) mod si < si
  /\ ((- sp) mod si = si - 1 <-> (sp - 1) mod si = 0).
Proof.
  intros Hsi. split; [apply Z.mod_pos_bound; exact Hsi|].
  pose proof (Z.div_mod (- sp) si ltac:(lia)) as Hd.
  pose proof (Z.mod_pos_bound (- sp) si Hsi) as Hb.
  split.
  - intros Hm. apply Z.mod_divide; [lia|].
    exists (- (- sp / si) - 1). rewrite Hm in Hd. lia.
  - intros Hm. apply Z.mod_divide in Hm as [k Hk]; [|lia].
    symmetry. apply (Z.mod_unique (- sp) si (- k - 1)); [left; lia|lia].
Qed.

(* ================================================================= *)
(** ** The collector: early stops *)

Lemma interval_save_quiet (E : env) si p output_file st :
  quiet E -> si <> 0 ->
  (if si =? 0 then throw ZeroDivisionError
   else if p mod si =? 0 then
     let* qs := get_all_questions in
     outside (save_questions E qs output_file)
   else ret tt) st
  = (Ok tt, after_interval si p output_file st).
Proof.
  intros HE Hsi. apply Z.eqb_neq in Hsi. rewrite Hsi. unfold after_interval.
  destruct (p mod si =? 0); [|reflexivity].
  unfold bind, get_all_questions, outside, save_questions, write_file. simpl.
  rewrite HE. destruct st; reflexivity.
Qed.

(** The iteration on a page that yields no question, when nothing fails
    outside. *)
Lemma collect_page_empty (E : env) ha si output_file p st quota :
  quiet E -> si <> 0 ->
  page_result (get_questions E (clock (cworld st)) p 100 ha) = Ok ([], quota) ->
  let st2 := after_interval si p output_file (after_get E p ha st) in
  collect_page E ha si output_file p st
  = if quota <? 5 then (Ok (Break LowQuota), st2)
    else
      match page_result (get_questions E (clock (cworld st2)) (p + 1) 100 ha) with
      | Raise e => (Raise e, after_get E (p + 1) ha st2)
      | Ok (next_questions, _) =>
          if (length next_questions =? 0)%nat
          then (Ok (Break EndOfResults), after_get E (p + 1) ha st2)
          else (Ok Continue, after_sleep (after_get E (p + 1) ha st2))
      end.
Proof.
  intros HE Hsi Hr st2. unfold collect_page.
  unfold bind at 1. rewrite outside_fetch, Hr.
  unfold bind at 1. simpl add_new_questions. unfold ret at 1.
  unfold bind at 1. fold (after_get E p ha st).
  rewrite (interval_save_quiet E si p output_file _ HE Hsi). fold st2.
  destruct (quota <? 5); [reflexivity|].
  simpl length. simpl Nat.eqb. cbv iota.
  unfold bind at 1. unfold bind at 1. rewrite outside_fetch.
  fold (after_get E (p + 1) ha st2).
  destruct (page_result (get_questions E (clock (cworld st2)) (p + 1) 100 ha))
    as [[nq nquota]|e]; [|reflexivity].
  unfold ret at 1. destruct (length nq =? 0)%nat; [reflexivity|].
  unfold bind, outside, sleep, ret. rewrite HE. reflexivity.
Qed.

(** The iteration breaks on the end of the results only after a page
    without questions and a quota of 5 or more. *)
Lemma collect_page_end_of_results (E : env) ha si output_file p st st' :
  collect_page E ha si output_file p st = (Ok (Break EndOfResults), st') ->
  exists quota,
    page_result (get_questions E (clock (cworld st)) p 100 ha) = Ok ([], quota)
    /\ 5 <= quota.
Proof.
  unfold collect_page. unfold bind at 1. rewrite outside_fetch.
  destruct (page_result _) as [[qs quota]|e]; [|discriminate].
  unfold bind at 1.
  destruct (add_new_questions E qs 0 _) as [[n|e] st1]; [|discriminate].
  unfold bind at 1.
  match goal with
  | |- context [(if si =? 0 then ?a else ?b) st1] =>
      destruct ((if si =? 0 then a else b) st1) as [[[]|e] st2]; [|discriminate]
  end.
  destruct (quota <? 5) eqn:Hq; [discriminate|]. apply Z.ltb_ge in Hq.
  destruct qs as [|q qs].
  - intros _. exists quota. auto.
  - simpl length. simpl Nat.eqb. cbv iota. unfold bind at 1. unfold ret at 1.
    unfold bind, outside, sleep, ret.
    destruct (fault E _); discriminate.
Qed.

Lemma range_first lo n : 0 < n -> range lo (lo + n) = lo :: range (lo + 1) (lo + n).
Proof.
  intros Hn. unfold range.
  replace (lo + n - lo) with n by lia.
  replace (lo + n - (lo + 1)) with (n - 1) by lia.
  replace (Z.to_nat n) with (S (Z.to_nat (n - 1))) by lia.
  simpl. f_equal; [lia|]. rewrite <- seq_shift, map_map.
  apply map_ext. intros i. lia.
Qed.

(** A [break] in the iteration on the first page ends the loop. *)
Lemma collect_loop_break (E : env) mp sp ha si output_file st why st1 :
  0 < mp ->
  collect_page E ha si output_file sp st = (Ok (Break why), st1) ->
  collect_loop E mp sp ha si output_file st = (Ok (Broke why), st1).
Proof.
  intros Hmp Hp. unfold collect_loop. rewrite (range_first sp mp Hmp). simpl.
  unfold bind. rewrite Hp. reflexivity.
Qed.

(** After a loop that ends without an exception, when nothing fails
    outside: the final save and the return. *)
Lemma collect_from_loop_ok (E : env) mp sp ha si output_file st r st1 :
  quiet E ->
  collect_loop E mp sp ha si output_file st = (Ok r, st1) ->
  collect_try E mp sp ha si output_file st = (Ok (exit_of_loop r), st1)
  /\ collect_from E mp sp ha si output_file st
     = (Ok (all_questions st1), after_save output_file st1).
Proof.
  intros HE Hloop.
  assert (Htry : collect_try E mp sp ha si output_file st
                 = (Ok (exit_of_loop r), st1)).
  { unfold collect_try, try_except, bind. rewrite Hloop. reflexivity. }
  split; [exact Htry|].
  unfold collect_from, bind. rewrite Htry.
  unfold get_all_questions, outside, save_questions, write_file. simpl.
  rewrite HE. reflexivity.
Qed.

Lemma after_interval_all si p output_file st :
  all_questions (after_interval si p output_file st) = all_questions st.
Proof. unfold after_interval. destruct (p mod si =? 0); reflexivity. Qed.

Lemma after_interval_trace si p output_file st :
  trace (cworld (after_interval si p output_file st))
  = trace (cworld st)
    ++ (if p mod si =? 0 then [EvSave output_file (all_questions st)] else []).
Proof.
  unfold after_interval. destruct (p mod si =? 0); simpl;
    [reflexivity|rewrite app_nil_r; reflexivity].
Qed.

(** C1: the code stops where the claim says that it goes on.  The zero
    quota that the fetcher returns for a failed request is below the
    threshold of the quota test, which breaks the loop.  Page 1 fails
    with status 500; page 2, which holds a question, is never
    requested, and the collector returns an empty collection. *)
Lemma error_status_stops_the_loop :
  let E := mock_env first_page_fails no_answers in
  let run := collect_try E 3 1 true 5 "nlp_questions.json"
               (collect_init [] empty_world) in
  fst run = Ok (Stopped LowQuota)
  /\ map brief (trace (cworld (snd run))) = [("get", 1)]
  /\ page_result (first_page_fails 2) = Ok ([record_of_item 2], 100)
  /\ fst (collect_all_questions E 3 1 true 5 "nlp_questions.json" empty_world)
     = Ok [].
Proof. vm_compute. repeat split; reflexivity. Qed.

(** The same on a later page: page 2 fails after page 1 was merged, and
    page 3 is never requested. *)
Example error_status_on_a_later_page :
  let E := mock_env second_page_fails no_answers in
  let run := collect_try E 3 1 true 5 "nlp_questions.json"
               (collect_init [] empty_world) in
  fst run = Ok (Stopped LowQuota)
  /\ map brief (trace (cworld (snd run)))
     = [("get", 1); ("sleep", 0); ("get", 2)]
  /\ page_result (second_page_fails 3) = Ok ([record_of_item 3], 100)
  /\ fst (collect_all_questions E 3 1 true 5 "nlp_questions.json" empty_world)
     = Ok [record_of_item 1].
Proof. vm_compute. repeat split; reflexivity. Qed.

(** A failed look-ahead is taken for an empty page: after the empty
    page 1 the request for page 2 fails, the loop ends as at the end of
    the results, and page 3, which holds a question, is never
    requested. *)
Example failed_look_ahead_ends_the_loop :
  let E := mock_env look_ahead_fails no_answers in
  let run := collect_try E 3 1 true 5 "nlp_questions.json"
               (collect_init [] empty_world) in
  fst run = Ok (Stopped EndOfResults)
  /\ map brief (trace (cworld (snd run))) = [("get", 1); ("get", 2)]
  /\ page_result (look_ahead_fails 3) = Ok ([record_of_item 3], 100).
Proof. vm_compute. repeat split; reflexivity. Qed.

(** The loop over the batches of the answer fetcher, by contrast, goes
    on after a failed request: of 101 ids the first hundred are asked
    for and the request fails with status 500, and the request for the
    last one follows. *)
Example failed_batch_does_not_stop_the_fetcher :
  let E := mock_env one_per_page first_batch_fails in
  let run := fetch_answers_for_questions E (range 1 102) 3 empty_world in
  fst run = Ok ∅
  /\ map brief (trace (snd run))
     = [("answers", 100); ("answers", 1); ("sleep", 0)]
  /\ requested_batches (trace (snd run)) = [range 1 101; [101]].
Proof. vm_compute. repeat split; reflexivity. Qed.

(** A status other than 200 on the request of an iteration is not fatal:
    the fetcher returns an empty list and a zero quota without raising,
    and only the request is recorded.  The collector takes the zero
    quota for a low quota: it leaves the loop after this page (and the
    save of the interval, when due), adds nothing to the collection,
    requests no further page, makes the final save and returns the
    collection. *)
Theorem error_status_is_not_fatal (E : env) mp sp ha si output_file st resp :
  quiet E -> si <> 0 -> 0 < mp ->
  get_questions E (clock (cworld st)) sp 100 ha = Ok resp ->
  status_code resp <> 200 ->
  let st1 := after_interval si sp output_file (after_get E sp ha st) in
  fetch_nlp_questions E sp 100 ha (cworld st)
  = (Ok ([], 0), cworld (after_get E sp ha st))
  /\ collect_loop E mp sp ha si output_file st = (Ok (Broke LowQuota), st1)
  /\ collect_from E mp sp ha si output_file st
     = (Ok (all_questions st), after_save output_file st1)
  /\ trace (cworld (after_save output_file st1))
     = trace (cworld st)
       ++ [EvGetQuestions sp (Ok resp)]
       ++ (if sp mod si =? 0 then [EvSave output_file (all_questions st)] else [])
       ++ [EvSave output_file (all_questions st)].
Proof.
  intros HE Hsi Hmp Hresp Hstatus st1.
  assert (Hr : page_result (get_questions E (clock (cworld st)) sp 100 ha)
               = Ok ([], 0)).
  { rewrite Hresp. apply page_result_error_status. exact Hstatus. }
  split.
  { rewrite fetch_nlp_questions_eq, Hr. reflexivity. }
  assert (Hloop : collect_loop E mp sp ha si output_file st
                  = (Ok (Broke LowQuota), st1)).
  { apply collect_loop_break; [exact Hmp|].
    rewrite (collect_page_empty E ha si output_file sp st 0 HE Hsi Hr).
    reflexivity. }
  split; [exact Hloop|].
  destruct (collect_from_loop_ok E _ _ _ _ _ _ _ _ HE Hloop) as [_ Hfrom].
  split.
  { rewrite Hfrom. subst st1. rewrite after_interval_all. reflexivity. }
  subst st1. simpl. rewrite after_interval_trace, after_interval_all. simpl.
  rewrite Hresp, <- !app_assoc. reflexivity.
Qed.

(** C4 as stated fails: the test of the end of the results reads the
    number of questions of the page, not the number of new ones.  The
    store holds question 1; page 1 returns question 1 again, so nothing
    new, and page 2 returns nothing; the collector goes on, finds
    question 9 on page 3 and ends with the range. *)
Lemma zero_new_then_empty_does_not_stop :
  let E := mock_env gap_on_page_2 no_answers in
  let w := world_with "nlp_questions.json" [record_of_item 1] in
  let st := collect_init [record_of_item 1] w in
  page_result (gap_on_page_2 1) = Ok ([record_of_item 1], 100)
  /\ fst (add_new_questions E [record_of_item 1] 0 st) = Ok 0
  /\ page_result (gap_on_page_2 2) = Ok ([], 100)
  /\ fst (collect_try E 3 1 true 5 "nlp_questions.json" st) = Ok Completed
  /\ fst (collect_all_questions E 3 1 true 5 "nlp_questions.json" w)
     = Ok [record_of_item 1; record_of_item 9]
  /\ map brief
       (trace (snd (collect_all_questions E 3 1 true 5 "nlp_questions.json" w)))
     = [("get", 1); ("sleep", 0); ("get", 2); ("get", 3); ("sleep", 0);
        ("get", 3); ("sleep", 0); ("save", 2)].
Proof. vm_compute. repeat split; reflexivity. Qed.

(** C4, amended: when nothing fails outside, the iteration on page [p]
    stops the loop on the end of the results exactly when the response
    for [p] holds no question at all and a quota of at least 5, and the
    response to the confirming request for [p + 1] holds no question.
    On two such empty responses in a row the collector stops without
    an exception (on the low quota, without the confirming request,
    when the quota of the first is below 5), and makes the final save
    once, after the save of the interval when [p] is due for one. *)
Theorem end_of_results_detection (E : env) mp p ha si output_file st :
  quiet E -> si <> 0 ->
  let r := page_result (get_questions E (clock (cworld st)) p 100 ha) in
  let st2 := after_interval si p output_file (after_get E p ha st) in
  let r' := page_result (get_questions E (clock (cworld st2)) (p + 1) 100 ha) in
  ((exists st', collect_page E ha si output_file p st
                = (Ok (Break EndOfResults), st'))
   <-> (exists quota nquota,
          r = Ok ([], quota) /\ 5 <= quota /\ r' = Ok ([], nquota)))
  /\ (0 < mp ->
      forall quota nquota,
        r = Ok ([], quota) -> r' = Ok ([], nquota) ->
        let st3 := if quota <? 5 then st2 else after_get E (p + 1) ha st2 in
        collect_loop E mp p ha si output_file st
        = (Ok (Broke (if quota <? 5 then LowQuota else EndOfResults)), st3)
        /\ collect_from E mp p ha si output_file st
           = (Ok (all_questions st), after_save output_file st3)
        /\ trace (cworld (after_save output_file st3))
           = trace (cworld st)
             ++ [EvGetQuestions p (get_questions E (clock (cworld st)) p 100 ha)]
             ++ (if p mod si =? 0
                 then [EvSave output_file (all_questions st)] else [])
             ++ (if quota <? 5 then []
                 else [EvGetQuestions (p + 1)
                         (get_questions E (clock (cworld st2)) (p + 1) 100 ha)])
             ++ [EvSave output_file (all_questions st)]).
Proof.
  intros HE Hsi r st2 r'. split.
  - split.
    + intros [st' Hp].
      destruct (collect_page_end_of_results _ _ _ _ _ _ _ Hp) as (quota & Hr & Hq).
      rewrite (collect_page_empty E ha si output_file p st quota HE Hsi Hr) in Hp.
      apply Z.ltb_ge in Hq. rewrite Hq in Hp. fold st2 in Hp. fold r' in Hp.
      apply Z.ltb_ge in Hq.
      destruct r' as [[nq nquota]|e]; [|discriminate].
      destruct nq as [|q nq]; [|discriminate].
      exists quota, nquota. auto.
    + intros (quota & nquota & Hr & Hq & Hr').
      rewrite (collect_page_empty E ha si output_file p st quota HE Hsi Hr).
      apply Z.ltb_ge in Hq. rewrite Hq. fold st2. fold r'. rewrite Hr'.
      eexists. reflexivity.
  - intros Hmp quota nquota Hr Hr' st3.
    assert (Hloop : collect_loop E mp p ha si output_file st
              = (Ok (Broke (if quota <? 5 then LowQuota else EndOfResults)), st3)).
    { apply collect_loop_break; [exact Hmp|].
      rewrite (collect_page_empty E ha si output_file p st quota HE Hsi Hr).
      fold st2. fold r'. rewrite Hr'. subst st3.
      destruct (quota <? 5); reflexivity. }
    split; [exact Hloop|].
    destruct (collect_from_loop_ok E _ _ _ _ _ _ _ _ HE Hloop) as [_ Hfrom].
    assert (Hall : all_questions st3 = all_questions st).
    { subst st3 st2. destruct (quota <? 5); simpl; rewrite after_interval_all;
        reflexivity. }
    split; [rewrite Hfrom, Hall; reflexivity|].
    simpl. rewrite Hall. subst st3 st2.
    destruct (quota <? 5); simpl; rewrite after_interval_trace; simpl;
      rewrite <- !app_assoc; reflexivity.
Qed.

(* ================================================================= *)
(** ** The answer fetcher *)

Lemma clean_html_total (E : env) html_text :
  exists out, clean_html E html_text = Ok out.
Proof.
  destruct (clean_html_cases E html_text)
    as [[H _]|[(s & t & _ & _ & _ & H)|(s & e & _ & _ & _ & H)]]; eauto.
Qed.

(** One answer goes to the end of one list of the bucket of its
    question. *)
Lemma add_answer_Ok (E : env) all_answers a m :
  add_answer E all_answers a = Ok m ->
  exists qid,
    a_question_id a = Some qid
    /\ m = <[qid :=
             let b := default empty_bucket (all_answers !! qid) in
             if is_accepted a
             then {| accepted := accepted b ++ [data_of E a]; others := others b |}
             else {| accepted := accepted b; others := others b ++ [data_of E a] |}
           ]> all_answers.
Proof.
  unfold add_answer, data_of, is_accepted.
  destruct (a_question_id a) as [qid|]; [|discriminate].
  destruct (a_answer_id a) as [aid|]; [|discriminate].
  destruct (clean_html E _) as [t|e]; [|discriminate].
  intros Hm. exists qid. split; [reflexivity|].
  destruct (all_answers !! qid) as [b|] eqn:Hb; simpl in *.
  - rewrite Hb in Hm. simpl in Hm.
    destruct (default false (a_is_accepted a)); injection Hm as <-; reflexivity.
  - rewrite lookup_insert_eq in Hm. simpl in Hm.
    destruct (default false (a_is_accepted a)); injection Hm as <-;
      rewrite insert_insert_eq; reflexivity.
Qed.

Lemma fold_add_answer (E : env) l all_answers m qid :
  fold_res (add_answer E) all_answers l = Ok m ->
  m !! qid = bucket_after E qid (all_answers !! qid) l.
Proof.
  revert all_answers. induction l as [|a l IH]; intros acc; simpl.
  - intros [= <-]. reflexivity.
  - destruct (add_answer E acc a) as [acc'|e] eqn:Ha; [|discriminate].
    intros Hm. rewrite (IH _ Hm). clear IH Hm.
    apply add_answer_Ok in Ha as (q & Hq & ->).
    unfold bucket_after, answers_of. rewrite filter_cons.
    destruct (decide (a_question_id a = Some qid)) as [Heq|Hne].
    + assert (q = qid) as -> by congruence. rewrite lookup_insert_eq.
      set (b := default empty_bucket (acc !! qid)).
      unfold marked_accepted, not_accepted. rewrite !filter_cons.
      destruct (is_accepted a) eqn:Hacc; simpl.
      * destruct (filter (fun a0 => a_question_id a0 = Some qid) l) as [|a' A];
          simpl; rewrite <- ?app_assoc, ?app_nil_r; reflexivity.
      * destruct (filter (fun a0 => a_question_id a0 = Some qid) l) as [|a' A];
          simpl; rewrite <- ?app_assoc, ?app_nil_r; reflexivity.
    + rewrite lookup_insert_ne by congruence. reflexivity.
Qed.

Lemma fold_res_app {A B} (f : B -> A -> res B) acc l1 l2 :
  fold_res f acc (l1 ++ l2)
  = match fold_res f acc l1 with
    | Ok acc' => fold_res f acc' l2
    | Raise e => Raise e
    end.
Proof.
  revert acc. induction l1 as [|x l1 IH]; intros acc; simpl; [reflexivity|].
  destruct (f acc x); [apply IH|reflexivity].
Qed.

Lemma returned_answers_app tr1 tr2 :
  returned_answers (tr1 ++ tr2) = returned_answers tr1 ++ returned_answers tr2.
Proof. unfold returned_answers. rewrite map_app, concat_app. reflexivity. Qed.

(** The loop over the batches folds [add_answer] over the answers that
    the server returned, in order. *)
Lemma fetch_batches_fold (E : env) question_ids starts all_answers w m w' :
  fetch_batches E question_ids starts all_answers w = (Ok m, w') ->
  exists new,
    trace w' = trace w ++ new
    /\ fold_res (add_answer E) all_answers (returned_answers new) = Ok m.
Proof.
  revert all_answers w. induction starts as [|i starts IH]; intros acc w; simpl.
  - intros [= <- <-]. exists []. rewrite app_nil_r. auto.
  - unfold bind at 1. unfold requests_get_answers.
    set (batch := slice question_ids i (i + 100)).
    set (r := get_answers E (clock w) batch).
    set (w1 := advance (record (EvGetAnswers batch r) w)).
    assert (Hnew : forall new' acc',
      fold_res (add_answer E) acc (response_answers r) = Ok acc' ->
      forall w2, trace w2 = trace w1 ++ new' -> returned_answers new' = [] ->
      forall new'', trace w' = trace w2 ++ new'' ->
      fold_res (add_answer E) acc' (returned_answers new'') = Ok m ->
      exists new, trace w' = trace w ++ new
                  /\ fold_res (add_answer E) acc (returned_answers new) = Ok m).
    { intros new' acc' Hacc w2 Hw2 Hnone new'' Hw' Hm.
      exists (EvGetAnswers batch r :: new' ++ new'').
      split.
      - rewrite Hw', Hw2. subst w1. simpl. rewrite <- !app_assoc. reflexivity.
      - change (EvGetAnswers batch r :: new' ++ new'')
          with ([EvGetAnswers batch r] ++ new' ++ new'').
        rewrite !returned_answers_app, Hnone. simpl app.
        unfold returned_answers at 1. simpl. rewrite app_nil_r.
        rewrite fold_res_app, Hacc. exact Hm. }
    destruct r as [resp|e] eqn:Hr; [|discriminate].
    destruct (status_code resp =? 200) eqn:Hs.
    + unfold bind at 1. unfold lift_res at 1.
      destruct (json resp) as [data|e] eqn:Hj; [|discriminate].
      unfold bind at 1. unfold lift_res at 1.
      destruct (fold_res (add_answer E) acc (default [] (items data)))
        as [acc'|e] eqn:Hfold; [|discriminate].
      assert (Hacc : fold_res (add_answer E) acc (response_answers (Ok resp))
                     = Ok acc').
      { unfold response_answers. rewrite Hs, Hj. exact Hfold. }
      destruct (default 0 (quota_remaining data) <? 100).
      * unfold ret. intros [= <- <-].
        apply (Hnew [] acc' Hacc w1 (eq_sym (app_nil_r _)) eq_refl []);
          [rewrite app_nil_r; reflexivity|reflexivity].
      * unfold bind at 1. unfold sleep.
        destruct (fault E (clock w1)); [discriminate|].
        intros Hrest. destruct (IH _ _ Hrest) as (new'' & Hw' & Hm).
        exact (Hnew [EvSleep] acc' Hacc (advance (record EvSleep w1))
                 eq_refl eq_refl new'' Hw' Hm).
    + intros Hrest. destruct (IH _ _ Hrest) as (new'' & Hw' & Hm).
      assert (Hacc : fold_res (add_answer E) acc (response_answers (Ok resp))
                     = Ok acc).
      { unfold response_answers. rewrite Hs. reflexivity. }
      exact (Hnew [] acc Hacc w1 (eq_sym (app_nil_r _)) eq_refl new'' Hw' Hm).
Qed.

Lemma insert_desc_length x l : length (insert_desc x l) = S (length l).
Proof.
  induction l as [|y l IH]; simpl; [reflexivity|].
  destruct (ad_score x <? ad_score y); simpl; congruence.
Qed.

Lemma sort_desc_length l : length (sort_desc l) = length l.
Proof.
  induction l as [|x l IH]; [reflexivity|].
  change (sort_desc (x :: l)) with (insert_desc x (sort_desc l)).
  rewrite insert_desc_length, IH. reflexivity.
Qed.

Lemma insert_desc_perm x l : insert_desc x l ≡ₚ x :: l.
Proof.
  induction l as [|y l IH]; simpl; [reflexivity|].
  destruct (ad_score x <? ad_score y); [|reflexivity].
  rewrite IH. apply Permutation_swap.
Qed.

Lemma sort_desc_perm l : sort_desc l ≡ₚ l.
Proof.
  induction l as [|x l IH]; [reflexivity|].
  change (sort_desc (x :: l)) with (insert_desc x (sort_desc l)).
  rewrite insert_desc_perm, IH. reflexivity.
Qed.

Lemma insert_desc_sorted x l : sorted_desc l -> sorted_desc (insert_desc x l).
Proof.
  unfold sorted_desc. induction 1 as [|y l Hl IH Hy]; simpl.
  - constructor; constructor.
  - destruct (ad_score x <? ad_score y) eqn:Hxy.
    + apply Z.ltb_lt in Hxy. constructor; [exact IH|].
      rewrite insert_desc_perm. constructor; [lia|exact Hy].
    + apply Z.ltb_ge in Hxy. constructor; [constructor; assumption|].
      constructor; [exact Hxy|].
      eapply Forall_impl; [exact Hy|]. simpl. intros z Hz. lia.
Qed.

Lemma sort_desc_sorted l : sorted_desc (sort_desc l).
Proof.
  induction l as [|x l IH]; [constructor|].
  change (sort_desc (x :: l)) with (insert_desc x (sort_desc l)).
  apply insert_desc_sorted. exact IH.
Qed.

Lemma sorted_desc_take n l : sorted_desc l -> sorted_desc (take n l).
Proof.
  unfold sorted_desc. intros H. revert n.
  induction H as [|y l Hl IH Hy]; intros [|n]; simpl; try constructor.
  - apply IH.
  - apply Forall_take. exact Hy.
Qed.

Lemma slice_to_nonneg {A} (l : list A) n :
  0 <= n -> slice_to l n = take (Z.to_nat n) l.
Proof.
  intros Hn. unfold slice_to. destruct (n <? 0) eqn:H; [|reflexivity].
  apply Z.ltb_lt in H. lia.
Qed.

(** What the fetcher returns for each question: the bucket that the
    returned answers fill, its other answers sorted and cut. *)
Lemma fetch_answers_lookup (E : env) question_ids top_n w m w' :
  fetch_answers_for_questions E question_ids top_n w = (Ok m, w') ->
  exists new,
    trace w' = trace w ++ new
    /\ forall qid,
         m !! qid
         = sort_and_limit top_n
             <$> bucket_after E qid None (returned_answers new).
Proof.
  unfold fetch_answers_for_questions.
  destruct question_ids as [|q0 ids'].
  { intros [= <- <-]. exists []. rewrite app_nil_r. split; [reflexivity|].
    intros qid. simpl. apply lookup_empty. }
  unfold bind at 1. unfold lift_res at 1.
  destruct (range_step _ 100) as [starts|e]; [|discriminate].
  unfold bind at 1.
  destruct (fetch_batches E (q0 :: ids') starts ∅ w) as [[m0|e] w1] eqn:Hb;
    [|discriminate].
  unfold ret. intros [= <- <-].
  apply fetch_batches_fold in Hb as (new & Htr & Hfold).
  exists new. split; [exact Htr|]. intros qid.
  rewrite lookup_fmap, (fold_add_answer E _ _ _ qid Hfold), lookup_empty.
  reflexivity.
Qed.

Example answers_bucketed_example :
  let E := mock_env one_per_page five_answers in
  match fst (fetch_answers_for_questions E [1] 3 empty_world) with
  | Ok m =>
      (map ad_score <$> (others <$> m !! 1)) = Some [9; 7; 5]
      /\ (map ad_answer_id <$> (accepted <$> m !! 1)) = Some [10]
  | Raise _ => False
  end.
Proof. vm_compute. split; reflexivity. Qed.

(* ================================================================= *)
(** ** The joiner: the rows *)

Example format_answer_known :
  format_answer {| ad_answer_id := 1; ad_score := 7; ad_user_id := UserId 42;
                   ad_text := "use spaCy" |}
  = "[User 42 | Score: 7]: use spaCy".
Proof. reflexivity. Qed.

Example format_answer_unknown :
  format_answer {| ad_answer_id := 1; ad_score := -3; ad_user_id := UnknownUser;
                   ad_text := "" |}
  = "[User unknown | Score: -3]: ".
Proof. reflexivity. Qed.

(** The row of a question: it is always built; the accepted column
    formats the first accepted answer and each of the three answer
    columns formats the other answer of its rank, if there is one. *)
Lemma build_row_columns (E : env) (answers_data : gmap Z bucket) (q : question) :
  exists r,
    build_row E answers_data q = Ok r
    /\ row_question_id r = question_id q
    /\ accepted_answer r
       = column (default [] (accepted <$> answers_data !! question_id q)) 0
    /\ top_answers r
       = map (column (default [] (others <$> answers_data !! question_id q)))
           [0; 1; 2]%nat.
Proof.
  unfold build_row. destruct (clean_html_total E (Some (body q))) as [t ->].
  destruct (answers_data !! question_id q) as [b|]; simpl.
  - eexists. split; [reflexivity|].
    destruct b as [acc oth]. simpl.
    split; [destruct acc, oth as [|o1 [|o2 [|o3 oth]]]; reflexivity|].
    split; [destruct acc, oth as [|o1 [|o2 [|o3 oth]]]; reflexivity|].
    destruct acc, oth as [|o1 [|o2 [|o3 oth]]]; reflexivity.
  - eexists. split; [reflexivity|]. auto.
Qed.

(** C9 as stated fails for [top_n] above 3: the row has three answer
    columns and the loop that fills them runs over [others[:3]].  With
    [top_n = 4] the fetcher returns four other answers for question 1;
    the row formats three, and the fourth is in no column. *)
Lemma fourth_answer_has_no_column :
  let E := mock_env one_per_page five_answers in
  match fst (fetch_answers_for_questions E [1] 4 empty_world) with
  | Ok m =>
      match build_row E m (record_of_item 1) with
      | Ok r =>
          (map format_answer <$> (others <$> m !! 1))
          = Some ["[User 112 | Score: 9]: text"; "[User 114 | Score: 7]: text";
                  "[User 111 | Score: 5]: text"; "[User 113 | Score: 2]: text"]
          /\ accepted_answer r = "[User 110 | Score: 3]: text"
          /\ top_answers r
             = ["[User 112 | Score: 9]: text"; "[User 114 | Score: 7]: text";
                "[User 111 | Score: 5]: text"]
          /\ "[User 113 | Score: 2]: text" ∉ accepted_answer r :: top_answers r
      | Raise _ => False
      end
  | Raise _ => False
  end.
Proof.
  vm_compute. repeat split.
  intros H. repeat (apply elem_of_cons in H as [H|H]; [discriminate|]).
  inversion H.
Qed.

(** C9, amended: for every [top_n >= 0] and every question, the row is
    built; its accepted column holds the first accepted answer of the
    question as [[User {id} | Score: {score}]: {text}], or is empty;
    its three answer columns hold, in the same format, the other
    answers of ranks 1 to 3 that the fetcher kept, and are empty from
    rank [top_n + 1] on and where the question has fewer answers. *)
Theorem row_formats_answers (E : env) question_ids top_n w m w' (q : question) :
  0 <= top_n ->
  fetch_answers_for_questions E question_ids top_n w = (Ok m, w') ->
  exists r,
    build_row E m q = Ok r
    /\ accepted_answer r
       = match default [] (accepted <$> m !! question_id q) with
         | first :: _ => format_answer first
         | [] => ""
         end
    /\ top_answers r
       = map (column (default [] (others <$> m !! question_id q))) [0; 1; 2]%nat
    /\ (forall k : nat,
          top_n <= Z.of_nat k ->
          column (default [] (others <$> m !! question_id q)) k = "")
    /\ (forall a,
          format_answer a
          = "[User " +:+ str_user (ad_user_id a) +:+ " | Score: "
            +:+ str_Z (ad_score a) +:+ "]: " +:+ ad_text a).
Proof.
  intros Htop Hrun.
  destruct (build_row_columns E m q) as (r & Hr & _ & Hacc & Htops).
  exists r. split; [exact Hr|]. split.
  { rewrite Hacc. unfold column.
    destruct (default [] (accepted <$> m !! question_id q)); reflexivity. }
  split; [exact Htops|]. split; [|reflexivity].
  intros k Hk. unfold column.
  destruct (fetch_answers_lookup E _ _ _ _ _ Hrun) as (new & _ & Hm).
  rewrite Hm. unfold bucket_after. simpl.
  destruct (answers_of (question_id q) (returned_answers new)) as [|a A];
    [reflexivity|].
  simpl. rewrite slice_to_nonneg by exact Htop.
  rewrite lookup_ge_None_2; [reflexivity|]. rewrite length_take. lia.
Qed.

Lemma row_formats_answers_witness :
  let E := mock_env one_per_page five_answers in
  let run := fetch_answers_for_questions E [1] 2 empty_world in
  let m := match fst run with Ok m => m | Raise _ => ∅ end in
  exists r,
    build_row E m (record_of_item 1) = Ok r
    /\ accepted_answer r = "[User 110 | Score: 3]: text"
    /\ top_answers r
       = ["[User 112 | Score: 9]: text"; "[User 114 | Score: 7]: text"; ""].
Proof.
  intros E run m.
  destruct (row_formats_answers E [1] 2 empty_world m (snd run) (record_of_item 1))
    as (r & Hr & Hacc & Htops & _); [lia|vm_compute; reflexivity|].
  exists r. split; [exact Hr|]. split.
  - rewrite Hacc. vm_compute. reflexivity.
  - rewrite Htops. vm_compute. reflexivity.
Defined.

(* ================================================================= *)
(** ** The joiner: resumption *)

Lemma fetch_batches_files (E : env) question_ids starts all_answers w r w' :
  fetch_batches E question_ids starts all_answers w = (r, w') ->
  files w' = files w.
Proof.
  revert all_answers w. induction starts as [|i starts IH]; intros acc w; simpl.
  - intros [= <- <-]. reflexivity.
  - unfold bind at 1. unfold requests_get_answers.
    destruct (get_answers E (clock w) _) as [resp|e]; [|intros [= <- <-]; reflexivity].
    destruct (status_code resp =? 200).
    + unfold bind at 1. unfold lift_res at 1.
      destruct (json resp) as [data|e]; [|intros [= <- <-]; reflexivity].
      unfold bind at 1. unfold lift_res at 1.
      destruct (fold_res _ _ _) as [acc'|e]; [|intros [= <- <-]; reflexivity].
      destruct (_ <? 100); [intros [= <- <-]; reflexivity|].
      unfold bind at 1. unfold sleep. simpl.
      destruct (fault E _); [intros [= <- <-]; reflexivity|].
      intros H. apply IH in H. exact H.
    + intros H. apply IH in H. exact H.
Qed.

Lemma fetch_answers_files (E : env) question_ids top_n w r w' :
  fetch_answers_for_questions E question_ids top_n w = (r, w') ->
  files w' = files w.
Proof.
  unfold fetch_answers_for_questions. destruct question_ids as [|q ids'].
  { intros [= <- <-]. reflexivity. }
  unfold bind at 1. unfold lift_res at 1.
  destruct (range_step _ 100) as [starts|e]; [|intros [= <- <-]; reflexivity].
  unfold bind at 1.
  destruct (fetch_batches E (q :: ids') starts ∅ w) as [[m|e] w1] eqn:Hb;
    apply fetch_batches_files in Hb; intros [= <- <-]; exact Hb.
Qed.

(** One row for each question of the batch, in order. *)
Lemma map_res_build_row (E : env) answers_data batch :
  exists rows,
    map_res (build_row E answers_data) batch = Ok rows
    /\ row_ids rows = ids batch.
Proof.
  induction batch as [|q batch (rows & IH & Hids)]; simpl; [eauto|].
  destruct (build_row_columns E answers_data q) as (r & -> & Hid & _).
  rewrite IH. exists (r :: rows). split; [reflexivity|]. simpl. congruence.
Qed.

Lemma load_existing_eq (E : env) output_file w :
  load_existing E output_file w
  = (Ok (match files w !! output_file with
         | Some (CsvTable rows) => read_table E rows
         | _ => None
         end), w).
Proof.
  unfold load_existing, path_exists, try_except, bind, read_csv.
  destruct (files w !! output_file) as [[qs|rows|]|] eqn:Hf.
  - rewrite bool_decide_eq_true_2 by eauto. reflexivity.
  - rewrite bool_decide_eq_true_2 by eauto.
    destruct (read_table E rows); reflexivity.
  - rewrite bool_decide_eq_true_2 by eauto. reflexivity.
  - rewrite bool_decide_eq_false_2 by (intros [? ?]; discriminate). reflexivity.
Qed.

Lemma ids_of_table_empty rows :
  ids_of_table (Some rows) = ∅ -> rows = [].
Proof.
  destruct rows as [|r rows]; [reflexivity|]. simpl. intros H.
  assert (Hin : row_question_id r ∈ (∅ : gset Z)) by (rewrite <- H; set_solver).
  set_solver.
Qed.

Section Joiner.

Context (E : env) (output_file : string) (file0 : option file)
        (existing_df : option (list row))
        (to_process : list question) (batch_size top_n : Z).

Local Abbreviation table0 := (default [] existing_df).
Local Abbreviation processed_ids := (ids_of_table existing_df).
Local Abbreviation jinv := (joiner_inv output_file file0 table0 to_process).

(** The "Save progress" statement writes the table read at the start
    followed by the rows built so far. *)
Lemma save_progress_inv results k w r w' :
  jinv w ->
  results <> [] ->
  row_ids results = ids (take k to_process) ->
  save_progress E output_file existing_df processed_ids results w = (r, w') ->
  jinv w'
  /\ (r = Ok tt -> files w' !! output_file = Some (CsvTable (table0 ++ results))).
Proof.
  intros [Hex Hfile] Hne Hids. unfold save_progress.
  destruct results as [|r0 results]; [congruence|].
  set (res := r0 :: results) in *.
  assert (Hbase :
    (if path_exists output_file w && negb (bool_decide (processed_ids = ∅))
     then to_csv E (table0 ++ res) output_file w
     else to_csv E res output_file w)
    = to_csv E (table0 ++ res) output_file w).
  { destruct (bool_decide (processed_ids = ∅)) eqn:Hp.
    - apply bool_decide_eq_true in Hp. rewrite andb_false_r.
      destruct existing_df as [rows|]; [|reflexivity].
      rewrite (ids_of_table_empty _ Hp). reflexivity.
    - apply bool_decide_eq_false in Hp.
      assert (Hne0 : table0 <> []).
      { destruct existing_df as [[|? ?]|]; simpl in *; congruence. }
      unfold path_exists. rewrite bool_decide_eq_true_2 by auto. reflexivity. }
  rewrite Hbase. unfold to_csv, write_file.
  destruct (fault E (clock w)) as [f|].
  - intros [= <- <-]. split; [|discriminate].
    destruct (torn f); [|split; assumption].
    split; simpl.
    + intros _. rewrite lookup_insert_eq. eauto.
    + intros rows. rewrite lookup_insert_eq. discriminate.
  - intros [= <- <-]. simpl. split; [|intros _; apply lookup_insert_eq].
    split; simpl.
    + intros _. rewrite lookup_insert_eq. eauto.
    + intros rows. rewrite lookup_insert_eq. intros [= <-].
      right. exists k, res. auto.
Qed.

Lemma slice_batch (j : nat) :
  0 < batch_size ->
  slice to_process (Z.of_nat j * batch_size)
    (Z.of_nat j * batch_size + batch_size)
  = take (Z.to_nat batch_size) (drop (j * Z.to_nat batch_size) to_process).
Proof.
  intros Hb. unfold slice. f_equal; [f_equal; lia|f_equal; nia].
Qed.

(** The loop over the batches, from the [j]-th batch on. *)
Lemma process_batches_inv cnt :
  0 < batch_size ->
  forall (j : nat) results w r w',
    cnt = 0%nat
    \/ ((j + cnt) * Z.to_nat batch_size
        < length to_process + Z.to_nat batch_size)%nat ->
    row_ids results = ids (take (j * Z.to_nat batch_size) to_process) ->
    jinv w ->
    process_batches E to_process batch_size top_n output_file existing_df
      processed_ids (starts_from batch_size j cnt) results w = (r, w') ->
    jinv w'
    /\ (r = Ok tt ->
        (cnt = 0%nat -> files w' = files w)
        /\ (cnt <> 0%nat ->
            exists rows,
              files w' !! output_file = Some (CsvTable (table0 ++ rows))
              /\ row_ids rows
                 = ids (take ((j + cnt) * Z.to_nat batch_size) to_process))).
Proof.
  intros Hb. induction cnt as [|cnt IH]; intros j results w r w' Hj Hids Hinv.
  - simpl. intros [= <- <-]. split; [exact Hinv|]. intros _.
    split; [reflexivity|congruence].
  - unfold starts_from. simpl. fold (starts_from batch_size (S j) cnt).
    rewrite (slice_batch j Hb).
    set (nb := Z.to_nat batch_size) in *.
    set (batch := take nb (drop (j * nb) to_process)).
    unfold bind at 1.
    destruct (fetch_answers_for_questions E _ top_n w) as [[m|e] w1] eqn:Hf;
      apply fetch_answers_files in Hf.
    2: { intros [= <- <-]. split; [|discriminate].
         destruct Hinv as [H1 H2]. split; rewrite Hf; assumption. }
    assert (Hinv1 : jinv w1).
    { destruct Hinv as [H1 H2]. split; rewrite Hf; assumption. }
    unfold bind at 1. unfold lift_res at 1.
    destruct (map_res_build_row E m batch) as (rows & -> & Hrows).
    assert (Hbatch : batch <> []).
    { destruct Hj as [|Hj]; [discriminate|]. subst batch.
      intros Hnil. apply (f_equal length) in Hnil.
      rewrite length_take, length_drop in Hnil. simpl in Hnil. nia. }
    assert (Hne : results ++ rows <> []).
    { intros Hnil. apply app_eq_nil in Hnil as [_ ->].
      destruct batch; [congruence|discriminate]. }
    assert (Hids' : row_ids (results ++ rows)
                    = ids (take (S j * nb) to_process)).
    { unfold row_ids, ids in *. rewrite map_app, Hids, Hrows, <- map_app.
      f_equal. subst batch. rewrite take_take_drop. f_equal. lia. }
    unfold bind at 1.
    destruct (save_progress E output_file existing_df processed_ids
                (results ++ rows) w1) as [[[]|e] w2] eqn:Hs;
      destruct (save_progress_inv _ _ _ _ _ Hinv1 Hne Hids' Hs) as [Hinv2 Hok].
    2: { intros [= <- <-]. split; [exact Hinv2|discriminate]. }
    specialize (Hok eq_refl).
    intros Hrest.
    assert (Hj' : cnt = 0%nat
                  \/ ((S j + cnt) * nb < length to_process + nb)%nat).
    { destruct Hj as [|Hj]; [discriminate|]. right.
      replace (S j + cnt)%nat with (j + S cnt)%nat by lia. exact Hj. }
    destruct (IH (S j) _ _ _ _ Hj' Hids' Hinv2 Hrest) as [Hinv' Hfin].
    split; [exact Hinv'|]. intros Hr. destruct (Hfin Hr) as [H0 Hn].
    split; [discriminate|]. intros _.
    destruct cnt as [|cnt].
    + rewrite (H0 eq_refl). exists (results ++ rows). split; [exact Hok|].
      rewrite Hids'. f_equal. f_equal. lia.
    + destruct (Hn ltac:(discriminate)) as (rows' & Hfile & Hids'').
      exists rows'. split; [exact Hfile|]. rewrite Hids''. f_equal. f_equal. lia.
Qed.

End Joiner.

Lemma sublist_ids (l1 l2 : list question) :
  l1 `sublist_of` l2 -> ids l1 `sublist_of` ids l2.
Proof.
  induction 1; simpl; [constructor|apply sublist_skip|apply sublist_cons]; assumption.
Qed.

Lemma unprocessed_prefix_sublist pids questions k :
  take k (unprocessed pids questions) `sublist_of` questions.
Proof.
  transitivity (unprocessed pids questions);
    [apply sublist_take|apply sublist_filter].
Qed.

Lemma unprocessed_prefix_fresh pids questions k x :
  x ∈ ids (take k (unprocessed pids questions)) -> x ∉ pids.
Proof.
  intros Hx. apply list_elem_of_fmap in Hx as (q & -> & Hq).
  apply subseteq_take in Hq. apply list_elem_of_filter in Hq as [Hq _]. exact Hq.
Qed.

Lemma range_step_positive n step :
  0 < step -> 0 <= n ->
  exists cnt,
    range_step n step = Ok (starts_from step 0 cnt)
    /\ (cnt = 0%nat \/ (cnt * Z.to_nat step < Z.to_nat n + Z.to_nat step)%nat)
    /\ (Z.to_nat n <= cnt * Z.to_nat step)%nat
    /\ (cnt = 0%nat -> n = 0).
Proof.
  intros Hs Hn. unfold range_step, starts_from.
  destruct (step =? 0) eqn:H0; [apply Z.eqb_eq in H0; lia|].
  destruct (step <? 0) eqn:H1; [apply Z.ltb_lt in H1; lia|].
  exists (Z.to_nat ((n + step - 1) / step)). split; [reflexivity|].
  pose proof (Z.div_mod (n + step - 1) step ltac:(lia)) as Hd.
  pose proof (Z.mod_pos_bound (n + step - 1) step Hs) as Hm.
  assert (Hq : 0 <= (n + step - 1) / step) by (apply Z.div_pos; lia).
  set (q := (n + step - 1) / step) in *.
  split; [right; nia|]. split; [nia|]. intros Hc. nia.
Qed.

(** C6: the joiner builds rows only for the questions whose id is not
    in the table that it reads from the output file at the start; a
    table that it leaves in the output file is the file as it was, or
    the table read followed by one row for each question of a prefix of
    those questions, in order; the ids of the rows of a table that it
    writes are pairwise distinct if those of the table read and those
    of the questions are; and when the run ends normally, the file
    holds the table read followed by one row for every one of those
    questions. *)
Theorem joiner_resumes (E : env) questions_file output_file batch_size top_n
    w r w' :
  process_questions_with_answers E questions_file output_file batch_size top_n w
  = (r, w') ->
  let questions := stored w questions_file in
  let existing := table E w output_file in
  let to_process := unprocessed (list_to_set (row_ids existing)) questions in
  (forall q, q ∈ to_process <->
             (question_id q ∉ row_ids existing) /\ q ∈ questions)
  /\ (forall rows,
        files w' !! output_file = Some (CsvTable rows) ->
        files w' !! output_file = files w !! output_file
        \/ exists k new,
             rows = existing ++ new /\ row_ids new = ids (take k to_process))
  /\ (NoDup (row_ids existing) -> NoDup (ids questions) ->
      forall rows,
        files w' !! output_file = Some (CsvTable rows) ->
        files w' !! output_file = files w !! output_file
        \/ NoDup (row_ids rows))
  /\ (r = Ok tt -> 0 < batch_size -> to_process <> [] ->
      exists new,
        files w' !! output_file = Some (CsvTable (existing ++ new))
        /\ row_ids new = ids to_process).
Proof.
  intros Hrun questions existing to_process.
  assert (Hmem : forall q, q ∈ to_process <->
                           (question_id q ∉ row_ids existing) /\ q ∈ questions).
  { intros q. unfold to_process, unprocessed. rewrite list_elem_of_filter.
    rewrite elem_of_list_to_set. reflexivity. }
  assert (Hmain :
    (forall rows,
       files w' !! output_file = Some (CsvTable rows) ->
       files w' !! output_file = files w !! output_file
       \/ exists k new,
            rows = existing ++ new /\ row_ids new = ids (take k to_process))
    /\ (r = Ok tt -> 0 < batch_size -> to_process <> [] ->
        exists new,
          files w' !! output_file = Some (CsvTable (existing ++ new))
          /\ row_ids new = ids to_process)).
  { assert (Hsame : w' = w ->
      (r = Ok tt -> 0 < batch_size -> to_process <> [] -> False) ->
      (forall rows,
         files w' !! output_file = Some (CsvTable rows) ->
         files w' !! output_file = files w !! output_file
         \/ exists k new,
              rows = existing ++ new /\ row_ids new = ids (take k to_process))
      /\ (r = Ok tt -> 0 < batch_size -> to_process <> [] ->
          exists new,
            files w' !! output_file = Some (CsvTable (existing ++ new))
            /\ row_ids new = ids to_process)).
    { intros -> Hno. split.
      - intros rows Hrows. left. reflexivity.
      - intros H1 H2 H3. destruct (Hno H1 H2 H3). }
    revert Hrun. unfold process_questions_with_answers, bind at 1, load_questions.
    unfold questions, stored in *.
    destruct (files w !! questions_file) as [[qs|rows|]|] eqn:Hq.
    2,3: intros [= <- <-]; apply Hsame; [reflexivity|discriminate].
    2: { intros [= <- <-]. apply Hsame; [reflexivity|].
         intros _ _ H. apply H. reflexivity. }
    destruct qs as [|q0 qs'].
    { intros [= <- <-]. apply Hsame; [reflexivity|].
      intros _ _ H. apply H. reflexivity. }
    unfold bind at 1. rewrite load_existing_eq.
    set (existing_df := match files w !! output_file with
                        | Some (CsvTable rows) => read_table E rows
                        | _ => None
                        end).
    assert (Hex : default [] existing_df = existing).
    { unfold existing_df, existing, table.
      destruct (files w !! output_file) as [[| |]|]; reflexivity. }
    assert (Hpids : ids_of_table existing_df = list_to_set (row_ids existing)).
    { rewrite <- Hex. destruct existing_df; reflexivity. }
    rewrite Hpids. fold to_process.
    unfold bind at 1. unfold lift_res at 1.
    destruct (Z_lt_le_dec 0 batch_size) as [Hb|Hb].
    - destruct (range_step_positive (Z.of_nat (length to_process)) batch_size Hb
                  ltac:(lia)) as (cnt & -> & Hcnt & Hcover & Hzero).
      rewrite Nat2Z.id in Hcnt, Hcover. rewrite <- Hpids.
      intros Hloop.
      assert (Hinit : joiner_inv output_file (files w !! output_file)
                        (default [] existing_df) to_process w).
      { split.
        - unfold existing_df.
          destruct (files w !! output_file) as [[| |]|]; simpl;
            try congruence; eauto.
        - intros rows Hrows. left. reflexivity. }
      destruct (process_batches_inv E output_file (files w !! output_file)
                  existing_df to_process
                  batch_size top_n cnt Hb 0%nat [] w r w') as [[_ Hfile] Hfin].
      + destruct Hcnt; auto.
      + reflexivity.
      + exact Hinit.
      + exact Hloop.
      + rewrite Hex in Hfile, Hfin. split; [exact Hfile|].
        intros Hr _ Hne. destruct (Hfin Hr) as [_ Hn].
        destruct Hn as (rows & Hrows & Hids).
        { intros ->. apply Hne. apply length_zero_iff_nil. lia. }
        exists rows. split; [exact Hrows|]. rewrite Hids.
        rewrite take_ge by (simpl; lia). reflexivity.
    - unfold range_step. destruct (batch_size =? 0) eqn:H0.
      + intros [= <- <-]. apply Hsame; [reflexivity|]. intros _ H. lia.
      + apply Z.eqb_neq in H0.
        assert (H1 : (batch_size <? 0) = true) by (apply Z.ltb_lt; lia).
        rewrite H1. simpl. intros [= <- <-]. apply Hsame; [reflexivity|].
        intros _ H. lia. }
  destruct Hmain as [Hfile Hfin].
  split; [exact Hmem|]. split; [exact Hfile|]. split; [|exact Hfin].
  intros Hnd1 Hnd2 rows Hrows.
  destruct (Hfile rows Hrows) as [Hsame|(k & new & -> & Hids)]; [left; exact Hsame|].
  right. unfold row_ids in *. rewrite map_app. apply NoDup_app.
  split; [exact Hnd1|]. split.
  - intros x Hx Hx'. rewrite Hids in Hx'.
    apply unprocessed_prefix_fresh in Hx'. apply Hx'.
    apply elem_of_list_to_set. exact Hx.
  - rewrite Hids. eapply sublist_NoDup; [exact Hnd2|].
    apply sublist_ids, unprocessed_prefix_sublist.
Qed.

(* ================================================================= *)
(** ** The statements at sample inputs *)

Lemma mock_env_quiet pages answers : quiet (mock_env pages answers).
Proof. intros n. reflexivity. Qed.

Lemma interrupted_at_raises_caught n0 :
  raises_caught (interrupted_at n0 one_per_page).
Proof.
  split; [|split].
  - intros n f. simpl. destruct (n =? n0)%nat; [|discriminate].
    intros [= <-]. left. reflexivity.
  - intros n page pagesize ha e. discriminate.
  - intros n page pagesize ha r e. simpl. unfold one_per_page, ok_response.
    intros [= <-]. discriminate.
Qed.

(** The five ways out of the [try] statement, each followed by the
    final save: all pages done; the low quota of a failed request; two
    empty pages; the user's interruption during the second request's
    sleep; a [ZeroDivisionError] from an interval of zero, and a
    [KeyError] from an item without id. *)
Example exit_paths :
  let out := "nlp_questions.json" in
  let saved E mp si :=
    (fst (collect_try E mp 1 true si out (collect_init [] empty_world)),
     map question_id
       (stored (snd (collect_all_questions E mp 1 true si out empty_world)) out)) in
  saved (mock_env one_per_page no_answers) 2 5 = (Ok Completed, [1; 2])
  /\ saved (mock_env first_page_fails no_answers) 2 5 = (Ok (Stopped LowQuota), [])
  /\ saved (mock_env empty_pages no_answers) 2 5 = (Ok (Stopped EndOfResults), [])
  /\ saved (interrupted_at 5 one_per_page) 3 5 = (Ok Interrupted, [1; 2])
  /\ saved (mock_env one_per_page no_answers) 2 0
     = (Ok (Failed ZeroDivisionError), [1])
  /\ saved (mock_env broken_item_on_page_2 no_answers) 3 5
     = (Ok (Failed (KeyError "question_id")), [1]).
Proof. vm_compute. repeat split; reflexivity. Qed.

Lemma error_status_is_not_fatal_witness :
  let E := mock_env first_page_fails no_answers in
  let out := "nlp_questions.json" in
  let st := collect_init [] empty_world in
  let st1 := after_interval 5 1 out (after_get E 1 true st) in
  fetch_nlp_questions E 1 100 true (cworld st)
  = (Ok ([], 0), cworld (after_get E 1 true st))
  /\ collect_loop E 3 1 true 5 out st = (Ok (Broke LowQuota), st1)
  /\ collect_from E 3 1 true 5 out st
     = (Ok (all_questions st), after_save out st1)
  /\ trace (cworld (after_save out st1))
     = trace (cworld st)
       ++ [EvGetQuestions 1 (error_response 500)]
       ++ (if 1 mod 5 =? 0 then [EvSave out (all_questions st)] else [])
       ++ [EvSave out (all_questions st)].
Proof.
  intros E out st.
  apply (error_status_is_not_fatal E 3 1 true 5 out st
           (Response 500 (Raise JSONDecodeError))).
  - apply mock_env_quiet.
  - lia.
  - lia.
  - reflexivity.
  - simpl. lia.
Defined.

Lemma final_save_on_every_exit_witness :
  let E := interrupted_at 5 one_per_page in
  let out := "nlp_questions.json" in
  let st := collect_init [] empty_world in
  exists path st1,
    loop_exit E 3 1 true 5 out st path st1
    /\ collect_try E 3 1 true 5 out st = (Ok path, st1)
    /\ collect_from E 3 1 true 5 out st = final_save E out st1
    /\ (fault E (clock (cworld st1)) = None ->
        exists st2,
          collect_from E 3 1 true 5 out st = (Ok (all_questions st1), st2)
          /\ files (cworld st2) !! out = Some (JsonQuestions (all_questions st1))
          /\ trace (cworld st2)
             = trace (cworld st1) ++ [EvSave out (all_questions st1)]).
Proof.
  intros E out st.
  apply (final_save_on_every_exit E 3 1 true 5 out st).
  apply interrupted_at_raises_caught.
Defined.

Lemma collector_deduplicates_witness :
  let E := mock_env one_per_page no_answers in
  let out := "nlp_questions.json" in
  let run1 := collect_all_questions E 2 1 true 5 out empty_world in
  let run2 := collect_all_questions E 3 1 true 5 out (snd run1) in
  exists new1 new2,
    trace (snd run1) = trace empty_world ++ new1
    /\ trace (snd run2) = trace (snd run1) ++ new2
    /\ (forall qs1,
          files (snd run1) !! out = Some (JsonQuestions qs1) ->
          NoDup (ids qs1)
          /\ exists added,
               qs1 = stored empty_world out ++ added
               /\ forall x, x ∈ ids added -> x ∉ ids (stored empty_world out))
    /\ (forall qs2,
          files (snd run2) !! out = Some (JsonQuestions qs2) ->
          NoDup (ids qs2)
          /\ (exists added,
                qs2 = stored (snd run1) out ++ added
                /\ forall x, x ∈ ids added -> x ∉ ids (stored (snd run1) out))
          /\ (files empty_world !! out = None ->
              (length qs2 <= size (returned_ids (new1 ++ new2)))%nat))
    /\ (forall qs, fst run2 = Ok qs ->
          files (snd run2) !! out = Some (JsonQuestions qs)).
Proof.
  intros E out run1 run2.
  apply (collector_deduplicates E out 2 1 true 5 3 1 true 5
           empty_world (fst run1) (snd run1) (fst run2) (snd run2)).
  - vm_compute. constructor.
  - apply surjective_pairing.
  - apply surjective_pairing.
Defined.

(** Two runs over the same pages: the second adds the one page that the
    first did not reach, and what is stored has one question for each
    id that the server returned. *)
Example two_runs :
  let E := mock_env one_per_page no_answers in
  let out := "nlp_questions.json" in
  let run1 := collect_all_questions E 2 1 true 5 out empty_world in
  let run2 := collect_all_questions E 3 1 true 5 out (snd run1) in
  ids (stored (snd run1) out) = [1; 2]
  /\ ids (stored (snd run2) out) = [1; 2; 3]
  /\ size (returned_ids (trace (snd run2))) = 3%nat.
Proof. vm_compute. repeat split; reflexivity. Qed.

Lemma end_of_results_detection_witness :
  let E := mock_env empty_pages no_answers in
  let out := "nlp_questions.json" in
  let st := collect_init [] empty_world in
  let st2 := after_interval 5 1 out (after_get E 1 true st) in
  (exists st', collect_page E true 5 out 1 st = (Ok (Break EndOfResults), st'))
  /\ collect_from E 3 1 true 5 out st
     = (Ok [], after_save out (after_get E 2 true st2))
  /\ map brief (trace (cworld (after_save out (after_get E 2 true st2))))
     = [("get", 1); ("get", 2); ("save", 0)].
Proof.
  intros E out st st2.
  destruct (end_of_results_detection E 3 1 true 5 out st
              (mock_env_quiet _ _) ltac:(lia)) as [Hiff Hrun].
  split.
  - apply Hiff. exists 100, 100.
    split; [reflexivity|]. split; [lia|reflexivity].
  - destruct (Hrun ltac:(lia) 100 100 eq_refl eq_refl) as (_ & Hfrom & _).
    split; [exact Hfrom|]. reflexivity.
Defined.

(** The run of the defaults, start page 11 and interval 5, over six
    pages: the first save of the loop comes with page 15, and none with
    the pages 11 to 14. *)
Example default_run_saves_at_page_15 :
  let E := mock_env one_per_page no_answers in
  let run := collect_loop E 6 11 true 5 "nlp_questions.json"
               (collect_init [] empty_world) in
  fst run = Ok Exhausted
  /\ map brief (trace (cworld (snd run)))
     = [("get", 11); ("sleep", 0); ("get", 12); ("sleep", 0);
        ("get", 13); ("sleep", 0); ("get", 14); ("sleep", 0);
        ("get", 15); ("save", 5); ("sleep", 0); ("get", 16); ("sleep", 0)]
  /\ 11 + (- 11) mod 5 = 15.
Proof. vm_compute. repeat split; reflexivity. Qed.

(** A start page that is neither a multiple of the interval nor one
    above a multiple: the first save comes after four pages, not five. *)
Example start_12_saves_at_page_15 :
  let E := mock_env one_per_page no_answers in
  let run := collect_loop E 5 12 true 5 "nlp_questions.json"
               (collect_init [] empty_world) in
  map brief (trace (cworld (snd run)))
  = [("get", 12); ("sleep", 0); ("get", 13); ("sleep", 0);
     ("get", 14); ("sleep", 0); ("get", 15); ("save", 4); ("sleep", 0);
     ("get", 16); ("sleep", 0)].
Proof. vm_compute. reflexivity. Qed.

Lemma joiner_resumes_witness :
  let E := mock_env one_per_page no_answers in
  let qf := "nlp_questions.json" in
  let out := "nlp_qa_dataset.csv" in
  let run := process_questions_with_answers E qf out 30 3 resumed_world in
  let to_process :=
    unprocessed (list_to_set (row_ids (table E resumed_world out)))
      (stored resumed_world qf) in
  to_process = [record_of_item 3]
  /\ fst run = Ok tt
  /\ exists new,
       files (snd run) !! out
       = Some (CsvTable ([row_of_item 1; row_of_item 2] ++ new))
       /\ row_ids new = [3].
Proof.
  intros E qf out run to_process.
  assert (Htp : to_process = [record_of_item 3]) by (vm_compute; reflexivity).
  assert (Hr : fst run = Ok tt) by (vm_compute; reflexivity).
  assert (Hex : table E resumed_world out = [row_of_item 1; row_of_item 2])
    by (vm_compute; reflexivity).
  split; [exact Htp|]. split; [exact Hr|].
  destruct (joiner_resumes E qf out 30 3 resumed_world (fst run) (snd run)
              (surjective_pairing _)) as (_ & _ & _ & Hfin).
  destruct (Hfin Hr ltac:(lia)) as (new & Hfile & Hids).
  - fold to_process. rewrite Htp. discriminate.
  - exists new. rewrite Hex in Hfile. split; [exact Hfile|].
    fold to_process in Hids. rewrite Hids, Htp. reflexivity.
Defined.

(** The table holds the rows of 1 and 2, the questions are 1, 2 and 3:
    one request for the answers of question 3, and one row more. *)
Example resumed_run :
  let E := mock_env one_per_page five_answers in
  let run := process_questions_with_answers E "nlp_questions.json"
               "nlp_qa_dataset.csv" 30 3 resumed_world in
  row_ids (written (snd run) "nlp_qa_dataset.csv") = [1; 2; 3]
  /\ map brief (trace (snd run)) = [("answers", 1); ("sleep", 0); ("csv", 3)].
Proof. vm_compute. split; reflexivity. Qed.

(** An old row whose title is [NA] is not kept as it was written: the
    resumed run writes it back with an empty title, before the new
    row. *)
Example resumed_run_blanks_missing_cells :
  let E := mock_env one_per_page no_answers in
  let run := process_questions_with_answers E "nlp_questions.json"
               "nlp_qa_dataset.csv" 30 3 na_world in
  map row_title (written na_world "nlp_qa_dataset.csv") = ["NA"; "t"]
  /\ map row_title (written (snd run) "nlp_qa_dataset.csv") = [""; "t"; "t"]
  /\ row_ids (written (snd run) "nlp_qa_dataset.csv") = [1; 2; 3].
Proof. vm_compute. repeat split; reflexivity. Qed.


(* ================================================================= *)
(** ** More on the HTML cleaner *)

Lemma sub_spaces_plain s c :
  c ∈ sub_spaces s -> is_space c = true -> c = space_char.
Proof.
  induction s as [|x r Hx IH|x r Hx IH] using sub_spaces_induction.
  - rewrite sub_spaces_nil. intros H. inversion H.
  - rewrite (sub_spaces_space _ _ Hx), elem_of_cons. intros [->|Hc]; auto.
  - rewrite (sub_spaces_other _ _ Hx), elem_of_cons. intros [->|Hc]; [congruence|auto].
Qed.

Lemma strip_elem s c : c ∈ strip s -> c ∈ s.
Proof.
  intros H. destruct (strip_infix s) as (a & b & Hs). rewrite Hs.
  rewrite !elem_of_app. auto.
Qed.

Lemma strip_first s c r : strip s = c :: r -> is_space c = false.
Proof.
  unfold strip. intros H.
  destruct (skip_spaces_suffix (rev (skip_spaces s))) as [a Ha].
  apply (f_equal (@rev ascii)) in Ha.
  rewrite rev_involutive, rev_app_distr, H in Ha. simpl in Ha.
  eapply skip_spaces_head. exact Ha.
Qed.

Lemma strip_last s l c : strip s = l ++ [c] -> is_space c = false.
Proof.
  unfold strip. intros H. apply (f_equal (@rev ascii)) in H.
  rewrite rev_involutive, rev_app_distr in H. simpl in H.
  eapply skip_spaces_head. exact H.
Qed.

(** X1: whatever the parser does, the text that the cleaner returns
    neither begins nor ends with a whitespace character, and the only
    whitespace character in it is the space: tabs, line ends and the
    other characters of [\s] are gone. *)
Theorem clean_html_trimmed (E : env) (html_text : option string) :
  exists out,
    clean_html E html_text = Ok out
    /\ (forall c, head (chars out) = Some c -> is_space c = false)
    /\ (forall c, last (chars out) = Some c -> is_space c = false)
    /\ (forall c, c ∈ chars out -> odd_space c = false).
Proof.
  assert (Hclean : forall s,
    (forall c, head (strip (sub_spaces s)) = Some c -> is_space c = false)
    /\ (forall c, last (strip (sub_spaces s)) = Some c -> is_space c = false)
    /\ (forall c, c ∈ strip (sub_spaces s) -> odd_space c = false)).
  { intros s. split; [|split].
    - intros c Hc. destruct (strip (sub_spaces s)) as [|x r] eqn:Hs; [discriminate|].
      injection Hc as ->. eapply strip_first. exact Hs.
    - intros c Hc. apply last_Some in Hc as [l Hl]. eapply strip_last. exact Hl.
    - intros c Hc. apply strip_elem in Hc. unfold odd_space.
      destruct (is_space c) eqn:Hsp; [|reflexivity].
      rewrite (sub_spaces_plain _ _ Hc Hsp). reflexivity. }
  destruct (clean_html_cases E html_text)
    as [[Hc _]|[(s & t & _ & _ & _ & Hc)|(s & e & _ & _ & _ & Hc)]];
    rewrite Hc; eexists; (split; [reflexivity|]); rewrite ?chars_text;
    try apply Hclean.
  split; [discriminate|]. split; [discriminate|]. intros c H. inversion H.
Qed.

Example clean_html_trimmed_example :
  clean_html (mock_env one_per_page no_answers)
    (Some "
  <p>Use	<code>nltk</code>
 here.</p>  ")
  = Ok "Use nltk here.".
Proof. reflexivity. Qed.

(* ================================================================= *)
(** ** More on the collector: the merge of a page *)

(** X2: when the loop over the questions of a page runs to its end, the
    collection has grown by questions of that page, in the order of the
    page, of pairwise distinct ids that it did not hold; every question
    of the page then has its id in the collection; of several questions
    with one new id the first is the one kept; and the count returned
    has grown by the number of questions added. *)
Theorem add_new_questions_merge (E : env) qs n st n' st' :
  existing_ids st = list_to_set (ids (all_questions st)) ->
  add_new_questions E qs n st = (Ok n', st') ->
  exists added,
    all_questions st' = all_questions st ++ added
    /\ added `sublist_of` qs
    /\ NoDup (ids added)
    /\ (forall q, q ∈ added -> question_id q ∉ ids (all_questions st))
    /\ (forall q, q ∈ qs -> question_id q ∈ ids (all_questions st'))
    /\ (forall l1 q l2,
          qs = l1 ++ q :: l2 ->
          question_id q ∉ ids (all_questions st) ->
          question_id q ∉ ids l1 ->
          q ∈ added)
    /\ n' = n + Z.of_nat (length added)
    /\ existing_ids st' = list_to_set (ids (all_questions st')).
Proof.
  revert n st. induction qs as [|q qs IH]; intros n st Hinv; simpl.
  - intros [= <- <-]. exists []. rewrite app_nil_r.
    split; [reflexivity|]. split; [constructor|]. split; [constructor|].
    split; [intros q Hq; inversion Hq|]. split; [intros q Hq; inversion Hq|].
    split; [intros [|? ?] ? ? ?; discriminate|]. split; [simpl; lia|exact Hinv].
  - unfold bind at 1. unfold outside, checkpoint.
    destruct (fault E (clock (cworld st))); [discriminate|].
    unfold bind at 1. unfold add_question. simpl.
    case_bool_decide as Hin; simpl; intros Hrun.
    + (* the id is known: the question is skipped *)
      apply IH in Hrun; [|exact Hinv].
      destruct Hrun
        as (added & Hall & Hsub & Hnd & Hfresh & Hcov & Hfirst & Hn & Hinv').
      simpl in *. exists added. split; [exact Hall|].
      split; [apply sublist_cons; exact Hsub|]. split; [exact Hnd|].
      split; [exact Hfresh|]. split.
      { intros q' Hq'. apply elem_of_cons in Hq' as [->|Hq']; [|auto].
        rewrite Hall. unfold ids. rewrite map_app, elem_of_app. left.
        rewrite Hinv in Hin. apply elem_of_list_to_set in Hin. exact Hin. }
      split; [|auto].
      intros l1 q' l2 Heq Hnew Hl1. destruct l1 as [|x l1]; simpl in Heq.
      * injection Heq as -> _. exfalso. apply Hnew.
        rewrite Hinv in Hin. apply elem_of_list_to_set in Hin. exact Hin.
      * injection Heq as -> Heq. apply (Hfirst l1 q' l2 Heq Hnew).
        intros Hx. apply Hl1. simpl. right. exact Hx.
    + (* the id is new: the question is appended *)
      assert (Hnot : question_id q ∉ ids (all_questions st)).
      { intros Hx. apply Hin. rewrite Hinv. apply elem_of_list_to_set. exact Hx. }
      assert (Hinv1 : existing_ids st ∪ {[question_id q]}
                      = list_to_set (ids (all_questions st ++ [q]))).
      { unfold ids. rewrite map_app, list_to_set_app_L. simpl.
        rewrite union_empty_r_L. unfold ids in Hinv. rewrite Hinv. reflexivity. }
      apply IH in Hrun; [|exact Hinv1].
      destruct Hrun
        as (added & Hall & Hsub & Hnd & Hfresh & Hcov & Hfirst & Hn & Hinv').
      simpl in *. exists (q :: added).
      assert (Hids1 : forall x, x ∈ ids (all_questions st ++ [q]) <->
                                x ∈ ids (all_questions st) \/ x = question_id q).
      { intros x. unfold ids. rewrite map_app, elem_of_app. simpl.
        rewrite list_elem_of_singleton. reflexivity. }
      split; [rewrite Hall, <- app_assoc; reflexivity|].
      split; [apply sublist_skip; exact Hsub|].
      split.
      { simpl. constructor; [|exact Hnd]. intros Hq.
        apply list_elem_of_fmap in Hq as (q' & Heq & Hq').
        apply (Hfresh q' Hq'). apply Hids1. right. symmetry. exact Heq. }
      split.
      { intros q' Hq'. apply elem_of_cons in Hq' as [->|Hq']; [exact Hnot|].
        intros Hx. apply (Hfresh q' Hq'). apply Hids1. left. exact Hx. }
      split.
      { intros q' Hq'. apply elem_of_cons in Hq' as [->|Hq']; [|auto].
        rewrite Hall. unfold ids. rewrite !map_app, !elem_of_app. left. right.
        simpl. left. }
      split; [|split; [simpl length; lia|exact Hinv']].
      intros l1 q' l2 Heq Hnew Hl1. destruct l1 as [|x l1]; simpl in Heq.
      * injection Heq as -> _. left.
      * injection Heq as -> Heq. right. apply (Hfirst l1 q' l2 Heq).
        -- intros Hx. apply Hids1 in Hx as [Hx|Hx]; [auto|].
           apply Hl1. simpl. rewrite Hx. left.
        -- intros Hx. apply Hl1. simpl. right. exact Hx.
Qed.

Lemma add_new_questions_merge_witness :
  let E := mock_env one_per_page no_answers in
  let st := collect_init [record_of_item 1] empty_world in
  let qs := [record_of_item 2; record_of_item 1; record_of_item 2;
             record_of_item 5] in
  let run := add_new_questions E qs 0 st in
  fst run = Ok 2
  /\ exists added,
       all_questions (snd run) = [record_of_item 1] ++ added
       /\ added `sublist_of` qs
       /\ ids added = [2; 5].
Proof.
  intros E st qs run.
  assert (Hrun : run = (Ok 2, snd run)) by (vm_compute; reflexivity).
  split; [rewrite Hrun; reflexivity|].
  destruct (add_new_questions_merge E qs 0 st 2 (snd run) eq_refl Hrun)
    as (added & Hall & Hsub & _).
  exists added. split; [exact Hall|]. split; [exact Hsub|].
  assert (Hids : ids (all_questions (snd run)) = [1; 2; 5])
    by (vm_compute; reflexivity).
  rewrite Hall in Hids. injection Hids as Hids. exact Hids.
Defined.

(* ================================================================= *)
(** ** More on the collector: an iteration when nothing fails *)

Lemma add_new_questions_quiet (E : env) qs n st :
  quiet E ->
  exists n', add_new_questions E qs n st = (Ok n', merged qs st).
Proof.
  intros HE. revert n st. induction qs as [|q qs IH]; intros n st; simpl.
  - eexists. reflexivity.
  - unfold bind at 1. unfold outside, checkpoint. rewrite HE.
    unfold bind at 1. unfold add_question. simpl.
    case_bool_decide; apply IH.
Qed.

Lemma merged_outside qs st :
  trace (cworld (merged qs st)) = trace (cworld st)
  /\ files (cworld (merged qs st)) = files (cworld st).
Proof.
  revert st. induction qs as [|q qs IH]; intros st; simpl; [auto|].
  case_bool_decide;
    match goal with
    | |- context [merged qs ?s] => destruct (IH s) as [-> ->]
    end; auto.
Qed.

(** The ids of the questions of a page are all seen after the page, and
    no seen id is forgotten. *)
Lemma merged_existing qs st :
  existing_ids st ⊆ existing_ids (merged qs st)
  /\ forall q, q ∈ qs -> question_id q ∈ existing_ids (merged qs st).
Proof.
  revert st. induction qs as [|q qs IH]; intros st; simpl.
  - split; [reflexivity|]. intros q Hq. inversion Hq.
  - case_bool_decide as Hin;
      match goal with
      | |- context [merged qs ?s] => destruct (IH s) as [Hsub Hcov]
      end; simpl in Hsub.
    + split; [exact Hsub|]. intros q' Hq'.
      apply elem_of_cons in Hq' as [->|Hq']; [apply Hsub; exact Hin|auto].
    + split; [intros x Hx; apply Hsub, elem_of_union_l; exact Hx|].
      intros q' Hq'. apply elem_of_cons in Hq' as [->|Hq']; [|auto].
      apply Hsub, elem_of_union_r, elem_of_singleton. reflexivity.
Qed.

(** A page whose ids are all seen changes nothing but the clock. *)
Lemma merged_known qs st :
  (forall q, q ∈ qs -> question_id q ∈ existing_ids st) ->
  all_questions (merged qs st) = all_questions st
  /\ existing_ids (merged qs st) = existing_ids st.
Proof.
  revert st. induction qs as [|q qs IH]; intros st Hall; simpl; [auto|].
  rewrite bool_decide_eq_true_2 by (apply Hall; left).
  match goal with
  | |- context [merged qs ?s] => apply (IH s)
  end.
  intros q' Hq'. apply Hall. right. exact Hq'.
Qed.

(** The iteration on a page, when nothing fails outside. *)
Lemma collect_page_quiet (E : env) ha si output_file p st :
  quiet E ->
  collect_page E ha si output_file p st
  = match page_result (get_questions E (clock (cworld st)) p 100 ha) with
    | Raise e => (Raise e, after_get E p ha st)
    | Ok (qs, quota) =>
        let st1 := merged qs (after_get E p ha st) in
        if si =? 0 then (Raise ZeroDivisionError, st1)
        else
          let st2 := after_interval si p output_file st1 in
          if quota <? 5 then (Ok (Break LowQuota), st2)
          else if (length qs =? 0)%nat then
            match page_result
                    (get_questions E (clock (cworld st2)) (p + 1) 100 ha) with
            | Raise e => (Raise e, after_get E (p + 1) ha st2)
            | Ok (next_questions, _) =>
                if (length next_questions =? 0)%nat
                then (Ok (Break EndOfResults), after_get E (p + 1) ha st2)
                else (Ok Continue, after_sleep (after_get E (p + 1) ha st2))
            end
          else (Ok Continue, after_sleep st2)
    end.
Proof.
  intros HE. unfold collect_page.
  unfold bind at 1. rewrite outside_fetch. fold (after_get E p ha st).
  destruct (page_result (get_questions E (clock (cworld st)) p 100 ha))
    as [[qs quota]|e]; [|reflexivity].
  unfold bind at 1.
  destruct (add_new_questions_quiet E qs 0 (after_get E p ha st) HE) as [n ->].
  cbv zeta. unfold bind at 1.
  destruct (Z.eq_dec si 0) as [->|Hsi]; [reflexivity|].
  rewrite (interval_save_quiet E si p output_file _ HE Hsi).
  apply Z.eqb_neq in Hsi. rewrite Hsi.
  destruct (quota <? 5); [reflexivity|].
  destruct (length qs =? 0)%nat.
  - unfold bind at 1. unfold bind at 1. rewrite outside_fetch.
    match goal with
    | |- context [page_result (get_questions E ?n (p + 1) 100 ha)] =>
        destruct (page_result (get_questions E n (p + 1) 100 ha))
          as [[nq nquota]|e]; [|reflexivity]
    end.
    unfold ret at 1. destruct (length nq =? 0)%nat; [reflexivity|].
    unfold bind, outside, sleep, ret. rewrite HE. reflexivity.
  - unfold bind at 1. unfold ret at 1.
    unfold bind, outside, sleep, ret. rewrite HE. reflexivity.
Qed.

Lemma requested_pages_app tr1 tr2 :
  requested_pages (tr1 ++ tr2) = requested_pages tr1 ++ requested_pages tr2.
Proof. unfold requested_pages. apply omap_app. Qed.

Lemma after_interval_requested si p output_file st :
  requested_pages (trace (cworld (after_interval si p output_file st)))
  = requested_pages (trace (cworld st)).
Proof.
  rewrite after_interval_trace, requested_pages_app.
  destruct (p mod si =? 0); simpl; rewrite app_nil_r; reflexivity.
Qed.

Lemma after_interval_existing si p output_file st :
  existing_ids (after_interval si p output_file st) = existing_ids st.
Proof. unfold after_interval. destruct (p mod si =? 0); reflexivity. Qed.

(** X3: when nothing fails outside, a page that comes with a quota
    below 5 is the last one: its questions are merged, the save of the
    interval is made when due, the loop ends, and the collector saves
    and returns the collection without another request. *)
Theorem low_quota_stops_after_page (E : env) mp sp ha si output_file st qs quota :
  quiet E -> si <> 0 -> 0 < mp ->
  page_result (get_questions E (clock (cworld st)) sp 100 ha) = Ok (qs, quota) ->
  quota < 5 ->
  let st1 := after_interval si sp output_file (merged qs (after_get E sp ha st)) in
  collect_loop E mp sp ha si output_file st = (Ok (Broke LowQuota), st1)
  /\ collect_from E mp sp ha si output_file st
     = (Ok (all_questions st1), after_save output_file st1)
  /\ requested_pages (trace (cworld (after_save output_file st1)))
     = requested_pages (trace (cworld st)) ++ [sp]
  /\ (forall q, q ∈ qs -> question_id q ∈ existing_ids st1).
Proof.
  intros HE Hsi Hmp Hr Hq st1.
  assert (Hloop : collect_loop E mp sp ha si output_file st
                  = (Ok (Broke LowQuota), st1)).
  { apply collect_loop_break; [exact Hmp|].
    rewrite (collect_page_quiet E ha si output_file sp st HE), Hr. cbv zeta.
    apply Z.eqb_neq in Hsi. rewrite Hsi.
    apply Z.ltb_lt in Hq. rewrite Hq. reflexivity. }
  split; [exact Hloop|].
  destruct (collect_from_loop_ok E _ _ _ _ _ _ _ _ HE Hloop) as [_ Hfrom].
  split; [exact Hfrom|]. split.
  - simpl. rewrite requested_pages_app. simpl. rewrite app_nil_r.
    subst st1. rewrite after_interval_requested.
    destruct (merged_outside qs (after_get E sp ha st)) as [-> _]. simpl.
    rewrite requested_pages_app. reflexivity.
  - intros q Hq'. subst st1. rewrite after_interval_existing.
    apply merged_existing. exact Hq'.
Qed.

Lemma low_quota_stops_after_page_witness :
  let E := mock_env (fun p => ok_response [item p] 3) no_answers in
  let run := collect_all_questions E 10 1 true 5 "nlp_questions.json"
               empty_world in
  collect_loop E 10 1 true 5 "nlp_questions.json" (collect_init [] empty_world)
  = (Ok (Broke LowQuota),
     after_interval 5 1 "nlp_questions.json"
       (merged [record_of_item 1]
          (after_get E 1 true (collect_init [] empty_world))))
  /\ fst run = Ok [record_of_item 1]
  /\ requested_pages (trace (snd run)) = [1].
Proof.
  intros E run.
  destruct (low_quota_stops_after_page E 10 1 true 5 "nlp_questions.json"
              (collect_init [] empty_world) [record_of_item 1] 3
              (mock_env_quiet _ _) ltac:(lia) ltac:(lia) eq_refl ltac:(lia))
    as (Hloop & _).
  split; [exact Hloop|]. vm_compute. split; reflexivity.
Defined.

(** X4: an interval of zero makes the test [page_num % save_interval]
    raise on the first page, after the merge of its questions: when
    nothing fails outside, the [try] statement catches the
    [ZeroDivisionError], no second page is requested, and the
    collector saves and returns the collection with that one page. *)
Theorem zero_interval_stops_after_first_page (E : env) mp sp ha output_file st
    qs quota :
  quiet E -> 0 < mp ->
  page_result (get_questions E (clock (cworld st)) sp 100 ha) = Ok (qs, quota) ->
  let st1 := merged qs (after_get E sp ha st) in
  collect_try E mp sp ha 0 output_file st = (Ok (Failed ZeroDivisionError), st1)
  /\ collect_from E mp sp ha 0 output_file st
     = (Ok (all_questions st1), after_save output_file st1)
  /\ requested_pages (trace (cworld (after_save output_file st1)))
     = requested_pages (trace (cworld st)) ++ [sp].
Proof.
  intros HE Hmp Hr st1.
  assert (Hloop : collect_loop E mp sp ha 0 output_file st
                  = (Raise ZeroDivisionError, st1)).
  { unfold collect_loop. rewrite (range_first sp mp Hmp). simpl.
    unfold bind. rewrite (collect_page_quiet E ha 0 output_file sp st HE), Hr.
    reflexivity. }
  assert (Htry : collect_try E mp sp ha 0 output_file st
                 = (Ok (Failed ZeroDivisionError), st1)).
  { unfold collect_try, try_except, bind. rewrite Hloop. reflexivity. }
  split; [exact Htry|]. split.
  - unfold collect_from, bind. rewrite Htry.
    unfold get_all_questions, outside, save_questions, write_file. simpl.
    rewrite HE. reflexivity.
  - simpl. rewrite requested_pages_app. simpl. rewrite app_nil_r. subst st1.
    destruct (merged_outside qs (after_get E sp ha st)) as [-> _]. simpl.
    rewrite requested_pages_app. reflexivity.
Qed.

Lemma zero_interval_stops_after_first_page_witness :
  let E := mock_env one_per_page no_answers in
  let run := collect_all_questions E 10 1 true 0 "nlp_questions.json"
               empty_world in
  fst (collect_try E 10 1 true 0 "nlp_questions.json"
         (collect_init [] empty_world)) = Ok (Failed ZeroDivisionError)
  /\ fst run = Ok [record_of_item 1]
  /\ requested_pages (trace (snd run)) = [1].
Proof.
  intros E run.
  destruct (zero_interval_stops_after_first_page E 10 1 true "nlp_questions.json"
              (collect_init [] empty_world) [record_of_item 1] 100
              (mock_env_quiet _ _) ltac:(lia) eq_refl)
    as (Htry & _).
  split; [rewrite Htry; reflexivity|]. vm_compute. split; reflexivity.
Defined.

Lemma range_empty lo n : n <= 0 -> range lo (lo + n) = [].
Proof.
  intros Hn. unfold range. replace (Z.to_nat (lo + n - lo)) with 0%nat by lia.
  reflexivity.
Qed.

(** X5: with [max_pages] at zero or below the range is empty: the
    collector makes no request, and goes to the final save with the
    collection that it loaded, so that it rewrites the file with what
    the file stored, or creates it with an empty collection. *)
Theorem no_pages_only_resaves (E : env) mp sp ha si output_file w :
  mp <= 0 ->
  (forall rows, files w !! output_file <> Some (CsvTable rows)) ->
  files w !! output_file <> Some Unreadable ->
  let st := collect_init (stored w output_file) w in
  collect_try E mp sp ha si output_file st = (Ok Completed, st)
  /\ collect_all_questions E mp sp ha si output_file w
     = (fst (final_save E output_file st), cworld (snd (final_save E output_file st)))
  /\ (fault E (clock w) = None ->
      collect_all_questions E mp sp ha si output_file w
      = (Ok (stored w output_file),
         advance (record (EvSave output_file (stored w output_file))
                    (put_file output_file
                       (JsonQuestions (stored w output_file)) w)))).
Proof.
  intros Hmp Hcsv Hunr st.
  assert (Htry : collect_try E mp sp ha si output_file st = (Ok Completed, st)).
  { unfold collect_try, try_except, bind, collect_loop.
    rewrite (range_empty sp mp Hmp). reflexivity. }
  assert (Hfrom : collect_from E mp sp ha si output_file st
                  = final_save E output_file st).
  { unfold collect_from, bind. rewrite Htry.
    unfold get_all_questions, outside, save_questions, write_file, final_save.
    simpl. destruct (fault E (clock w)); reflexivity. }
  assert (Hall : collect_all_questions E mp sp ha si output_file w
                 = (fst (final_save E output_file st),
                    cworld (snd (final_save E output_file st)))).
  { unfold collect_all_questions, path_exists, load_questions.
    subst st. unfold stored in *.
    destruct (files w !! output_file) as [[qs|rows|]|] eqn:Hf.
    - rewrite bool_decide_eq_true_2 by eauto. rewrite Hf, Hfrom.
      destruct (final_save E output_file _); reflexivity.
    - destruct (Hcsv rows eq_refl).
    - congruence.
    - rewrite bool_decide_eq_false_2 by (intros [? ?]; discriminate).
      unfold ret. rewrite Hfrom.
      destruct (final_save E output_file _); reflexivity. }
  split; [exact Htry|]. split; [exact Hall|].
  intros Hf. rewrite Hall. unfold final_save. subst st. simpl. rewrite Hf.
  reflexivity.
Qed.

Lemma no_pages_only_resaves_witness :
  let E := mock_env one_per_page no_answers in
  let run := collect_all_questions E 0 1 true 5 "nlp_questions.json" empty_world in
  fst run = Ok []
  /\ files (snd run) !! "nlp_questions.json" = Some (JsonQuestions [])
  /\ map brief (trace (snd run)) = [("save", 0)].
Proof.
  intros E run.
  destruct (no_pages_only_resaves E 0 1 true 5 "nlp_questions.json" empty_world
              ltac:(lia) ltac:(intros rows; discriminate) ltac:(discriminate))
    as (_ & _ & Hrun).
  unfold run. rewrite (Hrun eq_refl). vm_compute. repeat split; reflexivity.
Defined.

(* ================================================================= *)
(** ** More on the collector: a second run *)

Lemma collect_try_caught (E : env) mp sp ha si output_file st r st1 :
  raises_caught E ->
  collect_loop E mp sp ha si output_file st = (r, st1) ->
  collect_try E mp sp ha si output_file st = (Ok (path_of r), st1).
Proof.
  intros HE Hloop.
  pose proof (caught_collect_loop E HE mp sp ha si output_file st I) as Hc.
  unfold collect_try, try_except, bind. rewrite Hloop in *.
  destruct r as [l|e]; [reflexivity|].
  destruct Hc as [->|He]; [reflexivity|].
  destruct e; try discriminate; reflexivity.
Qed.

Lemma collect_from_quiet (E : env) mp sp ha si output_file st path st1 :
  quiet E ->
  collect_try E mp sp ha si output_file st = (Ok path, st1) ->
  collect_from E mp sp ha si output_file st
  = (Ok (all_questions st1), after_save output_file st1).
Proof.
  intros HE Htry. unfold collect_from, bind. rewrite Htry.
  unfold get_all_questions, outside, save_questions, write_file. simpl.
  rewrite HE. reflexivity.
Qed.

Section SecondRun.

Context (E : env) (HE : quiet E) (Hsteady : steady E).
Context (ha : bool) (si : Z) (output_file : string).

Lemma steady_page n p :
  page_result (get_questions E n p 100 ha)
  = page_result (get_questions E 0 p 100 ha).
Proof. rewrite (Hsteady n 0%nat). reflexivity. Qed.

(** An iteration forgets no seen id. *)
Lemma collect_page_keeps_ids p st r st' :
  collect_page E ha si output_file p st = (r, st') ->
  existing_ids st ⊆ existing_ids st'.
Proof.
  rewrite (collect_page_quiet E ha si output_file p st HE).
  destruct (page_result _) as [[qs quota]|e]; [|intros [= <- <-]; reflexivity].
  cbv zeta. pose proof (merged_existing qs (after_get E p ha st)) as [Hsub _].
  simpl in Hsub.
  destruct (si =? 0); [intros [= <- <-]; exact Hsub|].
  destruct (quota <? 5);
    [intros [= <- <-]; rewrite after_interval_existing; exact Hsub|].
  destruct (length qs =? 0)%nat.
  - destruct (page_result _) as [[nq nquota]|e];
      [destruct (length nq =? 0)%nat|];
      intros [= <- <-]; simpl; rewrite after_interval_existing; exact Hsub.
  - intros [= <- <-]. simpl. rewrite after_interval_existing. exact Hsub.
Qed.

Lemma for_each_keeps_ids l st r st' :
  for_each l (collect_page E ha si output_file) st = (r, st') ->
  existing_ids st ⊆ existing_ids st'.
Proof.
  revert st. induction l as [|p l IH]; intros st; simpl.
  - intros [= <- <-]. reflexivity.
  - unfold bind at 1.
    destruct (collect_page E ha si output_file p st) as [[[|why]|e] st1] eqn:Hp;
      apply collect_page_keeps_ids in Hp.
    + intros Hrest. apply IH in Hrest. etransitivity; eassumption.
    + intros [= <- <-]. exact Hp.
    + intros [= <- <-]. exact Hp.
Qed.

(** An iteration from a state that has already seen all the ids that
    the same iteration left in another state: it ends in the same way,
    and adds nothing. *)
Lemma collect_page_again p st1 r st1' st2 :
  collect_page E ha si output_file p st1 = (r, st1') ->
  existing_ids st1' ⊆ existing_ids st2 ->
  exists st2',
    collect_page E ha si output_file p st2 = (r, st2')
    /\ all_questions st2' = all_questions st2
    /\ existing_ids st2' = existing_ids st2.
Proof.
  rewrite (collect_page_quiet E ha si output_file p st1 HE).
  rewrite (collect_page_quiet E ha si output_file p st2 HE).
  rewrite (steady_page (clock (cworld st1)) p),
          (steady_page (clock (cworld st2)) p).
  destruct (page_result (get_questions E 0 p 100 ha)) as [[qs quota]|e].
  2: { intros [= <- <-] _. eexists. split; [reflexivity|]. auto. }
  cbv zeta.
  assert (Hknown : existing_ids (merged qs (after_get E p ha st1))
                   ⊆ existing_ids st2 ->
                   all_questions (merged qs (after_get E p ha st2))
                   = all_questions st2
                   /\ existing_ids (merged qs (after_get E p ha st2))
                      = existing_ids st2).
  { intros Hsub. apply (merged_known qs (after_get E p ha st2)).
    intros q Hq. apply Hsub. apply merged_existing. exact Hq. }
  destruct (si =? 0).
  { intros [= <- <-] Hsub. eexists. split; [reflexivity|]. auto. }
  match goal with
  | |- context [get_questions E (clock (cworld ?a)) (p + 1) 100 ha] =>
      rewrite (steady_page (clock (cworld a)) (p + 1))
  end.
  match goal with
  | |- context [get_questions E (clock (cworld ?a)) (p + 1) 100 ha] =>
      rewrite (steady_page (clock (cworld a)) (p + 1))
  end.
  destruct (quota <? 5).
  { intros [= <- <-] Hsub. rewrite after_interval_existing in Hsub.
    eexists. split; [reflexivity|].
    rewrite after_interval_all, after_interval_existing. auto. }
  destruct (length qs =? 0)%nat.
  - destruct (page_result (get_questions E 0 (p + 1) 100 ha))
      as [[nq nquota]|e]; [destruct (length nq =? 0)%nat|];
      intros [= <- <-] Hsub; simpl in Hsub;
      rewrite after_interval_existing in Hsub;
      (eexists; split; [reflexivity|]); simpl;
      rewrite after_interval_all, after_interval_existing; auto.
  - intros [= <- <-] Hsub. simpl in Hsub.
    rewrite after_interval_existing in Hsub.
    eexists. split; [reflexivity|]. simpl.
    rewrite after_interval_all, after_interval_existing. auto.
Qed.

Lemma for_each_again l st1 r st1' st2 :
  for_each l (collect_page E ha si output_file) st1 = (r, st1') ->
  existing_ids st1' ⊆ existing_ids st2 ->
  exists st2',
    for_each l (collect_page E ha si output_file) st2 = (r, st2')
    /\ all_questions st2' = all_questions st2
    /\ existing_ids st2' = existing_ids st2.
Proof.
  revert st1 st2. induction l as [|p l IH]; intros st1 st2; simpl.
  - intros [= <- <-] _. eexists. split; [reflexivity|]. auto.
  - unfold bind at 1.
    destruct (collect_page E ha si output_file p st1) as [c st1a] eqn:Hp.
    intros Hrest Hsub.
    assert (Hsub1 : existing_ids st1a ⊆ existing_ids st2).
    { destruct c as [[|why]|e].
      - apply for_each_keeps_ids in Hrest. etransitivity; eassumption.
      - injection Hrest as _ <-. exact Hsub.
      - injection Hrest as _ <-. exact Hsub. }
    destruct (collect_page_again _ _ _ _ _ Hp Hsub1)
      as (st2a & Hp2 & Hall & Hex).
    unfold bind. rewrite Hp2. destruct c as [[|why]|e].
    + rewrite <- Hex in Hsub. destruct (IH _ _ Hrest Hsub)
        as (st2' & Hrun & Hall' & Hex').
      exists st2'. split; [exact Hrun|]. split; congruence.
    + injection Hrest as <- _. exists st2a. auto.
    + injection Hrest as <- _. exists st2a. auto.
Qed.

End SecondRun.

(** One run from a file that loads, when nothing fails outside. *)
Lemma collect_all_questions_quiet (E : env) mp sp ha si output_file w l :
  quiet E -> raises_caught E ->
  files w !! output_file = Some (JsonQuestions l)
  \/ (files w !! output_file = None /\ l = []) ->
  exists r st1,
    collect_loop E mp sp ha si output_file (collect_init l w) = (r, st1)
    /\ collect_all_questions E mp sp ha si output_file w
       = (Ok (all_questions st1), cworld (after_save output_file st1))
    /\ existing_ids st1 = list_to_set (ids (all_questions st1)).
Proof.
  intros HE Hcaught Hfile.
  destruct (collect_loop E mp sp ha si output_file (collect_init l w))
    as [r st1] eqn:Hloop.
  exists r, st1. split; [reflexivity|].
  assert (Hfrom : collect_from E mp sp ha si output_file (collect_init l w)
                  = (Ok (all_questions st1), after_save output_file st1)).
  { eapply collect_from_quiet; [exact HE|].
    apply collect_try_caught; eassumption. }
  split.
  - unfold collect_all_questions, path_exists.
    destruct Hfile as [Hf|[Hf ->]]; rewrite Hf.
    + rewrite bool_decide_eq_true_2 by eauto.
      unfold load_questions. rewrite Hf, Hfrom. reflexivity.
    + rewrite bool_decide_eq_false_2 by (intros [? ?]; discriminate).
      unfold ret. rewrite Hfrom. reflexivity.
  - pose proof (hoare_for_each (collector_inv output_file l (trace w))
                  (range sp (sp + mp))
                  (collect_page E ha si output_file)
                  (fun _ => collector_inv output_file l (trace w))
                  (fun p _ => hoare_collect_page E output_file l (trace w) ha si p)
                  (collect_init l w)) as Hinv.
    unfold collect_loop in Hloop. rewrite Hloop in Hinv.
    assert (Hinit : collector_inv output_file l (trace w) (collect_init l w)).
    { split; [reflexivity|]. exists []. simpl. rewrite app_nil_r.
      split; [reflexivity|]. split; [constructor|].
      split; [intros x Hx; inversion Hx|]. split; [intros x Hx; inversion Hx|].
      split; [exists []; rewrite app_nil_r; reflexivity|].
      intros qs Hqs. exists [], []. rewrite app_nil_r. split; [|reflexivity].
      destruct Hfile as [Hf|[Hf _]]; congruence. }
    specialize (Hinv Hinit). destruct r; destruct Hinv as [Hids _]; exact Hids.
Qed.

(** X6: against a server that answers every page request in the same
    way at all times, with no failure and no interruption, a second run
    of the collector with the same arguments returns what the first
    returned and leaves the output file as the first left it: nothing
    is added twice and nothing is lost. *)
Theorem second_run_changes_nothing (E : env) mp sp ha si output_file w0 :
  quiet E -> steady E -> raises_caught E ->
  let run1 := collect_all_questions E mp sp ha si output_file w0 in
  let run2 := collect_all_questions E mp sp ha si output_file (snd run1) in
  fst run2 = fst run1
  /\ files (snd run2) !! output_file = files (snd run1) !! output_file.
Proof.
  intros HE Hsteady Hcaught run1 run2.
  assert (Hcases :
    (exists l, files w0 !! output_file = Some (JsonQuestions l)
               \/ (files w0 !! output_file = None /\ l = []))
    \/ run1 = (Raise JSONDecodeError, w0)).
  { subst run1. unfold collect_all_questions, path_exists.
    destruct (files w0 !! output_file) as [[l0|rows|]|] eqn:Hf.
    - left. eauto.
    - right. rewrite bool_decide_eq_true_2 by eauto.
      unfold load_questions. rewrite Hf. reflexivity.
    - right. rewrite bool_decide_eq_true_2 by eauto.
      unfold load_questions. rewrite Hf. reflexivity.
    - left. exists []. auto. }
  destruct Hcases as [[l Hfile]|Hfail].
  - destruct (collect_all_questions_quiet E mp sp ha si output_file w0 l
                HE Hcaught Hfile) as (r & st1 & Hloop1 & Hrun1 & Hids1).
    fold run1 in Hrun1.
    assert (Hfile1 : files (snd run1) !! output_file
                     = Some (JsonQuestions (all_questions st1))).
    { rewrite Hrun1. simpl. apply lookup_insert_eq. }
    destruct (collect_all_questions_quiet E mp sp ha si output_file (snd run1)
                (all_questions st1) HE Hcaught (or_introl Hfile1))
      as (r2 & st2 & Hloop2 & Hrun2 & _).
    fold run2 in Hrun2.
    unfold collect_loop in Hloop1, Hloop2.
    destruct (for_each_again E HE Hsteady ha si output_file _ _ _ _
                (collect_init (all_questions st1) (snd run1)) Hloop1)
      as (st2' & Hagain & Hall & _).
    { simpl. rewrite Hids1. reflexivity. }
    rewrite Hloop2 in Hagain. injection Hagain as _ <-. simpl in Hall.
    rewrite Hrun2, Hrun1. simpl. rewrite Hall.
    split; [reflexivity|]. rewrite !lookup_insert_eq. reflexivity.
  - assert (Hrun2 : run2 = run1).
    { unfold run2. rewrite Hfail. simpl. exact Hfail. }
    rewrite Hrun2. auto.
Qed.

Lemma second_run_changes_nothing_witness :
  let E := mock_env gap_on_page_2 no_answers in
  let out := "nlp_questions.json" in
  let run1 := collect_all_questions E 3 1 true 2 out empty_world in
  let run2 := collect_all_questions E 3 1 true 2 out (snd run1) in
  fst run1 = Ok [record_of_item 1; record_of_item 9]
  /\ fst run2 = fst run1
  /\ files (snd run2) !! out = files (snd run1) !! out.
Proof.
  intros E out run1 run2. split; [vm_compute; reflexivity|].
  apply (second_run_changes_nothing E 3 1 true 2 out empty_world).
  - apply mock_env_quiet.
  - intros n n' page pagesize ha. reflexivity.
  - split; [|split].
    + intros n f. discriminate.
    + intros n page pagesize ha e. simpl. unfold gap_on_page_2, ok_response.
      repeat destruct (_ =? _); discriminate.
    + intros n page pagesize ha r e. simpl. unfold gap_on_page_2, ok_response.
      repeat destruct (_ =? _); intros [= <-]; discriminate.
Defined.

(* ================================================================= *)
(** ** More on the collector: what it requests and what it writes *)

Lemma written_files_app tr1 tr2 :
  written_files (tr1 ++ tr2) = written_files tr1 ++ written_files tr2.
Proof. unfold written_files. apply omap_app. Qed.

(** The requests and the writes of one iteration. *)
Lemma collect_page_requests (E : env) ha si output_file p st r st' :
  collect_page E ha si output_file p st = (r, st') ->
  exists seg,
    trace (cworld st') = trace (cworld st) ++ seg
    /\ (requested_pages seg = [p] \/ requested_pages seg = [p; p + 1])
    /\ Forall (eq output_file) (written_files seg)
    /\ (forall f, f <> output_file ->
                  files (cworld st') !! f = files (cworld st) !! f).
Proof.
  unfold collect_page, bind. rewrite outside_fetch.
  set (resp := get_questions E (clock (cworld st)) p 100 ha).
  assert (Hput : forall (w : world) x f,
            f <> output_file ->
            files (put_file output_file x w) !! f = files w !! f).
  { intros w x f Hf. simpl. apply lookup_insert_ne. congruence. }
  destruct (page_result resp) as [[qs quota]|e].
  2: { intros [= <- <-]. eexists. split; [reflexivity|]. simpl. auto. }
  destruct (add_new_questions E qs 0 _) as [[n|e] st1] eqn:Hadd;
    apply add_new_questions_outside in Hadd as [Htr Hfl]; simpl in Htr, Hfl.
  2: { intros [= <- <-]. eexists. split; [exact Htr|]. simpl.
       rewrite Hfl. auto. }
  destruct (si =? 0).
  { unfold throw. intros [= <- <-]. eexists. split; [exact Htr|]. simpl.
    rewrite Hfl. auto. }
  destruct (p mod si =? 0).
  - unfold get_all_questions, outside, save_questions, write_file. simpl.
    destruct (fault E (clock (cworld st1))) as [f|]; simpl.
    { intros [= <- <-]. eexists. simpl.
      split; [destruct (torn f); simpl; exact Htr|]. simpl.
      split; [auto|]. split; [constructor|].
      intros f' Hf'. destruct (torn f); [rewrite Hput by exact Hf'|];
        rewrite Hfl; reflexivity. }
    destruct (quota <? 5).
    { intros [= <- <-]. eexists. simpl. rewrite Htr, <- app_assoc.
      split; [reflexivity|]. simpl. split; [auto|].
      split; [repeat constructor|].
      intros f' Hf'. rewrite lookup_insert_ne by congruence. rewrite Hfl.
      reflexivity. }
    destruct (length qs =? 0)%nat.
    + rewrite fetch_nlp_questions_eq. simpl.
      destruct (page_result _) as [[nq nquota]|e].
      2: { intros [= <- <-]. eexists. simpl. rewrite Htr, <- !app_assoc.
           split; [reflexivity|]. simpl. split; [auto|].
           split; [repeat constructor|].
           intros f' Hf'. rewrite lookup_insert_ne by congruence. rewrite Hfl.
           reflexivity. }
      destruct (length nq =? 0)%nat.
      { intros [= <- <-]. eexists. simpl. rewrite Htr, <- !app_assoc.
        split; [reflexivity|]. simpl. split; [auto|].
        split; [repeat constructor|].
        intros f' Hf'. rewrite lookup_insert_ne by congruence. rewrite Hfl.
        reflexivity. }
      unfold sleep. simpl. destruct (fault E _); intros [= <- <-]; eexists; simpl;
        rewrite Htr, <- !app_assoc; (split; [reflexivity|]); simpl;
        (split; [auto|]); (split; [repeat constructor|]);
        intros f' Hf'; rewrite lookup_insert_ne by congruence; rewrite Hfl;
        reflexivity.
    + unfold ret, sleep. simpl.
      destruct (fault E _); intros [= <- <-]; eexists; simpl;
        rewrite Htr, <- !app_assoc; (split; [reflexivity|]); simpl;
        (split; [auto|]); (split; [repeat constructor|]);
        intros f' Hf'; rewrite lookup_insert_ne by congruence; rewrite Hfl;
        reflexivity.
  - unfold ret at 1.
    destruct (quota <? 5).
    { intros [= <- <-]. eexists. split; [exact Htr|]. simpl. rewrite Hfl. auto. }
    destruct (length qs =? 0)%nat.
    + unfold outside. rewrite fetch_nlp_questions_eq. simpl.
      destruct (page_result _) as [[nq nquota]|e].
      2: { intros [= <- <-]. eexists. simpl. rewrite Htr, <- !app_assoc.
           split; [reflexivity|]. simpl. rewrite Hfl. auto. }
      destruct (length nq =? 0)%nat.
      { intros [= <- <-]. eexists. simpl. rewrite Htr, <- !app_assoc.
        split; [reflexivity|]. simpl. rewrite Hfl. auto. }
      unfold sleep. simpl. destruct (fault E _); intros [= <- <-]; eexists; simpl;
        rewrite Htr, <- !app_assoc; (split; [reflexivity|]); simpl;
        rewrite Hfl; auto.
    + unfold ret, outside, sleep. simpl.
      destruct (fault E _); intros [= <- <-]; eexists; simpl;
        rewrite ?Htr, <- ?app_assoc; (split; [reflexivity|]); simpl;
        rewrite Hfl; auto.
Qed.

Lemma range_bounds lo hi : Forall (fun p => lo <= p < hi) (range lo hi).
Proof.
  unfold range. apply Forall_forall. intros x Hx.
  apply list_elem_of_fmap in Hx as (i & -> & Hi).
  apply elem_of_seq in Hi. lia.
Qed.

Lemma range_length lo hi : length (range lo hi) = Z.to_nat (hi - lo).
Proof. unfold range. rewrite length_map, length_seq. reflexivity. Qed.

(** The requests and the writes of the loop. *)
Lemma for_each_requests (E : env) ha si output_file lo hi l st r st' :
  Forall (fun p => lo <= p < hi) l ->
  for_each l (collect_page E ha si output_file) st = (r, st') ->
  exists seg,
    trace (cworld st') = trace (cworld st) ++ seg
    /\ Forall (fun p => lo <= p <= hi) (requested_pages seg)
    /\ (length (requested_pages seg) <= 2 * length l)%nat
    /\ Forall (eq output_file) (written_files seg)
    /\ (forall f, f <> output_file ->
                  files (cworld st') !! f = files (cworld st) !! f).
Proof.
  intros Hl. revert st. induction Hl as [|p l Hp Hl IH]; intros st.
  - intros [= <- <-]. exists []. rewrite app_nil_r. simpl.
    repeat split; auto.
  - simpl. unfold bind.
    destruct (collect_page E ha si output_file p st) as [c st1] eqn:Hpage.
    apply collect_page_requests in Hpage
      as (seg1 & Htr1 & Hreq1 & Hw1 & Hf1).
    assert (Hb1 : Forall (fun p => lo <= p <= hi) (requested_pages seg1)
                  /\ (length (requested_pages seg1) <= 2)%nat).
    { destruct Hreq1 as [-> | ->]; split; simpl; try lia;
        repeat constructor; lia. }
    destruct Hb1 as [Hb1 Hn1].
    assert (Hstop : forall r0, (r0, st1) = (r, st') ->
              exists seg,
                trace (cworld st') = trace (cworld st) ++ seg
                /\ Forall (fun p => lo <= p <= hi) (requested_pages seg)
                /\ (length (requested_pages seg) <= 2 * S (length l))%nat
                /\ Forall (eq output_file) (written_files seg)
                /\ (forall f, f <> output_file ->
                      files (cworld st') !! f = files (cworld st) !! f)).
    { intros r0 [= _ <-]. exists seg1. repeat split; auto. lia. }
    destruct c as [[|why]|e]; [|apply Hstop..].
    intros Hrest. apply IH in Hrest as (seg2 & Htr2 & Hb2 & Hn2 & Hw2 & Hf2).
    exists (seg1 ++ seg2). rewrite Htr2, Htr1, <- app_assoc.
    split; [reflexivity|].
    rewrite requested_pages_app, written_files_app, length_app.
    split; [apply Forall_app; auto|]. split; [lia|].
    split; [apply Forall_app; auto|].
    intros f Hf. rewrite Hf2, Hf1 by exact Hf. reflexivity.
Qed.

(** The [try] statement ends in the state in which the loop ends. *)
Lemma collect_try_state (E : env) mp sp ha si output_file st :
  snd (collect_try E mp sp ha si output_file st)
  = snd (collect_loop E mp sp ha si output_file st).
Proof.
  unfold collect_try, try_except, bind.
  destruct (collect_loop E mp sp ha si output_file st) as [[l|e] st1];
    [reflexivity|].
  destruct e; reflexivity.
Qed.

(** The requests and the writes from the [try] statement on. *)
Lemma collect_from_requests (E : env) mp sp ha si output_file st r st' :
  collect_from E mp sp ha si output_file st = (r, st') ->
  exists seg,
    trace (cworld st') = trace (cworld st) ++ seg
    /\ Forall (fun p => sp <= p <= sp + mp) (requested_pages seg)
    /\ (length (requested_pages seg) <= 2 * Z.to_nat mp)%nat
    /\ Forall (eq output_file) (written_files seg)
    /\ (forall f, f <> output_file ->
                  files (cworld st') !! f = files (cworld st) !! f).
Proof.
  intros Hfrom. unfold collect_from, bind in Hfrom.
  pose proof (collect_try_state E mp sp ha si output_file st) as Hst.
  destruct (collect_try E mp sp ha si output_file st) as [rt st1].
  simpl in Hst.
  destruct (collect_loop E mp sp ha si output_file st) as [rl st1'] eqn:Hloop.
  simpl in Hst. subst st1'. unfold collect_loop in Hloop.
  apply (for_each_requests E ha si output_file sp (sp + mp)) in Hloop
    as (seg & Htr & Hb & Hn & Hw & Hf); [|apply range_bounds].
  rewrite range_length in Hn. replace (sp + mp - sp) with mp in Hn by lia.
  destruct rt as [path|e].
  2: { injection Hfrom as _ <-. exists seg. auto. }
  unfold get_all_questions, outside, save_questions, write_file in Hfrom.
  simpl in Hfrom.
  destruct (fault E (clock (cworld st1))) as [fl|]; simpl in Hfrom;
    injection Hfrom as _ <-; simpl.
  - exists seg. split; [destruct (torn fl); exact Htr|].
    repeat (split; [assumption|]).
    intros f Hne. destruct (torn fl); simpl;
      rewrite ?lookup_insert_ne by congruence; auto.
  - exists (seg ++ [EvSave output_file (all_questions st1)]).
    rewrite Htr, <- app_assoc. split; [reflexivity|].
    rewrite requested_pages_app, written_files_app. simpl.
    rewrite app_nil_r. repeat (split; [assumption|]).
    split; [apply Forall_app; split; [assumption|repeat constructor]|].
    intros f Hne. rewrite lookup_insert_ne by congruence. auto.
Qed.

(** Loading the stored collection changes nothing outside. *)
Lemma load_stored_world output_file w :
  exists r,
    (if path_exists output_file w then load_questions output_file
     else ret []) w = (r, w).
Proof.
  destruct (path_exists output_file w); [|eexists; reflexivity].
  unfold load_questions.
  destruct (files w !! output_file) as [[| |]|]; eexists; reflexivity.
Qed.

(** X7: whatever the server and the file system do, a run of the
    collector requests only pages from [start_page] to
    [start_page + max_pages] (the last one only as the look-ahead of the
    end-of-results check), at most twice [max_pages] requests in all,
    writes no file but [output_file] and leaves every other file as it
    was. *)
Theorem collector_requests_and_writes (E : env) mp sp ha si output_file w0 :
  let run := collect_all_questions E mp sp ha si output_file w0 in
  exists seg,
    trace (snd run) = trace w0 ++ seg
    /\ Forall (fun p => sp <= p <= sp + mp) (requested_pages seg)
    /\ (length (requested_pages seg) <= 2 * Z.to_nat mp)%nat
    /\ Forall (eq output_file) (written_files seg)
    /\ (forall f, f <> output_file -> files (snd run) !! f = files w0 !! f).
Proof.
  intros run. subst run. unfold collect_all_questions.
  destruct (load_stored_world output_file w0) as [[loaded|e] ->].
  2: { exists []. rewrite app_nil_r. simpl. repeat split; auto. lia. }
  destruct (collect_from E mp sp ha si output_file (collect_init loaded w0))
    as [r st] eqn:Hfrom. simpl.
  apply collect_from_requests in Hfrom. exact Hfrom.
Qed.

(** The look-ahead does reach the page after the last of the range. *)
Example collector_requests_example :
  let E := mock_env empty_pages no_answers in
  requested_pages
    (trace (snd (collect_all_questions E 1 5 true 2 "q.json" empty_world)))
  = [5; 6].
Proof. vm_compute. reflexivity. Qed.

(* ================================================================= *)
(** ** The collector: when the interval save fires *)

Lemma page_segment_any si output_file p c seg :
  page_segment si output_file p true seg -> page_segment si output_file p c seg.
Proof.
  intros (resp & rest & -> & H1 & H2). exists resp, rest.
  split; [reflexivity|]. split; [exact H1|]. intros _. apply H2. reflexivity.
Qed.

Lemma page_segment_weaken si output_file p c seg :
  page_segment si output_file p c seg -> page_segment si output_file p false seg.
Proof.
  intros (resp & rest & -> & H1 & _). exists resp, rest.
  split; [reflexivity|]. split; [exact H1|discriminate].
Qed.

(** The events of one iteration. *)
Lemma collect_page_events (E : env) ha si output_file p st r st' :
  collect_page E ha si output_file p st = (r, st') ->
  exists seg,
    trace (cworld st') = trace (cworld st) ++ seg
    /\ page_segment si output_file p (is_ok r) seg.
Proof.
  unfold collect_page, bind. rewrite outside_fetch.
  set (resp := get_questions E (clock (cworld st)) p 100 ha).
  assert (Hnil : page_segment si output_file p false [EvGetQuestions p resp]).
  { exists resp, []. split; [reflexivity|]. split; [left; reflexivity|discriminate]. }
  destruct (page_result resp) as [[qs quota]|e].
  2: { intros [= <- <-]. eexists. split; [reflexivity|]. apply Hnil. }
  destruct (add_new_questions E qs 0 _) as [[n|e] st1] eqn:Hadd;
    apply add_new_questions_outside in Hadd as [Htr _]; simpl in Htr.
  2: { intros [= <- <-]. eexists. split; [exact Htr|]. apply Hnil. }
  destruct (si =? 0) eqn:Hsi.
  { unfold throw. intros [= <- <-]. eexists. split; [exact Htr|]. apply Hnil. }
  apply Z.eqb_neq in Hsi.
  assert (Hsaved : forall all tail c,
    p mod si = 0 -> written_files tail = [] ->
    page_segment si output_file p c
      (EvGetQuestions p resp :: EvSave output_file all :: tail)).
  { intros all tail c Hd Ht. exists resp, (EvSave output_file all :: tail).
    assert (Hw : written_files
                   (EvGetQuestions p resp :: EvSave output_file all :: tail)
                 = [output_file]).
    { change (written_files
                (EvGetQuestions p resp :: EvSave output_file all :: tail))
        with (output_file :: written_files tail).
      rewrite Ht. reflexivity. }
    split; [reflexivity|]. split; [right; auto|]. intros _. auto. }
  assert (Hplain : forall tail c,
    p mod si <> 0 -> written_files tail = [] ->
    page_segment si output_file p c (EvGetQuestions p resp :: tail)).
  { intros tail c Hd Ht. exists resp, tail.
    assert (Hw : written_files (EvGetQuestions p resp :: tail) = []).
    { change (written_files (EvGetQuestions p resp :: tail))
        with (written_files tail). exact Ht. }
    split; [reflexivity|]. split; [left; exact Hw|].
    intros _. split; [exact Hsi|]. intros; contradiction. }
  destruct (p mod si =? 0) eqn:Hdiv.
  - apply Z.eqb_eq in Hdiv.
    unfold get_all_questions, outside, save_questions, write_file. simpl.
    destruct (fault E (clock (cworld st1))) as [f|]; simpl.
    { intros [= <- <-]. eexists. simpl.
      split; [destruct (torn f); simpl; exact Htr|]. apply Hnil. }
    destruct (quota <? 5).
    { intros [= <- <-]. eexists. simpl. rewrite Htr, <- app_assoc.
      split; [reflexivity|]. apply Hsaved; [exact Hdiv|reflexivity]. }
    destruct (length qs =? 0)%nat.
    + rewrite fetch_nlp_questions_eq. simpl.
      destruct (page_result _) as [[nq nquota]|e].
      2: { intros [= <- <-]. eexists. simpl. rewrite Htr, <- !app_assoc.
           split; [reflexivity|]. apply Hsaved; [exact Hdiv|reflexivity]. }
      destruct (length nq =? 0)%nat.
      { intros [= <- <-]. eexists. simpl. rewrite Htr, <- !app_assoc.
        split; [reflexivity|]. apply Hsaved; [exact Hdiv|reflexivity]. }
      unfold sleep. simpl. destruct (fault E _); intros [= <- <-]; eexists; simpl;
        rewrite Htr, <- !app_assoc; (split; [reflexivity|]);
        (apply Hsaved; [exact Hdiv|reflexivity]).
    + unfold ret, sleep. simpl.
      destruct (fault E _); intros [= <- <-]; eexists; simpl;
        rewrite Htr, <- !app_assoc; (split; [reflexivity|]);
        (apply Hsaved; [exact Hdiv|reflexivity]).
  - apply Z.eqb_neq in Hdiv. unfold ret at 1.
    destruct (quota <? 5).
    { intros [= <- <-]. eexists. split; [exact Htr|].
      apply Hplain; [exact Hdiv|reflexivity]. }
    destruct (length qs =? 0)%nat.
    + unfold outside. rewrite fetch_nlp_questions_eq. simpl.
      destruct (page_result _) as [[nq nquota]|e].
      2: { intros [= <- <-]. eexists. simpl. rewrite Htr, <- !app_assoc.
           split; [reflexivity|]. apply Hplain; [exact Hdiv|reflexivity]. }
      destruct (length nq =? 0)%nat.
      { intros [= <- <-]. eexists. simpl. rewrite Htr, <- !app_assoc.
        split; [reflexivity|]. apply Hplain; [exact Hdiv|reflexivity]. }
      unfold sleep. simpl. destruct (fault E _); intros [= <- <-]; eexists; simpl;
        rewrite Htr, <- !app_assoc; (split; [reflexivity|]);
        (apply Hplain; [exact Hdiv|reflexivity]).
    + unfold ret, outside, sleep. simpl.
      destruct (fault E _); intros [= <- <-]; eexists; simpl;
        rewrite ?Htr, <- ?app_assoc; (split; [reflexivity|]);
        (apply Hplain; [exact Hdiv|reflexivity]).
Qed.

(** The events of the loop, iteration by iteration: every iteration but
    the last has run to its end, and so has the last unless the loop
    ends with an exception. *)
Lemma for_each_events (E : env) ha si output_file l st r st' :
  for_each l (collect_page E ha si output_file) st = (r, st') ->
  exists visited segs,
    visited `prefix_of` l
    /\ trace (cworld st') = trace (cworld st) ++ concat segs
    /\ length segs = length visited
    /\ (r = Ok Exhausted -> visited = l)
    /\ (forall (i : nat) p seg,
          visited !! i = Some p -> segs !! i = Some seg ->
          page_segment si output_file p false seg
          /\ ((S i < length visited)%nat \/ is_ok r = true ->
              page_segment si output_file p true seg)).
Proof.
  revert st. induction l as [|p l IH]; intros st; simpl.
  - intros [= <- <-]. exists [], []. simpl. rewrite app_nil_r.
    split; [reflexivity|]. split; [reflexivity|]. split; [reflexivity|].
    split; [reflexivity|]. intros i p seg Hp. discriminate.
  - unfold bind at 1.
    destruct (collect_page E ha si output_file p st) as [[[|why]|e] st1] eqn:Hp;
      apply collect_page_events in Hp as (seg & Htr & Hseg).
    + intros Hrest.
      destruct (IH _ Hrest) as (visited & segs & Hpre & Htr' & Hlen & Hex & Hall).
      exists (p :: visited), (seg :: segs).
      split; [apply prefix_cons; exact Hpre|].
      split; [simpl; rewrite Htr', Htr, <- app_assoc; reflexivity|].
      split; [simpl; rewrite Hlen; reflexivity|].
      split; [intros Hr; rewrite (Hex Hr); reflexivity|].
      intros [|i] p' seg' Hp' Hs'; simpl in Hp', Hs'.
      * injection Hp' as <-. injection Hs' as <-.
        split; [eapply page_segment_weaken; exact Hseg|]. intros _. exact Hseg.
      * destruct (Hall i p' seg' Hp' Hs') as [H1 H2]. split; [exact H1|].
        intros [Hi|Hr]; apply H2; [left; simpl in Hi; lia|right; exact Hr].
    + intros [= <- <-]. exists [p], [seg].
      split; [apply prefix_cons, prefix_nil|].
      split; [simpl; rewrite app_nil_r; exact Htr|].
      split; [reflexivity|]. split; [discriminate|].
      intros [|i] p' seg' Hp' Hs'; simpl in Hp', Hs'; [|discriminate].
      injection Hp' as <-. injection Hs' as <-.
      split; [eapply page_segment_weaken; exact Hseg|]. intros _. exact Hseg.
    + intros [= <- <-]. exists [p], [seg].
      split; [apply prefix_cons, prefix_nil|].
      split; [simpl; rewrite app_nil_r; exact Htr|].
      split; [reflexivity|]. split; [discriminate|].
      intros [|i] p' seg' Hp' Hs'; simpl in Hp', Hs'; [|discriminate].
      injection Hp' as <-. injection Hs' as <-.
      split; [exact Hseg|]. intros [Hi|Hr]; [simpl in Hi; lia|discriminate].
Qed.

(** When nothing fails outside and the interval is not zero, an
    iteration raises only what a page request raises. *)
Lemma collect_page_quiet_raise (E : env) ha si output_file p st e st' :
  quiet E -> si <> 0 ->
  collect_page E ha si output_file p st = (Raise e, st') ->
  exists p' resp,
    last (trace (cworld st')) = Some (EvGetQuestions p' resp)
    /\ page_result resp = Raise e.
Proof.
  intros HE Hsi. rewrite (collect_page_quiet E ha si output_file p st HE).
  destruct (page_result (get_questions E (clock (cworld st)) p 100 ha))
    as [[qs quota]|e0] eqn:Hr.
  2: { intros [= <- <-]. eexists _, _. simpl. rewrite last_snoc.
       split; [reflexivity|exact Hr]. }
  cbv zeta. apply Z.eqb_neq in Hsi. rewrite Hsi.
  destruct (quota <? 5); [discriminate|].
  destruct (length qs =? 0)%nat; [|discriminate].
  match goal with
  | |- context [page_result (get_questions E ?n (p + 1) 100 ha)] =>
      destruct (page_result (get_questions E n (p + 1) 100 ha))
        as [[nq nquota]|e1] eqn:Hr1
  end.
  - destruct (length nq =? 0)%nat; discriminate.
  - intros [= <- <-]. eexists _, _. simpl. rewrite last_snoc.
    split; [reflexivity|exact Hr1].
Qed.

Lemma for_each_quiet_raise (E : env) ha si output_file l st e st' :
  quiet E -> si <> 0 ->
  for_each l (collect_page E ha si output_file) st = (Raise e, st') ->
  exists p' resp,
    last (trace (cworld st')) = Some (EvGetQuestions p' resp)
    /\ page_result resp = Raise e.
Proof.
  intros HE Hsi. revert st. induction l as [|p l IH]; intros st; simpl.
  - discriminate.
  - unfold bind at 1.
    destruct (collect_page E ha si output_file p st) as [[[|why]|e0] st1] eqn:Hp.
    + apply IH.
    + discriminate.
    + intros [= <- <-]. eapply collect_page_quiet_raise; eassumption.
Qed.

(** C10: the events of the loop split into one segment for each page it
    visits, in the order of the range, each beginning with the request
    for its page.  A segment holds at most one write, which is of the
    output file, and holds one only if its page number is a multiple of
    [save_interval]; it holds one if the page number is a multiple and
    the iteration ran to its end, as every iteration but the last has,
    and the last too unless the loop ends with an exception.  The start
    page has no part in the test: with a positive interval no save
    comes before page [start_page + (- start_page) mod save_interval],
    the first multiple from the start page on, which is the page of
    index [(- start_page) mod save_interval] of the run: an index below
    [save_interval], and the last such index when the start page is
    one above a multiple.  When nothing
    fails outside and the interval is not zero, the loop ends with an
    exception only if a page request raises it. *)
Theorem interval_save_by_page_number (E : env) mp sp ha si output_file st r st' :
  collect_loop E mp sp ha si output_file st = (r, st') ->
  exists visited segs,
    visited `prefix_of` range sp (sp + mp)
    /\ trace (cworld st') = trace (cworld st) ++ concat segs
    /\ length segs = length visited
    /\ (r = Ok Exhausted -> visited = range sp (sp + mp))
    /\ (forall (i : nat) p seg,
          visited !! i = Some p -> segs !! i = Some seg ->
          p = sp + Z.of_nat i
          /\ (exists resp rest, seg = EvGetQuestions p resp :: rest)
          /\ (written_files seg = [] \/ written_files seg = [output_file])
          /\ (written_files seg <> [] -> si <> 0 /\ p mod si = 0)
          /\ ((S i < length visited)%nat \/ is_ok r = true ->
              si <> 0 /\ (p mod si = 0 -> written_files seg = [output_file]))
          /\ (0 < si -> written_files seg <> [] ->
              sp + (- sp) mod si <= p /\ (- sp) mod si <= Z.of_nat i)
          /\ (0 < si -> p = sp + (- sp) mod si ->
              (S i < length visited)%nat \/ is_ok r = true ->
              written_files seg = [output_file]))
    /\ (0 < si ->
        0 <= (- sp) mod si < si
        /\ ((- sp) mod si = si - 1 <-> (sp - 1) mod si = 0))
    /\ (quiet E -> si <> 0 ->
        forall e, r = Raise e ->
        exists p resp,
          last (trace (cworld st')) = Some (EvGetQuestions p resp)
          /\ page_result resp = Raise e).
Proof.
  unfold collect_loop. intros Hrun.
  destruct (for_each_events _ _ _ _ _ _ _ _ Hrun)
    as (visited & segs & Hpre & Htr & Hlen & Hex & Hall).
  exists visited, segs. repeat (split; [assumption|]).
  split.
  - intros i p seg Hp Hseg.
    assert (Hrange : range sp (sp + mp) !! i = Some p).
    { destruct Hpre as [k ->]. apply lookup_app_l_Some. exact Hp. }
    apply range_lookup in Hrange as [Hpi _].
    destruct (Hall i p seg Hp Hseg) as [(resp & rest & Heq & Hw & _) Hdone].
    assert (Honly : written_files seg <> [] -> si <> 0 /\ p mod si = 0).
    { intros Hne. destruct Hw as [Hw|(_ & H1 & H2)]; [contradiction|auto]. }
    assert (Hif : (S i < length visited)%nat \/ is_ok r = true ->
                  si <> 0 /\ (p mod si = 0 -> written_files seg = [output_file])).
    { intros Hc. destruct (Hdone Hc) as (resp' & rest' & _ & _ & Hcomplete).
      apply Hcomplete. reflexivity. }
    split; [exact Hpi|]. split; [eauto|].
    split; [destruct Hw as [Hw|(Hw & _)]; auto|].
    split; [exact Honly|]. split; [exact Hif|]. split.
    + intros Hsi Hne. destruct (Honly Hne) as [_ Hd].
      assert (Hfirst : sp + (- sp) mod si <= p)
        by (apply first_multiple_from; [exact Hsi|lia|exact Hd]).
      split; [exact Hfirst|lia].
    + intros Hsi Hp0 Hc. destruct (Hif Hc) as [_ Hd]. apply Hd.
      rewrite Hp0. apply first_multiple_is_multiple. exact Hsi.
  - split; [apply first_multiple_index|].
    intros HE Hsi e ->. eapply for_each_quiet_raise; eassumption.
Qed.

Lemma interval_save_by_page_number_witness :
  let E := mock_env one_per_page no_answers in
  let out := "nlp_questions.json" in
  let run := collect_loop E 6 11 true 5 out (collect_init [] empty_world) in
  written_files (trace (cworld (snd run))) = [out]
  /\ exists visited segs,
    visited `prefix_of` range 11 (11 + 6)
    /\ trace (cworld (snd run)) = trace empty_world ++ concat segs
    /\ length segs = length visited
    /\ (fst run = Ok Exhausted -> visited = range 11 (11 + 6))
    /\ (forall (i : nat) p seg,
          visited !! i = Some p -> segs !! i = Some seg ->
          p = 11 + Z.of_nat i
          /\ (exists resp rest, seg = EvGetQuestions p resp :: rest)
          /\ (written_files seg = [] \/ written_files seg = [out])
          /\ (written_files seg <> [] -> 5 <> 0 /\ p mod 5 = 0)
          /\ ((S i < length visited)%nat \/ is_ok (fst run) = true ->
              5 <> 0 /\ (p mod 5 = 0 -> written_files seg = [out]))
          /\ (0 < 5 -> written_files seg <> [] ->
              11 + (- 11) mod 5 <= p /\ (- 11) mod 5 <= Z.of_nat i)
          /\ (0 < 5 -> p = 11 + (- 11) mod 5 ->
              (S i < length visited)%nat \/ is_ok (fst run) = true ->
              written_files seg = [out]))
    /\ (0 < 5 ->
        0 <= (- 11) mod 5 < 5
        /\ ((- 11) mod 5 = 5 - 1 <-> (11 - 1) mod 5 = 0))
    /\ (quiet E -> 5 <> 0 ->
        forall e, fst run = Raise e ->
        exists p resp,
          last (trace (cworld (snd run))) = Some (EvGetQuestions p resp)
          /\ page_result resp = Raise e).
Proof.
  intros E out run. split; [vm_compute; reflexivity|].
  apply (interval_save_by_page_number E 6 11 true 5 out
           (collect_init [] empty_world) (fst run) (snd run)).
  apply surjective_pairing.
Defined.

(** C10 as stated fails where it says that the first save of the loop
    does not come after [save_interval] pages: from start page 11, which
    is no multiple of the interval 5, the first save comes at page 15,
    which is the fifth page of the run. *)
Lemma first_save_after_interval_pages :
  let E := mock_env one_per_page no_answers in
  let run := collect_loop E 6 11 true 5 "nlp_questions.json"
               (collect_init [] empty_world) in
  11 mod 5 <> 0
  /\ pages_to_first_save (trace (cworld (snd run))) = Some [11; 12; 13; 14; 15]
  /\ Z.of_nat (length [11; 12; 13; 14; 15]) = 5.
Proof.
  split; [intros H; vm_compute in H; discriminate|].
  vm_compute. split; reflexivity.
Qed.

(* ================================================================= *)
(** ** More on the answers: ties, any [top_n], and the batches *)

Lemma filter_insert_desc s x l :
  filter (fun a => ad_score a = s) (insert_desc x l)
  = filter (fun a => ad_score a = s) (x :: l).
Proof.
  induction l as [|y l IH]; simpl; [reflexivity|].
  destruct (ad_score x <? ad_score y) eqn:Hxy; [|reflexivity].
  apply Z.ltb_lt in Hxy.
  rewrite !filter_cons in *.
  destruct (decide (ad_score x = s)), (decide (ad_score y = s));
    try lia; rewrite IH; reflexivity.
Qed.

(** The sort is stable: answers of one score keep their order. *)
Lemma sort_desc_stable s l :
  filter (fun a => ad_score a = s) (sort_desc l)
  = filter (fun a => ad_score a = s) l.
Proof.
  induction l as [|x l IH]; [reflexivity|].
  change (sort_desc (x :: l)) with (insert_desc x (sort_desc l)).
  rewrite filter_insert_desc, !filter_cons, IH. reflexivity.
Qed.

Lemma slice_to_take {A} (l : list A) n :
  slice_to l n = take (kept (length l) n) l.
Proof.
  unfold slice_to, kept. destruct (n <? 0); [reflexivity|].
  destruct (Nat.le_gt_cases (Z.to_nat n) (length l)) as [H|H].
  - rewrite Nat.min_l by exact H. reflexivity.
  - rewrite Nat.min_r by lia. rewrite !take_ge by lia. reflexivity.
Qed.

Lemma kept_le len n : (kept len n <= len)%nat.
Proof. unfold kept. destruct (n <? 0) eqn:H; [apply Z.ltb_lt in H|]; lia. Qed.

Lemma filter_prefix {A} (P : A -> Prop) `{forall x, Decision (P x)} (l1 l2 : list A) :
  l1 `prefix_of` l2 -> filter P l1 `prefix_of` filter P l2.
Proof. intros [k ->]. rewrite filter_app. eexists. reflexivity. Qed.

(** X8: for any [top_n], also a negative one, the fetcher keeps of the
    other answers of a question the first [kept] of the sorted list:
    [top_n] of them if there are as many, and all but the last
    [-top_n] for a negative [top_n]; the scores decrease, and answers
    of one score stay in the order in which the server returned
    them. *)
Theorem others_sorted_and_cut (E : env) question_ids top_n w m w' :
  fetch_answers_for_questions E question_ids top_n w = (Ok m, w') ->
  exists new,
    trace w' = trace w ++ new
    /\ forall qid b,
         m !! qid = Some b ->
         let O := map (data_of E)
                    (not_accepted (answers_of qid (returned_answers new))) in
         others b = take (kept (length O) top_n) (sort_desc O)
         /\ length (others b) = kept (length O) top_n
         /\ sorted_desc (others b)
         /\ forall s,
              filter (fun a => ad_score a = s) (others b)
              `prefix_of` filter (fun a => ad_score a = s) O.
Proof.
  intros Hrun.
  destruct (fetch_answers_lookup E _ _ _ _ _ Hrun) as (new & Htr & Hm).
  exists new. split; [exact Htr|]. intros qid b. rewrite Hm.
  unfold bucket_after.
  destruct (answers_of qid (returned_answers new)) as [|a A]; [discriminate|].
  simpl. intros [= <-]. simpl.
  set (O := map (data_of E) (not_accepted (a :: A))).
  rewrite slice_to_take, sort_desc_length.
  split; [reflexivity|].
  split.
  { rewrite length_take, sort_desc_length. pose proof (kept_le (length O) top_n).
    lia. }
  split; [apply sorted_desc_take, sort_desc_sorted|].
  intros s. rewrite <- (sort_desc_stable s O).
  apply filter_prefix. apply prefix_take.
Qed.

Lemma others_sorted_and_cut_witness :
  let E := mock_env one_per_page five_answers in
  let run := fetch_answers_for_questions E [1] (-1) empty_world in
  let m := match fst run with Ok m => m | Raise _ => ∅ end in
  (map ad_score <$> (others <$> m !! 1)) = Some [9; 7; 5]
  /\ exists new,
       trace (snd run) = trace empty_world ++ new
       /\ forall qid b,
            m !! qid = Some b ->
            let O := map (data_of E)
                       (not_accepted (answers_of qid (returned_answers new))) in
            others b = take (kept (length O) (-1)) (sort_desc O)
            /\ length (others b) = kept (length O) (-1)
            /\ sorted_desc (others b)
            /\ forall s,
                 filter (fun a => ad_score a = s) (others b)
                 `prefix_of` filter (fun a => ad_score a = s) O.
Proof.
  intros E run m. split; [vm_compute; reflexivity|].
  apply (others_sorted_and_cut E [1] (-1) empty_world m (snd run)).
  vm_compute. reflexivity.
Defined.

Lemma requested_batches_app tr1 tr2 :
  requested_batches (tr1 ++ tr2) = requested_batches tr1 ++ requested_batches tr2.
Proof. unfold requested_batches. apply omap_app. Qed.

Lemma answer_responses_app tr1 tr2 :
  answer_responses (tr1 ++ tr2) = answer_responses tr1 ++ answer_responses tr2.
Proof. unfold answer_responses. apply omap_app. Qed.

(** The requests of the loop over the batches, from the [j]-th batch
    on: one request for each of the first [c] batches, where [c] is
    their number unless the loop ends early. *)
Lemma fetch_batches_requests (E : env) question_ids cnt :
  forall (j : nat) all_answers w r w',
    fetch_batches E question_ids (starts_from 100 j cnt) all_answers w = (r, w') ->
    exists new c,
      trace w' = trace w ++ new
      /\ (c <= cnt)%nat
      /\ requested_batches new
         = map (fun i => slice question_ids i (i + 100)) (starts_from 100 j c)
      /\ requested_pages new = []
      /\ written_files new = []
      /\ ((exists m, r = Ok m) ->
          Forall (fun x => stops_batches x = false) (answer_responses new) ->
          c = cnt).
Proof.
  induction cnt as [|cnt IH]; intros j acc w r w'.
  - simpl. intros [= <- <-]. exists [], 0%nat. rewrite app_nil_r.
    repeat split; auto.
  - change (starts_from 100 j (S cnt))
      with (Z.of_nat j * 100 :: starts_from 100 (S j) cnt).
    cbn [fetch_batches]. unfold bind at 1. unfold requests_get_answers.
    set (i := Z.of_nat j * 100).
    set (batch := slice question_ids i (i + 100)).
    set (r0 := get_answers E (clock w) batch).
    set (w1 := advance (record (EvGetAnswers batch r0) w)).
    assert (Hone : forall w2,
              trace w2 = trace w1 ->
              ((exists m, r = Ok m) -> stops_batches r0 = true) ->
              (r, w2) = (r, w') ->
              exists new c,
                trace w' = trace w ++ new
                /\ (c <= S cnt)%nat
                /\ requested_batches new
                   = map (fun i => slice question_ids i (i + 100))
                       (starts_from 100 j c)
                /\ requested_pages new = []
                /\ written_files new = []
                /\ ((exists m, r = Ok m) ->
                    Forall (fun x => stops_batches x = false)
                      (answer_responses new) ->
                    c = S cnt)).
    { intros w2 Hw2 Hstop [= <-]. exists [EvGetAnswers batch r0], 1%nat.
      rewrite Hw2. split; [reflexivity|]. split; [lia|].
      split; [reflexivity|]. split; [reflexivity|]. split; [reflexivity|].
      intros Hok Hall. apply Hstop in Hok. simpl in Hall.
      apply Forall_cons in Hall as [Hall _]. congruence. }
    assert (Hmore : forall sl w2,
              trace w2 = trace w1 ++ sl ->
              requested_batches sl = [] -> requested_pages sl = [] ->
              written_files sl = [] -> answer_responses sl = [] ->
              forall acc',
                fetch_batches E question_ids (starts_from 100 (S j) cnt) acc' w2
                = (r, w') ->
                exists new c,
                  trace w' = trace w ++ new
                  /\ (c <= S cnt)%nat
                  /\ requested_batches new
                     = map (fun i => slice question_ids i (i + 100))
                         (starts_from 100 j c)
                  /\ requested_pages new = []
                  /\ written_files new = []
                  /\ ((exists m, r = Ok m) ->
                      Forall (fun x => stops_batches x = false)
                        (answer_responses new) ->
                      c = S cnt)).
    { intros sl w2 Hw2 Hsl1 Hsl2 Hsl3 Hsl4 acc' Hrest.
      apply IH in Hrest as (new & c & Htr & Hc & Hreq & Hpg & Hwr & Hfull).
      exists ([EvGetAnswers batch r0] ++ sl ++ new), (S c).
      split. { rewrite Htr, Hw2. simpl. rewrite <- !app_assoc. reflexivity. }
      split; [lia|].
      rewrite !requested_batches_app, !requested_pages_app, !written_files_app,
        !answer_responses_app, Hsl1, Hsl2, Hsl3, Hsl4, Hreq, Hpg, Hwr.
      split; [reflexivity|]. split; [reflexivity|]. split; [reflexivity|].
      intros Hok Hall. simpl in Hall. apply Forall_cons in Hall as [_ Hall].
      rewrite (Hfull Hok Hall). reflexivity. }
    destruct r0 as [resp|e] eqn:Hr0.
    2: { intros [= <- <-]. apply (Hone w1); auto.
         intros [m Hm]. discriminate. }
    destruct (status_code resp =? 200) eqn:Hs.
    + unfold bind at 1. unfold lift_res at 1.
      destruct (json resp) as [data|e] eqn:Hj.
      2: { intros [= <- <-]. apply (Hone w1); auto.
           intros [m Hm]. discriminate. }
      unfold bind at 1. unfold lift_res at 1.
      destruct (fold_res (add_answer E) acc (default [] (items data)))
        as [acc'|e].
      2: { intros [= <- <-]. apply (Hone w1); auto.
           intros [m Hm]. discriminate. }
      destruct (default 0 (quota_remaining data) <? 100) eqn:Hq.
      * unfold ret. intros [= <- <-]. apply (Hone w1); auto.
        intros _. simpl. rewrite Hs, Hj, Hq. reflexivity.
      * unfold bind at 1. unfold sleep.
        destruct (fault E (clock w1)).
        { intros [= <- <-]. apply (Hone (advance w1)); auto.
          intros [m Hm]. discriminate. }
        apply (Hmore [EvSleep]); reflexivity.
    + apply (Hmore []); try reflexivity. rewrite app_nil_r. reflexivity.
Qed.

(** The first [c] batches of [l], one after the other, are its first
    [100 * c] items. *)
Lemma concat_batches {A} (l : list A) c :
  concat (map (fun i => slice l i (i + 100)) (starts_from 100 0 c))
  = take (c * 100) l.
Proof.
  unfold starts_from. induction c as [|c IH]; [reflexivity|].
  rewrite seq_S, !map_app, concat_app, IH. simpl. rewrite app_nil_r.
  unfold slice.
  replace (Z.to_nat (Z.of_nat c * 100 + 100 - Z.of_nat c * 100)) with 100%nat
    by lia.
  replace (Z.to_nat (Z.of_nat c * 100)) with (c * 100)%nat by lia.
  rewrite take_take_drop. f_equal. lia.
Qed.

(** The requests of the fetcher: one for each of the first [c] batches
    of [question_ids]. *)
Lemma fetch_answers_requests (E : env) question_ids top_n w r w' :
  fetch_answers_for_questions E question_ids top_n w = (r, w') ->
  exists new c,
    trace w' = trace w ++ new
    /\ (c = 0 \/ c * 100 < length question_ids + 100)%nat
    /\ requested_batches new
       = map (fun i => slice question_ids i (i + 100)) (starts_from 100 0 c)
    /\ requested_pages new = []
    /\ written_files new = []
    /\ ((exists m, r = Ok m) ->
        Forall (fun x => stops_batches x = false) (answer_responses new) ->
        (length question_ids <= c * 100)%nat).
Proof.
  unfold fetch_answers_for_questions.
  destruct question_ids as [|q0 ids'].
  { intros [= <- <-]. exists [], 0%nat. rewrite app_nil_r. simpl.
    repeat split; auto. }
  set (l := q0 :: ids').
  destruct (range_step_positive (Z.of_nat (length l)) 100 ltac:(lia) ltac:(lia))
    as (cnt & Hstarts & Hcnt & Hcover & _).
  rewrite Nat2Z.id in Hcnt, Hcover.
  unfold bind at 1. unfold lift_res at 1. rewrite Hstarts.
  unfold bind at 1.
  destruct (fetch_batches E l (starts_from 100 0 cnt) ∅ w) as [r0 w1] eqn:Hb.
  apply fetch_batches_requests in Hb
    as (new & c & Htr & Hc & Hreq & Hpg & Hwr & Hfull).
  intros Hr.
  assert (Hw : w1 = w') by (destruct r0; injection Hr as _ <-; reflexivity).
  assert (Hok : (exists m, r = Ok m) -> exists m0, r0 = Ok m0).
  { intros [m Hm]. destruct r0 as [m0|e]; [eauto|]. subst r. discriminate. }
  subst w1. exists new, c. split; [exact Htr|].
  split; [lia|]. split; [exact Hreq|]. split; [exact Hpg|].
  split; [exact Hwr|].
  intros Hr' Hall. rewrite (Hfull (Hok Hr') Hall). lia.
Qed.

(** Each of the first [c] batches of [l] is non-empty if the [c]-th
    starts inside [l]. *)
Lemma batches_bounded {A} (l : list A) c :
  (c = 0 \/ c * 100 < length l + 100)%nat ->
  Forall (fun b => (0 < length b <= 100)%nat)
    (map (fun i => slice l i (i + 100)) (starts_from 100 0 c)).
Proof.
  intros Hc. unfold starts_from. rewrite Forall_fmap, Forall_fmap.
  apply Forall_seq. intros k Hk. simpl. unfold slice.
  rewrite length_take, length_drop. lia.
Qed.

(** X9: the fetcher asks for the answers in requests of at most 100
    ids and never an empty one; the ids of its requests, one after the
    other, are a prefix of [question_ids], so that no id is asked
    twice; they are all of [question_ids] when the fetcher returns and
    no response had a quota below 100.  It requests no page of
    questions and writes no file. *)
Theorem answers_asked_in_batches (E : env) question_ids top_n w r w' :
  fetch_answers_for_questions E question_ids top_n w = (r, w') ->
  exists new,
    trace w' = trace w ++ new
    /\ concat (requested_batches new) `prefix_of` question_ids
    /\ Forall (fun b => (0 < length b <= 100)%nat) (requested_batches new)
    /\ requested_pages new = []
    /\ written_files new = []
    /\ files w' = files w
    /\ ((exists m, r = Ok m) ->
        Forall (fun x => stops_batches x = false) (answer_responses new) ->
        concat (requested_batches new) = question_ids).
Proof.
  intros Hrun. pose proof (fetch_answers_files E _ _ _ _ _ Hrun) as Hfiles.
  apply fetch_answers_requests in Hrun
    as (new & c & Htr & Hc & Hreq & Hpg & Hwr & Hfull).
  exists new. split; [exact Htr|].
  rewrite Hreq, concat_batches.
  split; [apply prefix_take|].
  split; [apply batches_bounded; exact Hc|].
  split; [exact Hpg|]. split; [exact Hwr|]. split; [exact Hfiles|].
  intros Hr Hall. apply take_ge. exact (Hfull Hr Hall).
Qed.

Lemma answers_asked_in_batches_witness :
  let E := mock_env one_per_page five_answers in
  let run := fetch_answers_for_questions E [1; 2; 3] 3 empty_world in
  exists new,
    trace (snd run) = trace empty_world ++ new
    /\ concat (requested_batches new) `prefix_of` [1; 2; 3]
    /\ Forall (fun b => (0 < length b <= 100)%nat) (requested_batches new)
    /\ requested_pages new = []
    /\ written_files new = []
    /\ files (snd run) = files empty_world
    /\ ((exists m, fst run = Ok m) ->
        Forall (fun x => stops_batches x = false) (answer_responses new) ->
        concat (requested_batches new) = [1; 2; 3]).
Proof.
  intros E run.
  apply (answers_asked_in_batches E [1; 2; 3] 3 empty_world (fst run) (snd run)).
  apply surjective_pairing.
Defined.

(* ================================================================= *)
(** ** The answers: what the result holds of what the server returns *)

(** The responses in the events of the loop over the batches are the
    server's. *)
Lemma fetch_batches_served (E : env) question_ids starts :
  forall all_answers w r w',
    fetch_batches E question_ids starts all_answers w = (r, w') ->
    exists new, trace w' = trace w ++ new /\ Forall (served E) new.
Proof.
  induction starts as [|i starts IH]; intros acc w r w'; simpl.
  - intros [= <- <-]. exists []. rewrite app_nil_r. auto.
  - unfold bind at 1. unfold requests_get_answers.
    set (batch := slice question_ids i (i + 100)).
    set (r0 := get_answers E (clock w) batch).
    set (w1 := advance (record (EvGetAnswers batch r0) w)).
    assert (Hev : served E (EvGetAnswers batch r0)) by (exists (clock w); reflexivity).
    assert (Hone : forall w2, trace w2 = trace w1 ->
              (r, w2) = (r, w') ->
              exists new, trace w' = trace w ++ new /\ Forall (served E) new).
    { intros w2 Hw2 [= <-]. exists [EvGetAnswers batch r0]. rewrite Hw2.
      split; [reflexivity|]. repeat constructor. exact Hev. }
    assert (Hmore : forall sl w2 acc',
              trace w2 = trace w1 ++ sl -> Forall (served E) sl ->
              fetch_batches E question_ids starts acc' w2 = (r, w') ->
              exists new, trace w' = trace w ++ new /\ Forall (served E) new).
    { intros sl w2 acc' Hw2 Hsl Hrest.
      apply IH in Hrest as (new & Htr & Hall).
      exists ([EvGetAnswers batch r0] ++ sl ++ new).
      split. { rewrite Htr, Hw2. simpl. rewrite <- !app_assoc. reflexivity. }
      apply Forall_app. split; [repeat constructor; exact Hev|].
      apply Forall_app. auto. }
    destruct r0 as [resp|e] eqn:Hr0.
    2: { intros [= <- <-]. apply (Hone w1); reflexivity. }
    destruct (status_code resp =? 200).
    + unfold bind at 1. unfold lift_res at 1.
      destruct (json resp) as [data|e].
      2: { intros [= <- <-]. apply (Hone w1); reflexivity. }
      unfold bind at 1. unfold lift_res at 1.
      destruct (fold_res (add_answer E) acc (default [] (items data)))
        as [acc'|e].
      2: { intros [= <- <-]. apply (Hone w1); reflexivity. }
      destruct (default 0 (quota_remaining data) <? 100).
      * unfold ret. intros [= <- <-]. apply (Hone w1); reflexivity.
      * unfold bind at 1. unfold sleep.
        destruct (fault E (clock w1)).
        { intros [= <- <-]. apply (Hone (advance w1)); reflexivity. }
        apply (Hmore [EvSleep]); [reflexivity|repeat constructor].
    + apply (Hmore []); [rewrite app_nil_r; reflexivity|constructor].
Qed.

Lemma fetch_answers_served (E : env) question_ids top_n w r w' :
  fetch_answers_for_questions E question_ids top_n w = (r, w') ->
  exists new, trace w' = trace w ++ new /\ Forall (served E) new.
Proof.
  unfold fetch_answers_for_questions.
  destruct question_ids as [|q0 ids'].
  { intros [= <- <-]. exists []. rewrite app_nil_r. auto. }
  unfold bind at 1. unfold lift_res at 1.
  destruct (range_step _ 100) as [starts|e].
  2: { intros [= <- <-]. exists []. rewrite app_nil_r. auto. }
  unfold bind at 1.
  destruct (fetch_batches E (q0 :: ids') starts ∅ w) as [r0 w1] eqn:Hb.
  apply fetch_batches_served in Hb. intros Hr.
  assert (Hw : w1 = w') by (destruct r0; injection Hr as _ <-; reflexivity).
  subst w1. exact Hb.
Qed.

(** With at most 100 ids there is one request, for all of them, and the
    answers returned are those of the server's response to it. *)
Lemma fetch_answers_single (E : env) question_ids top_n w r w' :
  question_ids <> [] -> (length question_ids <= 100)%nat ->
  fetch_answers_for_questions E question_ids top_n w = (r, w') ->
  exists tail,
    trace w'
    = trace w
      ++ EvGetAnswers question_ids (get_answers E (clock w) question_ids) :: tail
    /\ returned_answers tail = [].
Proof.
  intros Hne Hlen. unfold fetch_answers_for_questions.
  destruct question_ids as [|q0 ids']; [congruence|].
  set (l := q0 :: ids') in *.
  assert (Hstarts : range_step (Z.of_nat (length l)) 100 = Ok [0]).
  { unfold range_step. simpl (100 =? 0). simpl (100 <? 0). cbv iota.
    replace ((Z.of_nat (length l) + 100 - 1) / 100) with 1; [reflexivity|].
    apply (Z.div_unique_pos _ 100 1 (Z.of_nat (length l) - 1));
      subst l; simpl length in *; lia. }
  unfold bind at 1. unfold lift_res at 1. rewrite Hstarts.
  unfold bind at 1.
  destruct (fetch_batches E l [0] ∅ w) as [r0 w1] eqn:Hb.
  intros Hr.
  assert (Hw : w1 = w') by (destruct r0; injection Hr as _ <-; reflexivity).
  subst w1. clear Hr. revert Hb. cbn [fetch_batches].
  assert (Hslice : slice l 0 (0 + 100) = l).
  { unfold slice. change (Z.to_nat (0 + 100 - 0)) with 100%nat.
    change (Z.to_nat 0) with 0%nat. rewrite drop_0. apply take_ge. lia. }
  rewrite Hslice.
  unfold bind at 1. unfold requests_get_answers.
  set (r1 := get_answers E (clock w) l).
  destruct r1 as [resp|e].
  2: { intros [= _ <-]. exists []. auto. }
  destruct (status_code resp =? 200).
  - unfold bind at 1. unfold lift_res at 1.
    destruct (json resp) as [data|e].
    2: { intros [= _ <-]. exists []. auto. }
    unfold bind at 1. unfold lift_res at 1.
    destruct (fold_res (add_answer E) ∅ (default [] (items data))) as [acc'|e].
    2: { intros [= _ <-]. exists []. auto. }
    destruct (default 0 (quota_remaining data) <? 100).
    + intros [= _ <-]. exists []. auto.
    + unfold bind at 1. unfold sleep. simpl.
      destruct (fault E _).
      * intros [= _ <-]. exists []. auto.
      * intros [= _ <-]. exists [EvSleep]. simpl. rewrite <- app_assoc. auto.
  - intros [= _ <-]. exists []. auto.
Qed.

(** C5: the result is made of the answers that the server returns to
    the requests for the batches of [question_ids]: the requests are
    for a prefix of the ids, for all of them unless a response carries
    a quota below 100, and with at most 100 ids the returned answers
    are those of the one response to the request for them all.  The
    result maps every question that has answers among the returned
    ones to its accepted answers, as many as are marked accepted, and
    to the first [top_n] of its other answers in the stable order of
    decreasing score; a question without a returned answer is not in
    the result. *)
Theorem answers_bucketed (E : env) question_ids top_n w m w' :
  0 <= top_n ->
  fetch_answers_for_questions E question_ids top_n w = (Ok m, w') ->
  exists new,
    trace w' = trace w ++ new
    /\ Forall (served E) new
    /\ concat (requested_batches new) `prefix_of` question_ids
    /\ (Forall (fun x => stops_batches x = false) (answer_responses new) ->
        concat (requested_batches new) = question_ids)
    /\ (question_ids <> [] -> (length question_ids <= 100)%nat ->
        returned_answers new
        = response_answers (get_answers E (clock w) question_ids))
    /\ forall qid,
         let A := answers_of qid (returned_answers new) in
         match A with
         | [] => m !! qid = None
         | _ :: _ =>
             exists b,
               m !! qid = Some b
               /\ length (accepted b) = length (marked_accepted A)
               /\ Z.of_nat (length (others b))
                  = Z.min (Z.of_nat (length (not_accepted A))) top_n
               /\ sorted_desc (others b)
               /\ accepted b = map (data_of E) (marked_accepted A)
               /\ others b
                  = take (Z.to_nat top_n)
                      (sort_desc (map (data_of E) (not_accepted A)))
         end.
Proof.
  intros Htop Hrun.
  destruct (fetch_answers_lookup E _ _ _ _ _ Hrun) as (new & Htr & Hm).
  exists new. split; [exact Htr|].
  split.
  { destruct (fetch_answers_served E _ _ _ _ _ Hrun) as (new1 & Htr1 & Hs).
    rewrite Htr in Htr1. apply app_inv_head in Htr1 as ->. exact Hs. }
  destruct (fetch_answers_requests E _ _ _ _ _ Hrun)
    as (new2 & c & Htr2 & Hc & Hreq & _ & _ & Hfull).
  rewrite Htr in Htr2. apply app_inv_head in Htr2 as <-.
  rewrite Hreq, concat_batches.
  split; [apply prefix_take|].
  split.
  { intros Hall. apply take_ge. apply Hfull; [eauto|exact Hall]. }
  split.
  { intros Hne Hlen.
    destruct (fetch_answers_single E _ _ _ _ _ Hne Hlen Hrun)
      as (tail & Htr3 & Htail).
    rewrite Htr in Htr3. apply app_inv_head in Htr3 as ->.
    change (EvGetAnswers question_ids (get_answers E (clock w) question_ids)
              :: tail)
      with ([EvGetAnswers question_ids (get_answers E (clock w) question_ids)]
              ++ tail).
    rewrite returned_answers_app, Htail, app_nil_r.
    unfold returned_answers. simpl. apply app_nil_r. }
  intros qid. rewrite Hm.
  unfold bucket_after. simpl.
  destruct (answers_of qid (returned_answers new)) as [|a A]; [reflexivity|].
  simpl. eexists. split; [reflexivity|]. simpl.
  rewrite slice_to_nonneg by exact Htop.
  split; [rewrite length_map; reflexivity|].
  split.
  { rewrite length_take, sort_desc_length, length_map. lia. }
  split; [apply sorted_desc_take, sort_desc_sorted|]. auto.
Qed.

Lemma answers_bucketed_witness :
  let E := mock_env one_per_page five_answers in
  let run := fetch_answers_for_questions E [1] 3 empty_world in
  let m := match fst run with Ok m => m | Raise _ => ∅ end in
  fst run = Ok m
  /\ (map ad_answer_id <$> (accepted <$> m !! 1)) = Some [10]
  /\ (map ad_score <$> (others <$> m !! 1)) = Some [9; 7; 5]
  /\ exists new,
       trace (snd run) = trace empty_world ++ new
       /\ Forall (served E) new
       /\ concat (requested_batches new) `prefix_of` [1]
       /\ (Forall (fun x => stops_batches x = false) (answer_responses new) ->
           concat (requested_batches new) = [1])
       /\ ([1] <> [] -> (length [1] <= 100)%nat ->
           returned_answers new
           = response_answers (get_answers E (clock empty_world) [1]))
       /\ forall qid,
            let A := answers_of qid (returned_answers new) in
            match A with
            | [] => m !! qid = None
            | _ :: _ =>
                exists b,
                  m !! qid = Some b
                  /\ length (accepted b) = length (marked_accepted A)
                  /\ Z.of_nat (length (others b))
                     = Z.min (Z.of_nat (length (not_accepted A))) 3
                  /\ sorted_desc (others b)
                  /\ accepted b = map (data_of E) (marked_accepted A)
                  /\ others b
                     = take (Z.to_nat 3)
                         (sort_desc (map (data_of E) (not_accepted A)))
            end.
Proof.
  intros E run m. split; [vm_compute; reflexivity|].
  split; [vm_compute; reflexivity|]. split; [vm_compute; reflexivity|].
  apply (answers_bucketed E [1] 3 empty_world m (snd run)); [lia|].
  vm_compute. reflexivity.
Defined.

(* ================================================================= *)
(** ** More on the joiner: what it requests, what it writes, and when
       it has nothing to do *)

(** The "Save progress" statement asks nothing and writes the output
    file only. *)
Lemma save_progress_outside (E : env) output_file existing_df processed_ids
    results w r w' :
  save_progress E output_file existing_df processed_ids results w = (r, w') ->
  exists sl,
    trace w' = trace w ++ sl
    /\ requested_batches sl = []
    /\ requested_pages sl = []
    /\ Forall (eq output_file) (written_files sl)
    /\ (forall f, f <> output_file -> files w' !! f = files w !! f).
Proof.
  assert (Hcsv : forall rows,
            to_csv E rows output_file w = (r, w') ->
            exists sl,
              trace w' = trace w ++ sl
              /\ requested_batches sl = []
              /\ requested_pages sl = []
              /\ Forall (eq output_file) (written_files sl)
              /\ (forall f, f <> output_file -> files w' !! f = files w !! f)).
  { intros rows. unfold to_csv, write_file.
    destruct (fault E (clock w)) as [fl|]; intros [= <- <-].
    - exists []. rewrite app_nil_r. simpl.
      split; [destruct (torn fl); reflexivity|]. repeat split; auto.
      intros f Hf. destruct (torn fl); simpl;
        rewrite ?lookup_insert_ne by congruence; reflexivity.
    - eexists. simpl. split; [reflexivity|]. simpl.
      split; [reflexivity|]. split; [reflexivity|].
      split; [repeat constructor|].
      intros f Hf. apply lookup_insert_ne. congruence. }
  unfold save_progress. destruct results as [|r0 results].
  { intros [= <- <-]. exists []. rewrite app_nil_r. simpl. repeat split; auto. }
  destruct (path_exists output_file w && _); apply Hcsv.
Qed.

(** The requests and the writes of the loop over the batches, from the
    [j]-th batch on. *)
Lemma process_batches_requests (E : env) to_process batch_size top_n
    output_file existing_df processed_ids cnt :
  0 < batch_size ->
  forall (j : nat) results w r w',
    process_batches E to_process batch_size top_n output_file existing_df
      processed_ids (starts_from batch_size j cnt) results w = (r, w') ->
    exists new,
      trace w' = trace w ++ new
      /\ requested_pages new = []
      /\ Forall (fun b => (0 < length b <= 100)%nat) (requested_batches new)
      /\ concat (requested_batches new)
         `sublist_of` ids (drop (j * Z.to_nat batch_size) to_process)
      /\ Forall (eq output_file) (written_files new)
      /\ (forall f, f <> output_file -> files w' !! f = files w !! f).
Proof.
  intros Hb. induction cnt as [|cnt IH]; intros j results w r w'.
  - simpl. intros [= <- <-]. exists []. rewrite app_nil_r. simpl.
    repeat split; auto. apply sublist_nil_l.
  - unfold starts_from. simpl. fold (starts_from batch_size (S j) cnt).
    rewrite (slice_batch to_process batch_size j Hb).
    set (nb := Z.to_nat batch_size) in *.
    set (batch := take nb (drop (j * nb) to_process)).
    assert (Hsplit : ids (drop (j * nb) to_process)
                     = ids batch ++ ids (drop (S j * nb) to_process)).
    { unfold ids. rewrite <- map_app. f_equal. subst batch.
      replace (S j * nb)%nat with (j * nb + nb)%nat by lia.
      rewrite <- drop_drop, take_drop. reflexivity. }
    unfold bind at 1.
    destruct (fetch_answers_for_questions E _ top_n w) as [r1 w1] eqn:Hf.
    pose proof (fetch_answers_files E _ _ _ _ _ Hf) as Hfiles1.
    apply fetch_answers_requests in Hf
      as (new1 & c & Htr1 & Hc & Hreq1 & Hpg1 & Hwr1 & _).
    assert (Hbound1 : Forall (fun b => (0 < length b <= 100)%nat)
                        (requested_batches new1)).
    { rewrite Hreq1. apply batches_bounded. exact Hc. }
    assert (Hsub1 : concat (requested_batches new1) `sublist_of` ids batch).
    { rewrite Hreq1, concat_batches. apply sublist_take. }
    assert (Hstop1 : (r, w') = (r, w1) ->
              exists new,
                trace w' = trace w ++ new
                /\ requested_pages new = []
                /\ Forall (fun b => (0 < length b <= 100)%nat)
                     (requested_batches new)
                /\ concat (requested_batches new)
                   `sublist_of` ids (drop (j * nb) to_process)
                /\ Forall (eq output_file) (written_files new)
                /\ (forall f, f <> output_file ->
                              files w' !! f = files w !! f)).
    { intros [= ->]. exists new1. split; [exact Htr1|]. split; [exact Hpg1|].
      split; [exact Hbound1|].
      split. { rewrite Hsplit. apply sublist_inserts_r. exact Hsub1. }
      rewrite Hwr1, Hfiles1. split; [constructor|]. reflexivity. }
    destruct r1 as [m|e].
    2: { intros [= <- <-]. apply Hstop1. reflexivity. }
    unfold bind at 1. unfold lift_res at 1.
    destruct (map_res_build_row E m batch) as (rows & -> & _).
    unfold bind at 1.
    destruct (save_progress E output_file existing_df processed_ids
                (results ++ rows) w1) as [r2 w2] eqn:Hs.
    apply save_progress_outside in Hs as (sl & Htr2 & Hreq2 & Hpg2 & Hwr2 & Hf2).
    destruct r2 as [[]|e].
    2: { intros [= <- <-]. exists (new1 ++ sl).
         rewrite Htr2, Htr1, <- app_assoc. split; [reflexivity|].
         rewrite requested_pages_app, requested_batches_app, written_files_app,
           Hreq2, Hpg2, Hpg1, Hwr1, !app_nil_r.
         simpl.
         split; [reflexivity|]. split; [exact Hbound1|].
         split. { rewrite Hsplit. apply sublist_inserts_r. exact Hsub1. }
         split; [exact Hwr2|].
         intros f Hf. rewrite Hf2, Hfiles1 by exact Hf. reflexivity. }
    intros Hrest.
    apply IH in Hrest as (new3 & Htr3 & Hpg3 & Hbound3 & Hsub3 & Hwr3 & Hf3).
    exists (new1 ++ sl ++ new3).
    rewrite Htr3, Htr2, Htr1, <- !app_assoc. split; [reflexivity|].
    rewrite !requested_pages_app, !requested_batches_app, !written_files_app,
      Hreq2, Hpg1, Hpg2, Hpg3, Hwr1.
    split; [reflexivity|]. simpl.
    split; [apply Forall_app; auto|].
    split. { rewrite concat_app, Hsplit. apply sublist_app; assumption. }
    split; [apply Forall_app; auto|].
    intros f Hf. rewrite Hf3, Hf2, Hfiles1 by exact Hf. reflexivity.
Qed.

(** A run of the joiner either leaves the world as it is, or is the
    loop over the batches of the questions that have no row yet. *)
Lemma joiner_cases (E : env) questions_file output_file batch_size top_n w r w' :
  process_questions_with_answers E questions_file output_file batch_size top_n w
  = (r, w') ->
  let existing_df := match files w !! output_file with
                     | Some (CsvTable rows) => read_table E rows
                     | _ => None
                     end in
  let to_process :=
    unprocessed (list_to_set (row_ids (table E w output_file)))
      (stored w questions_file) in
  (w' = w /\ (r = Ok tt -> 0 < batch_size -> to_process = []))
  \/ (0 < batch_size /\ to_process <> []
      /\ exists cnt,
           (cnt * Z.to_nat batch_size
            < length to_process + Z.to_nat batch_size)%nat
           /\ (length to_process <= cnt * Z.to_nat batch_size)%nat
           /\ process_batches E to_process batch_size top_n output_file
                existing_df (ids_of_table existing_df)
                (starts_from batch_size 0 cnt) [] w = (r, w')).
Proof.
  intros Hrun existing_df to_process. revert Hrun.
  unfold process_questions_with_answers, bind at 1, load_questions.
  unfold to_process, stored.
  destruct (files w !! questions_file) as [[qs|rows|]|] eqn:Hq.
  2,3: intros [= <- <-]; left; split; [reflexivity|discriminate].
  2: { intros [= <- <-]. left. auto. }
  destruct qs as [|q0 qs'].
  { intros [= <- <-]. left. auto. }
  unfold bind at 1. rewrite load_existing_eq. fold existing_df.
  assert (Hpids : ids_of_table existing_df
                  = list_to_set (row_ids (table E w output_file))).
  { unfold existing_df, table.
    destruct (files w !! output_file) as [[|rows0|]|]; try reflexivity.
    destruct (read_table E rows0); reflexivity. }
  rewrite Hpids.
  set (tp := unprocessed _ (q0 :: qs')).
  unfold bind at 1. unfold lift_res at 1.
  destruct (Z_lt_le_dec 0 batch_size) as [Hb|Hb].
  - destruct (range_step_positive (Z.of_nat (length tp)) batch_size Hb
                ltac:(lia)) as (cnt & -> & Hcnt & Hcover & Hzero).
    rewrite Nat2Z.id in Hcnt, Hcover.
    destruct tp as [|q tp'] eqn:Htp.
    + assert (cnt = 0%nat) as -> by (simpl in Hcnt; nia).
      simpl. intros [= <- <-]. left. auto.
    + rewrite <- Htp in *. intros Hloop. right.
      split; [exact Hb|]. split; [rewrite Htp; discriminate|].
      exists cnt. split.
      { destruct Hcnt as [->|Hcnt]; [|exact Hcnt].
        rewrite Htp in Hcover. simpl in Hcover. lia. }
      split; [exact Hcover|exact Hloop].
  - unfold range_step. destruct (batch_size =? 0) eqn:H0.
    + intros [= <- <-]. left. split; [reflexivity|discriminate].
    + apply Z.eqb_neq in H0.
      assert (H1 : (batch_size <? 0) = true) by (apply Z.ltb_lt; lia).
      rewrite H1. simpl. intros [= <- <-]. left. split; [reflexivity|lia].
Qed.

Lemma unprocessed_nil (processed_ids : gset Z) questions :
  (forall q, q ∈ questions -> question_id q ∈ processed_ids) ->
  unprocessed processed_ids questions = [].
Proof.
  intros Hall. unfold unprocessed.
  destruct (filter _ questions) as [|x l] eqn:Hf; [reflexivity|].
  assert (Hx : x ∈ filter (fun q => question_id q ∉ processed_ids) questions).
  { rewrite Hf. apply list_elem_of_here. }
  apply list_elem_of_filter in Hx as [Hx1 Hx2]. destruct (Hx1 (Hall x Hx2)).
Qed.

(** X10: with questions in the question file, a [batch_size] of zero
    makes the joiner raise [ValueError], a negative one makes it end
    normally without a request or a write, and so does a positive one
    when every question has its row in the output table already; in
    each case the files are left as they were. *)
Theorem joiner_without_work (E : env) questions_file output_file batch_size
    top_n w qs :
  files w !! questions_file = Some (JsonQuestions qs) ->
  qs <> [] ->
  let run :=
    process_questions_with_answers E questions_file output_file batch_size
      top_n w in
  (batch_size = 0 -> run = (Raise ValueError, w))
  /\ (batch_size < 0 -> run = (Ok tt, w))
  /\ (0 < batch_size ->
      (forall q, q ∈ qs -> question_id q ∈ row_ids (table E w output_file)) ->
      run = (Ok tt, w)).
Proof.
  intros Hq Hne run.
  set (existing_df := match files w !! output_file with
                      | Some (CsvTable rows) => read_table E rows
                      | _ => None
                      end).
  assert (Hrun : run
                 = (let* starts :=
                      lift_res
                        (range_step
                           (Z.of_nat
                              (length (unprocessed (ids_of_table existing_df) qs)))
                           batch_size) in
                    process_batches E (unprocessed (ids_of_table existing_df) qs)
                      batch_size top_n output_file existing_df
                      (ids_of_table existing_df) starts []) w).
  { subst run.
    unfold process_questions_with_answers, bind at 1, load_questions.
    rewrite Hq. destruct qs as [|q0 qs']; [congruence|].
    unfold bind at 1. rewrite load_existing_eq. reflexivity. }
  rewrite Hrun. unfold bind, lift_res, range_step.
  split; [|split].
  - intros ->. reflexivity.
  - intros Hb. destruct (batch_size =? 0) eqn:H0; [apply Z.eqb_eq in H0; lia|].
    destruct (batch_size <? 0) eqn:H1; [reflexivity|].
    apply Z.ltb_ge in H1. lia.
  - intros Hb Hall.
    assert (Hnone : unprocessed (ids_of_table existing_df) qs = []).
    { apply unprocessed_nil. intros q Hin. specialize (Hall q Hin).
      unfold existing_df, table in *.
      destruct (files w !! output_file) as [[|rows0|]|]; simpl in *;
        try (apply elem_of_nil in Hall; destruct Hall).
      destruct (read_table E rows0); simpl in *;
        [|apply elem_of_nil in Hall; destruct Hall].
      apply elem_of_list_to_set. exact Hall. }
    rewrite Hnone.
    destruct (batch_size =? 0) eqn:H0; [apply Z.eqb_eq in H0; lia|].
    destruct (batch_size <? 0) eqn:H1; [reflexivity|].
    replace ((Z.of_nat (length (@nil question)) + batch_size - 1) / batch_size)
      with 0; [reflexivity|].
    simpl. symmetry. apply Z.div_small. lia.
Qed.

Lemma joiner_without_work_witness :
  let E := mock_env one_per_page five_answers in
  let run b :=
    process_questions_with_answers E "nlp_questions.json" "nlp_qa_dataset.csv"
      b 3 resumed_world in
  (0 = 0 -> run 0 = (Raise ValueError, resumed_world))
  /\ (0 < 0 -> run 0 = (Ok tt, resumed_world))
  /\ (0 < 0 ->
      (forall q, q ∈ three_questions ->
                 question_id q
                 ∈ row_ids (table E resumed_world "nlp_qa_dataset.csv")) ->
      run 0 = (Ok tt, resumed_world)).
Proof.
  intros E run.
  apply (joiner_without_work E "nlp_questions.json" "nlp_qa_dataset.csv" 0 3
           resumed_world three_questions).
  - reflexivity.
  - discriminate.
Defined.

Example joiner_negative_batch_size_example :
  let E := mock_env one_per_page five_answers in
  process_questions_with_answers E "nlp_questions.json" "nlp_qa_dataset.csv"
    (-30) 3 resumed_world
  = (Ok tt, resumed_world).
Proof. vm_compute. reflexivity. Qed.

(** X11: whatever the server and the file system do, a run of the
    joiner requests no page of questions; it asks for answers in
    requests of at most 100 ids, never an empty one, and only for
    questions that have no row in the output table yet, each at most
    once and in their order; it writes no file but [output_file] and
    leaves every other file, the question file too, as it was. *)
Theorem joiner_requests_and_writes (E : env) questions_file output_file
    batch_size top_n w :
  let run :=
    process_questions_with_answers E questions_file output_file batch_size
      top_n w in
  let to_process :=
    unprocessed (list_to_set (row_ids (table E w output_file)))
      (stored w questions_file) in
  exists new,
    trace (snd run) = trace w ++ new
    /\ requested_pages new = []
    /\ Forall (fun b => (0 < length b <= 100)%nat) (requested_batches new)
    /\ concat (requested_batches new) `sublist_of` ids to_process
    /\ Forall (eq output_file) (written_files new)
    /\ (forall f, f <> output_file -> files (snd run) !! f = files w !! f).
Proof.
  intros run to_process.
  destruct run as [r w'] eqn:Hrun. subst run. simpl.
  destruct (joiner_cases E _ _ _ _ _ _ _ Hrun)
    as [[-> _]|(Hb & _ & cnt & _ & _ & Hloop)].
  - exists []. rewrite app_nil_r. simpl. repeat split; auto.
    apply sublist_nil_l.
  - apply process_batches_requests in Hloop; [|exact Hb].
    exact Hloop.
Qed.

Example joiner_requests_example :
  let E := mock_env one_per_page five_answers in
  let run :=
    process_questions_with_answers E "nlp_questions.json" "nlp_qa_dataset.csv"
      30 3 resumed_world in
  requested_batches (trace (snd run)) = [[3]]
  /\ written_files (trace (snd run)) = ["nlp_qa_dataset.csv"].
Proof. vm_compute. split; reflexivity. Qed.

(** When the joiner ends normally, it has left the world as it was,
    having no question to process, or the output file holds the table
    read followed by one row for each question that had none. *)
Lemma joiner_completes (E : env) questions_file output_file batch_size top_n
    w w' :
  0 < batch_size ->
  process_questions_with_answers E questions_file output_file batch_size top_n w
  = (Ok tt, w') ->
  let existing := table E w output_file in
  let to_process :=
    unprocessed (list_to_set (row_ids existing)) (stored w questions_file) in
  (w' = w /\ to_process = [])
  \/ exists new,
       files w' !! output_file = Some (CsvTable (existing ++ new))
       /\ row_ids new = ids to_process.
Proof.
  intros Hb Hrun existing to_process.
  destruct (joiner_cases E _ _ _ _ _ _ _ Hrun)
    as [[-> Hnone]|(_ & Hne & cnt & Hcnt & Hcover & Hloop)].
  - left. split; [reflexivity|]. exact (Hnone eq_refl Hb).
  - right.
    set (existing_df := match files w !! output_file with
                        | Some (CsvTable rows) => read_table E rows
                        | _ => None
                        end) in *.
    fold existing to_process in Hne, Hcnt, Hcover, Hloop.
    assert (Hex : default [] existing_df = existing).
    { unfold existing_df, existing, table.
      destruct (files w !! output_file) as [[| |]|]; reflexivity. }
    assert (Hinit : joiner_inv output_file (files w !! output_file)
                      (default [] existing_df) to_process w).
    { split.
      - unfold existing_df.
        destruct (files w !! output_file) as [[| |]|]; simpl;
          try congruence; eauto.
      - intros rows Hrows. left. reflexivity. }
    destruct (process_batches_inv E output_file (files w !! output_file)
                existing_df to_process
                batch_size top_n cnt Hb 0%nat [] w (Ok tt) w') as [_ Hfin].
    + right. simpl. exact Hcnt.
    + reflexivity.
    + exact Hinit.
    + exact Hloop.
    + destruct (Hfin eq_refl) as [_ Hn].
      destruct Hn as (rows & Hrows & Hids).
      { intros ->. apply Hne. apply length_zero_iff_nil. simpl in Hcover. lia. }
      exists rows. rewrite Hex in Hrows. split; [exact Hrows|]. rewrite Hids.
      rewrite take_ge by (simpl; lia). reflexivity.
Qed.

(* ================================================================= *)
(** ** The two steps together *)

(** The collector leaves the files other than its output file alone. *)
Lemma collect_all_questions_other_files (E : env) mp sp ha si output_file
    w r w' f :
  collect_all_questions E mp sp ha si output_file w = (r, w') ->
  f <> output_file ->
  files w' !! f = files w !! f.
Proof.
  unfold collect_all_questions.
  destruct (load_stored_world output_file w) as [[loaded|e] ->].
  2: { intros [= <- <-]. reflexivity. }
  destruct (collect_from E mp sp ha si output_file (collect_init loaded w))
    as [r1 st] eqn:Hfrom.
  intros [= <- <-] Hf.
  apply collect_from_requests in Hfrom as (seg & _ & _ & _ & _ & Hfiles).
  apply Hfiles. exact Hf.
Qed.

(** The joiner leaves the files other than its output file alone. *)
Lemma joiner_other_files (E : env) questions_file output_file batch_size top_n
    w r w' f :
  process_questions_with_answers E questions_file output_file batch_size top_n w
  = (r, w') ->
  f <> output_file ->
  files w' !! f = files w !! f.
Proof.
  intros Hrun Hf.
  destruct (joiner_cases E _ _ _ _ _ _ _ Hrun)
    as [[-> _]|(Hb & _ & cnt & _ & _ & Hloop)]; [reflexivity|].
  apply process_batches_requests in Hloop as (new & _ & _ & _ & _ & _ & Hfiles);
    [|exact Hb].
  apply Hfiles. exact Hf.
Qed.

Lemma blanking_reads_ids pages answers : reads_ids (mock_env pages answers).
Proof.
  intros rows frame [= <-]. unfold row_ids. rewrite map_map.
  apply map_ext. intros r. reflexivity.
Qed.

(** X12: when [main] ends normally and reading a table keeps the ids of
    its rows, the question file holds the collection that was stored
    before, followed by the new questions; the output file is as it
    was, every collected question having a row in it already, or it
    holds the table read at the start followed by one row for each
    question of the collection that had none, in order; either way
    every collected question has a row in the output file. *)
Theorem main_end_to_end (E : env) w0 w' :
  reads_ids E ->
  main E w0 = (Ok tt, w') ->
  let existing := table E w0 "nlp_qa_dataset.csv" in
  exists qs new,
    files w' !! "nlp_questions.json" = Some (JsonQuestions qs)
    /\ stored w0 "nlp_questions.json" `prefix_of` qs
    /\ row_ids new = ids (unprocessed (list_to_set (row_ids existing)) qs)
    /\ ((new = []
         /\ files w' !! "nlp_qa_dataset.csv" = files w0 !! "nlp_qa_dataset.csv")
        \/ files w' !! "nlp_qa_dataset.csv" = Some (CsvTable (existing ++ new)))
    /\ (forall q, q ∈ qs ->
                  question_id q ∈ row_ids (written w' "nlp_qa_dataset.csv")).
Proof.
  intros Hreads. unfold main, bind.
  destruct (collect_all_questions E 100 11 true 2 "nlp_questions.json" w0)
    as [[qs|e] w1] eqn:Hc; [|discriminate].
  intros Hj. set (existing := table E w0 "nlp_qa_dataset.csv").
  assert (Hcsv : files w1 !! "nlp_qa_dataset.csv"
                 = files w0 !! "nlp_qa_dataset.csv").
  { eapply collect_all_questions_other_files; [exact Hc|discriminate]. }
  assert (Hjson : files w' !! "nlp_questions.json"
                  = files w1 !! "nlp_questions.json").
  { eapply joiner_other_files; [exact Hj|discriminate]. }
  apply collect_all_questions_run in Hc as (tr & _ & Hadded & Hok).
  specialize (Hok qs eq_refl).
  destruct (Hadded qs Hok) as (added & Hqs & _).
  assert (Hstored : stored w1 "nlp_questions.json" = qs).
  { unfold stored. rewrite Hok. reflexivity. }
  assert (Htable1 : table E w1 "nlp_qa_dataset.csv" = existing).
  { unfold existing, table. rewrite Hcsv. reflexivity. }
  assert (Hin : forall q, q ∈ qs ->
            question_id q ∈ row_ids existing
            \/ question_id q
               ∈ ids (unprocessed (list_to_set (row_ids existing)) qs)).
  { intros q Hq.
    destruct (decide (question_id q ∈ row_ids existing)) as [Hi|Ho]; [auto|].
    right. unfold ids. apply list_elem_of_fmap. exists q.
    split; [reflexivity|]. unfold unprocessed. apply list_elem_of_filter.
    split; [|exact Hq]. rewrite elem_of_list_to_set. exact Ho. }
  apply joiner_completes in Hj; [|lia].
  rewrite Hstored, Htable1 in Hj.
  destruct Hj as [[-> Hnone]|(new & Hfile & Hids)].
  - exists qs, []. split; [exact Hok|]. split; [exists added; exact Hqs|].
    rewrite Hnone. split; [reflexivity|]. split; [left; auto|].
    intros q Hq. destruct (Hin q Hq) as [Hi|Hi];
      [|rewrite Hnone in Hi; apply elem_of_nil in Hi; destruct Hi].
    unfold existing, table, written in *. rewrite Hcsv.
    destruct (files w0 !! "nlp_qa_dataset.csv") as [[|rows0|]|];
      try (apply elem_of_nil in Hi; destruct Hi).
    destruct (read_table E rows0) as [frame|] eqn:Hread;
      [|apply elem_of_nil in Hi; destruct Hi].
    rewrite <- (Hreads _ _ Hread). exact Hi.
  - exists qs, new. split; [rewrite Hjson; exact Hok|].
    split; [exists added; exact Hqs|]. split; [exact Hids|].
    split; [right; exact Hfile|].
    intros q Hq. unfold written. rewrite Hfile.
    unfold row_ids at 1. rewrite map_app. apply elem_of_app.
    destruct (Hin q Hq) as [Hi|Hi]; [left; exact Hi|].
    right. fold (row_ids new). rewrite Hids. exact Hi.
Qed.

Lemma main_end_to_end_witness :
  let E := mock_env empty_pages no_answers in
  let run := main E resumed_world in
  let existing := table E resumed_world "nlp_qa_dataset.csv" in
  fst run = Ok tt
  /\ row_ids (written (snd run) "nlp_qa_dataset.csv") = [1; 2; 3]
  /\ exists qs new,
       files (snd run) !! "nlp_questions.json" = Some (JsonQuestions qs)
       /\ stored resumed_world "nlp_questions.json" `prefix_of` qs
       /\ row_ids new = ids (unprocessed (list_to_set (row_ids existing)) qs)
       /\ ((new = []
            /\ files (snd run) !! "nlp_qa_dataset.csv"
               = files resumed_world !! "nlp_qa_dataset.csv")
           \/ files (snd run) !! "nlp_qa_dataset.csv"
              = Some (CsvTable (existing ++ new)))
       /\ (forall q, q ∈ qs ->
                     question_id q
                     ∈ row_ids (written (snd run) "nlp_qa_dataset.csv")).
Proof.
  intros E run existing. split; [vm_compute; reflexivity|].
  split; [vm_compute; reflexivity|].
  apply (main_end_to_end E resumed_world (snd run)).
  - apply blanking_reads_ids.
  - vm_compute. reflexivity.
Defined.
